(** * mat-dp-core: processes, process handles and process expressions

    A shallow embedding of [mat_dp_core/maths_core/processes.py] and the
    properties of its three classes:

    - [Processes]   the registry of process definitions (name, vector);
    - [Process]     a handle: owning registry, position, multiplier;
    - [ProcessExpr] an ordered list of handles, a linear combination.

    Python objects are mutable and compared by identity, so the embedding
    keeps a store with one table per class; an object is its address in its
    table.  Every method is a computation in a state-and-exception monad over
    that store.

    Numbers.  A multiplier is a Python [int], modelled by [Z]: the default
    multiplier is the [int] [1], and [+], [*], unary [-], [abs] and the
    comparisons with [0] and [1] are exact on [int].  A handle whose
    multiplier has become a [float] is outside the model, and every statement
    about multipliers is a statement about integer multipliers and integer
    factors.  A quantity is a Python [int] or [float]; the vector of a
    definition is a numpy float64 array, modelled by a list of binary64
    numbers, and a quantity is converted when it is written. *)

From Stdlib Require Import ZArith String Ascii List Lia DecimalString DecimalPos Floats.
From stdpp Require Import base list.

Local Open Scope string_scope.
Local Open Scope list_scope.
Local Open Scope Z_scope.

(** ** Objects and the store *)

Abbreviation addr := nat (only parsing).

(** [class Process]: [_parent] is the address of the owning [Processes]
    object, [index] a Python [int]. *)
Record Process := mkProcess {
  _parent : addr;
  index : Z;
  multiplier : Z
}.

(** A numpy float64 vector, a two-dimensional numpy float64 array (a list
    of rows). *)
Abbreviation ndarray := (list float) (only parsing).
Abbreviation ndarray2 := (list (list float)) (only parsing).

(** [class Processes]: the list of [(name, array)] pairs and the cached
    produce matrix ([None] until the first access). *)
Record Processes := mkProcesses {
  _processes : list (string * ndarray);
  _process_produces : option ndarray2
}.

(** The store.  A [ProcessExpr] object has the single attribute
    [_processes], a list of [Process] objects; every expression this module
    builds owns a list of its own, so the object and its list are one cell. *)
Record Heap := mkHeap {
  procs : list Process;
  exprs : list (list addr);
  regs : list Processes
}.

Definition set_procs (f : list Process -> list Process) (h : Heap) : Heap :=
  mkHeap (f (procs h)) (exprs h) (regs h).
Definition set_exprs (f : list (list addr) -> list (list addr)) (h : Heap) : Heap :=
  mkHeap (procs h) (f (exprs h)) (regs h).
Definition set_regs (f : list Processes -> list Processes) (h : Heap) : Heap :=
  mkHeap (procs h) (exprs h) (f (regs h)).

(** ** Exceptions and the monad *)

Inductive exn :=
| ValueError (msg : string)
| KeyError (msg : string)
| IndexError (msg : string)
| OverflowError (msg : string).

(** The class of an exception, what an [except] clause selects on. *)
Inductive exn_class := CValueError | CKeyError | CIndexError | COverflowError.

Definition class_of (e : exn) : exn_class :=
  match e with
  | ValueError _ => CValueError
  | KeyError _ => CKeyError
  | IndexError _ => CIndexError
  | OverflowError _ => COverflowError
  end.

(** [Stuck] is the lookup of an address that is not allocated; no Python
    execution reaches it. *)
Inductive outcome (A : Type) :=
| Ok (a : A)
| Raise (e : exn)
| Stuck.
Arguments Ok {A} a.
Arguments Raise {A} e.
Arguments Stuck {A}.

Definition M (A : Type) : Type := Heap -> outcome A * Heap.

Definition ret {A} (a : A) : M A := fun h => (Ok a, h).

Definition bind {A B} (m : M A) (k : A -> M B) : M B :=
  fun h =>
    match m h with
    | (Ok a, h') => k a h'
    | (Raise e, h') => (Raise e, h')
    | (Stuck, h') => (Stuck, h')
    end.

Definition raise {A} (e : exn) : M A := fun h => (Raise e, h).

Declare Scope py_scope.
Delimit Scope py_scope with py.
Notation "'let*' x ':=' m 'in' k" := (bind m (fun x => k))
  (at level 10, x name, m at level 100, k at level 200,
   format "'[v' 'let*'  x  ':='  m  'in' '/' k ']'") : py_scope.
Local Open Scope py_scope.

Definition of_option {A} (o : option A) : M A :=
  fun h => match o with Some a => (Ok a, h) | None => (Stuck, h) end.

(** Reading and writing objects. *)
Definition load_proc (a : addr) : M Process := fun h => of_option (procs h !! a) h.
Definition load_expr (e : addr) : M (list addr) := fun h => of_option (exprs h !! e) h.
Definition load_reg (r : addr) : M Processes := fun h => of_option (regs h !! r) h.

Definition alloc_proc (p : Process) : M addr :=
  fun h => (Ok (length (procs h)), set_procs (fun ps => ps ++ [p]) h).
Definition alloc_expr (l : list addr) : M addr :=
  fun h => (Ok (length (exprs h)), set_exprs (fun es => es ++ [l]) h).
Definition alloc_reg (r : Processes) : M addr :=
  fun h => (Ok (length (regs h)), set_regs (fun rs => rs ++ [r]) h).

Definition store_multiplier (a : addr) (m : Z) : M unit :=
  let* p := load_proc a in
  fun h => (Ok tt, set_procs (fun ps => <[a := mkProcess (_parent p) (index p) m]> ps) h).
Definition store_expr (e : addr) (l : list addr) : M unit :=
  let* _ := load_expr e in
  fun h => (Ok tt, set_exprs (fun es => <[e := l]> es) h).
Definition store_reg (r : addr) (rg : Processes) : M unit :=
  let* _ := load_reg r in
  fun h => (Ok tt, set_regs (fun rs => <[r := rg]> rs) h).

(** [for x in l: body x]. *)
Fixpoint for_each {A} (l : list A) (body : A -> M unit) : M unit :=
  match l with
  | [] => ret tt
  | x :: l' => let* _ := body x in for_each l' body
  end.

(** [[f x for x in l]]. *)
Fixpoint list_comp {A B} (l : list A) (f : A -> M B) : M (list B) :=
  match l with
  | [] => ret []
  | x :: l' => let* y := f x in let* ys := list_comp l' f in ret (y :: ys)
  end.


(** The index a Python list of length [n] reads for [i], if any. *)
Definition py_position (n : nat) (i : Z) : option nat :=
  let j := if i <? 0 then i + Z.of_nat n else i in
  if (0 <=? j) && (j <? Z.of_nat n) then Some (Z.to_nat j) else None.

(** Python list indexing [l[i]]: a negative [i] counts from the end. *)
Definition py_getitem {A} (l : list A) (i : Z) : M A :=
  match py_position (length l) i with
  | Some j => of_option (l !! j)
  | None => raise (IndexError "list index out of range")
  end.

(** [max(l)] of a list of integers. *)
Definition py_max (l : list Z) : M Z :=
  match l with
  | [] => raise (ValueError "max() arg is an empty sequence")
  | x :: l' => ret (fold_left Z.max l' x)
  end.

(** [range(n)]. *)
Definition py_range (n : Z) : list Z := map Z.of_nat (seq 0 (Z.to_nat n)).





(** ** Process (first part: what does not need [ProcessExpr.__add__]) *)

(** An operand of [+], [-], [*]: [Union[ProcessExpr, Process]]. *)
Inductive value :=
| VProcess (a : addr)
| VExpr (e : addr).

(** [Process.__init__]: the multiplier starts at the [int] [1]. *)
Definition Process_init (index : Z) (parent : addr) : M addr :=
  alloc_proc (mkProcess parent index 1).

(** [ProcessExpr.__init__]. *)
Definition ProcessExpr_init (_processes : list addr) : M addr :=
  alloc_expr _processes.

(** [copy(p)]: a new object with the same attributes. *)
Definition copy (a : addr) : M addr :=
  let* p := load_proc a in
  alloc_proc p.

(** [Process.__eq__] between two [Process] objects; [Processes] defines no
    [__eq__], so the parents are compared by identity. *)
Definition Process_eq (self other : addr) : M bool :=
  let* p := load_proc self in
  let* q := load_proc other in
  ret ((index p =? index q) && (_parent p =? _parent q)%nat).

(** [Process.name]. *)
Definition Process_name (self : addr) : M string :=
  let* p := load_proc self in
  let* rg := load_reg (_parent p) in
  let* d := py_getitem (_processes rg) (index p) in
  ret (fst d).

(** [Process.array] (the value of the array it refers to). *)
Definition Process_array (self : addr) : M ndarray :=
  let* p := load_proc self in
  let* rg := load_reg (_parent p) in
  let* d := py_getitem (_processes rg) (index p) in
  ret (snd d).

(** [Process.__mul__]. *)
Definition Process_mul (self : addr) (other : Z) : M addr :=
  let* new_proc := copy self in
  let* p := load_proc new_proc in
  let* _ := store_multiplier new_proc (multiplier p * other) in
  ProcessExpr_init [new_proc].


(** [Process.__neg__]. *)
Definition Process_neg (self : addr) : M addr :=
  Process_mul self (-1).


(** ** ProcessExpr *)

(** [process in l] and [l.index(process)] scan [l] alike for the first
    element equal to [process] (by [Process.__eq__]; an identical object is
    equal); [None] when there is none. *)
Fixpoint list_index (l : list addr) (process : addr) (i : nat) : M (option nat) :=
  match l with
  | [] => ret None
  | a :: l' =>
      let* b := Process_eq a process in
      if b then ret (Some i) else list_index l' process (S i)
  end.

(** The body both branches of [ProcessExpr.__add__] run on a term:
    append it to [self._processes] when no equal term is there, otherwise
    add its multiplier to the equal term's. *)
Definition add_term (self : addr) (process : addr) : M unit :=
  let* l := load_expr self in
  let* found := list_index l process 0 in
  match found with
  | None => store_expr self (l ++ [process])
  | Some i =>
      let* current_process := of_option (l !! i) in
      let* c := load_proc current_process in
      let* p := load_proc process in
      store_multiplier current_process (multiplier c + multiplier p)
  end.

(** [l[0]._parent]. *)
Definition first_parent (l : list addr) : M addr :=
  let* a := py_getitem l 0 in
  let* p := load_proc a in
  ret (_parent p).

(** [[process for process in l if process.multiplier != 0]]. *)
Fixpoint nonzero_terms (l : list addr) : M (list addr) :=
  match l with
  | [] => ret []
  | a :: l' =>
      let* p := load_proc a in
      let* r := nonzero_terms l' in
      ret (if multiplier p =? 0 then r else a :: r)
  end.

(** [ProcessExpr.__add__].  The loop runs over [other._processes] as it is
    when the loop starts: the body appends to [self._processes] only a term
    that is not in it, so when [self] is [other] nothing is appended. *)
Definition ProcessExpr_add (self : addr) (other : value) : M addr :=
  let* _ :=
    match other with
    | VExpr other =>
        let* lo := load_expr other in
        let* expr_parent := first_parent lo in
        let* ls := load_expr self in
        let* self_parent := first_parent ls in
        if negb (self_parent =? expr_parent)%nat then
          raise (ValueError "Combining two exprs from different processes classes")
        else
          for_each lo (add_term self)
    | VProcess other =>
        let* q := load_proc other in
        let process_parent := _parent q in
        let* ls := load_expr self in
        let* self_parent := first_parent ls in
        if negb (self_parent =? process_parent)%nat then
          raise (ValueError "Combining process and expr from different processes classes")
        else
          let* other_new := copy other in
          add_term self other_new
    end in
  let* ls := load_expr self in
  let* kept := nonzero_terms ls in
  ProcessExpr_init kept.

(** [ProcessExpr.__mul__]. *)
Definition ProcessExpr_mul (self : addr) (other : Z) : M addr :=
  if other =? 1 then ret self
  else
    let* l := load_expr self in
    let* _ := for_each l (fun element =>
                let* p := load_proc element in
                store_multiplier element (multiplier p * other)) in
    ret self.


(** [ProcessExpr.__neg__]. *)
Definition ProcessExpr_neg (self : addr) : M addr :=
  let* l := load_expr self in
  let* _ := for_each l (fun element =>
              let* p := load_proc element in
              store_multiplier element (- multiplier p)) in
  ret self.

(** The operators [-x] and [x * k] on an operand of either class. *)
Definition py_neg (x : value) : M addr :=
  match x with
  | VProcess a => Process_neg a
  | VExpr e => ProcessExpr_neg e
  end.

Definition py_mul (x : value) (k : Z) : M addr :=
  match x with
  | VProcess a => Process_mul a k
  | VExpr e => ProcessExpr_mul e k
  end.

(** [ProcessExpr.__sub__]. *)
Definition ProcessExpr_sub (self : addr) (other : value) : M addr :=
  let* n := py_neg other in
  ProcessExpr_add self (VExpr n).


(** [ProcessExpr.__getitem__], [ProcessExpr.__len__]. *)
Definition ProcessExpr_getitem (self : addr) (arg : Z) : M addr :=
  let* l := load_expr self in
  py_getitem l arg.

Definition ProcessExpr_len (self : addr) : M Z :=
  let* l := load_expr self in
  ret (Z.of_nat (length l)).

(** ** Process (second part) *)

(** [Process.__add__]. *)
Definition Process_add (self : addr) (other : value) : M addr :=
  let* a := Process_mul self 1 in
  let* b := py_mul other 1 in
  ProcessExpr_add a (VExpr b).

(** [Process.__sub__]. *)
Definition Process_sub (self : addr) (other : value) : M addr :=
  let* a := Process_mul self 1 in
  let* b := py_neg other in
  ProcessExpr_add a (VExpr b).

(** The operators [x + y] and [x - y]. *)
Definition py_add (x y : value) : M addr :=
  match x with
  | VProcess a => Process_add a y
  | VExpr e => ProcessExpr_add e y
  end.

Definition py_sub (x y : value) : M addr :=
  match x with
  | VProcess a => Process_sub a y
  | VExpr e => ProcessExpr_sub e y
  end.

(** ** Resource *)

(** Modelled from the spec: [Resource] comes from the sibling module
    [resources], which is not part of the sources; the spec gives it one
    attribute, a zero-based integer position [index]. *)
Module Resource.
Record t := mk { index : nat }.
End Resource.

(** ** numpy *)

(** A quantity: a Python [int] or a Python [float]. *)
Inductive number :=
| PInt (z : Z)
| PFloat (f : float).

(** [float(z)] of an [int]: the nearest binary64 number, ties to even;
    infinite when [z] is beyond the range of binary64. *)
Definition float_of_int (z : Z) : float :=
  SF2Prim (binary_normalize prec emax z 0 false).

(** The conversion of a number written into a float64 array: a [float] is
    stored as it is, an [int] is converted, and an [int] beyond the range of
    binary64 is refused. *)
Definition np_float64 (v : number) : M float :=
  match v with
  | PFloat f => ret f
  | PInt z =>
      if is_infinity (float_of_int z)
      then raise (OverflowError "int too large to convert to float")
      else ret (float_of_int z)
  end.

(** [np.zeros(n)]. *)
Definition np_zeros (n : nat) : ndarray := replicate n 0%float.

(** [a.resize(n, refcheck=False)] on a vector: the first [n] entries,
    padded with zeros. *)
Definition np_resize (a : ndarray) (n : nat) : ndarray :=
  take n a ++ replicate (n - length a) 0%float.

(** [np.array(rows)] of a list of vectors: a two-dimensional array when they
    have one length. *)
Definition np_array (rows : list ndarray) : M ndarray2 :=
  match rows with
  | [] => ret []
  | r :: _ =>
      if forallb (fun r' => (length r' =? length r)%nat) rows then ret rows
      else raise (ValueError "setting an array element with a sequence. The requested array has an inhomogeneous shape")
  end.

(** [np.transpose(m)]. *)
Definition np_transpose (m : ndarray2) : ndarray2 :=
  match m with
  | [] => []
  | r :: _ => map (fun i => map (fun row => nth i row 0%float) m) (seq 0 (length r))
  end.

(** ** Processes *)

(** The argument of [Processes.__getitem__]: [Union[int, str]]. *)
Inductive key :=
| KInt (i : Z)
| KStr (s : string).

(** [Processes.__init__]. *)
Definition Processes_init : M addr :=
  alloc_reg (mkProcesses [] None).

(** [Processes.__len__]. *)
Definition Processes_len (self : addr) : M Z :=
  let* rg := load_reg self in
  ret (Z.of_nat (length (_processes rg))).

(** [[i for i, (name, _) in enumerate(l) if name == arg]]. *)
Fixpoint name_matches (l : list (string * ndarray)) (arg : string) (i : Z) : list Z :=
  match l with
  | [] => []
  | (name, _) :: l' =>
      if String.eqb name arg then i :: name_matches l' arg (i + 1)
      else name_matches l' arg (i + 1)
  end.

(** [Processes.__getitem__]. *)
Definition Processes_getitem (self : addr) (arg : key) : M addr :=
  match arg with
  | KInt arg =>
      let* rg := load_reg self in
      if arg <? Z.of_nat (length (_processes rg)) then
        Process_init arg self
      else
        raise (IndexError "list index out of range")
  | KStr arg =>
      let* rg := load_reg self in
      let results := name_matches (_processes rg) arg 0 in
      if (length results =? 0)%nat then
        raise (KeyError ("'" ++ arg ++ "'"))
      else if (1 <? length results)%nat then
        raise (KeyError ("Name " ++ arg ++ " non unique: please use index"))
      else
        let* r0 := py_getitem results 0 in
        Process_init r0 self
  end.

(** [resource.index] of a pair [(resource, _)]. *)
Definition resource_index (item : Resource.t * number) : Z :=
  Z.of_nat (Resource.index (fst item)).

(** [for (resource, v) in resources: array[resource.index] = v]: each
    quantity is converted to float64 as it is written. *)
Fixpoint write_all (resources : list (Resource.t * number)) (array : ndarray)
  : M ndarray :=
  match resources with
  | [] => ret array
  | (resource, v) :: rest =>
      let* x := np_float64 v in
      write_all rest (<[Resource.index resource := x]> array)
  end.

(** [Processes.create]. *)
Definition Processes_create (self : addr) (name : string)
    (resources : list (Resource.t * number)) : M addr :=
  if (length resources =? 0)%nat then
    raise (ValueError ("No resources attached to " ++ name))
  else
    let* mx := py_max (map resource_index resources) in
    let res_max_index := mx + 1 in
    let array := np_zeros (Z.to_nat res_max_index) in
    let* array := write_all resources array in
    let process_inner := (name, array) in
    let* rg := load_reg self in
    let* _ := store_reg self (mkProcesses (_processes rg ++ [process_inner])
                                          (_process_produces rg)) in
    let* n := Processes_len self in
    Processes_getitem self (KInt (n - 1)).

(** [Processes.__contains__] for a [Process] operand. *)
Definition Processes_contains (self : addr) (other : addr) : M bool :=
  let* p := load_proc other in
  let process_index := index p in
  let* n := Processes_len self in
  if (0 <=? process_index) && (process_index <? n) && (_parent p =? self)%nat
  then ret true else ret false.

(** [for process in self: body process], with [Processes.__iter__]:
    [map(self.__getitem__, range(len(self)))]. *)
Definition for_in_self (self : addr) (body : addr -> M unit) : M unit :=
  let* n := Processes_len self in
  for_each (py_range n) (fun i =>
    let* process := Processes_getitem self (KInt i) in
    body process).

(** [[f process for process in self]]. *)
Definition comp_in_self {B} (self : addr) (f : addr -> M B) : M (list B) :=
  let* n := Processes_len self in
  list_comp (py_range n) (fun i =>
    let* process := Processes_getitem self (KInt i) in
    f process).

(** [process.array.resize(n, refcheck=False)]: the array the registry
    stores at the handle's position is resized in place. *)
Definition Process_array_resize (self : addr) (n : Z) : M unit :=
  let* p := load_proc self in
  let* rg := load_reg (_parent p) in
  let* d := py_getitem (_processes rg) (index p) in
  match py_position (length (_processes rg)) (index p) with
  | Some j =>
      store_reg (_parent p)
        (mkProcesses (<[j := (fst d, np_resize (snd d) (Z.to_nat n))]> (_processes rg))
                     (_process_produces rg))
  | None => raise (IndexError "list index out of range")
  end.

(** [Processes.process_produces].  After the [if] the attribute holds an
    array, which the last line returns. *)
Definition Processes_process_produces (self : addr) : M ndarray2 :=
  let* rg := load_reg self in
  let* _ :=
    match _process_produces rg with
    | None =>
        let* lens := comp_in_self self (fun process =>
                       let* a := Process_array process in
                       ret (Z.of_nat (length a))) in
        let* max_resource_size := py_max lens in
        let* _ := for_in_self self (fun process =>
                    Process_array_resize process max_resource_size) in
        let* arrays := comp_in_self self Process_array in
        let* m := np_array arrays in
        let* rg := load_reg self in
        store_reg self (mkProcesses (_processes rg) (Some (np_transpose m)))
    | Some _ => ret tt
    end in
  let* rg := load_reg self in
  of_option (_process_produces rg).

(** ** Specification vocabulary *)

(** The attributes two handles are compared on by [Process.__eq__]. *)
Definition position (p : Process) : addr * Z := (_parent p, index p).

(** The handle object at an address, and its position. *)
Definition handle_at (h : Heap) (a : addr) (p : Process) : Prop := procs h !! a = Some p.

Definition position_at (h : Heap) (a : addr) : option (addr * Z) :=
  position <$> procs h !! a.

Definition multiplier_at (h : Heap) (a : addr) : option Z :=
  multiplier <$> procs h !! a.

(** The positions at which a registry's definitions carry [name]. *)
Definition positions_named (rg : Processes) (name : string) : list Z :=
  name_matches (_processes rg) name 0.

(** The float64 value of a quantity, and whether float64 can hold the
    quantity: every [float], and every [int] that does not convert to an
    infinity. *)
Definition float64_of (v : number) : float :=
  match v with
  | PFloat f => f
  | PInt z => float_of_int z
  end.

Definition fits_float64 (v : number) : bool :=
  match v with
  | PFloat _ => true
  | PInt z => negb (is_infinity (float_of_int z))
  end.

Definition all_fit (resources : list (Resource.t * number)) : Prop :=
  Forall (fun item => fits_float64 (snd item) = true) resources.

(** The quantity the last pair of [resources] at resource index [i]
    supplies, if a pair has that index. *)
Fixpoint last_supplied (resources : list (Resource.t * number)) (i : nat) : option number :=
  match resources with
  | [] => None
  | (r, v) :: rest =>
      match last_supplied rest i with
      | Some w => Some w
      | None => if (Resource.index r =? i)%nat then Some v else None
      end
  end.




(** A store for the running example: the handles [+1 x Steel] and
    [-1 x Coal] and the expression made of them. *)
Definition heap_steel_minus_coal : Heap :=
  mkHeap [mkProcess 0%nat 0 1; mkProcess 0%nat 1 (-1)] [[0%nat; 1%nat]]
         [mkProcesses [("Steel", [2]); ("Coal", [0; 3])]%float None].

(** The float64 values of the quantities written, in order, into a
    vector. *)
Definition written (resources : list (Resource.t * number)) (array : ndarray) : ndarray :=
  fold_left (fun array '(resource, v) => <[Resource.index resource := float64_of v]> array)
            resources array.

(** The vector [create] builds from a list of pairs that float64 can hold:
    the writes, in order, into zeros up to the largest resource index. *)
Definition created_array (resources : list (Resource.t * number)) : ndarray :=
  match resources with
  | [] => []
  | item :: rest =>
      written resources
        (np_zeros (Z.to_nat (fold_left Z.max (map resource_index rest) (resource_index item) + 1)))
  end.

(** ** Running examples *)

(** The heap of the running example: one registry with "Steel" and "Coal". *)
Definition steel_coal : Processes :=
  mkProcesses [("Steel", [2]); ("Coal", [0; 3])]%float None.

Definition heap_steel_coal : Heap := mkHeap [] [] [steel_coal].

(** A registry in which "Coal" was defined twice. *)
Definition steel_coal_coal : Processes :=
  mkProcesses [("Steel", [2]); ("Coal", [0; 3]); ("Coal", [0; 3])]%float None.

Definition heap_steel_coal_coal : Heap := mkHeap [] [] [steel_coal_coal].

(** ** Specification vocabulary for expressions *)

Definition pos_eqb (k1 k2 : addr * Z) : bool :=
  (fst k1 =? fst k2)%nat && (snd k1 =? snd k2).

(** The position of the handle at an address of a table of handles. *)
Definition pos_at (ps : list Process) (a : addr) : option (addr * Z) :=
  position <$> ps !! a.

(** What a term contributes to the coefficient of position [k], and the
    coefficient of [k] in a list of terms: the sum of the multipliers of
    the terms at that position. *)
Definition term_coef (ps : list Process) (k : addr * Z) (a : addr) : Z :=
  match ps !! a with
  | Some p => if pos_eqb (position p) k then multiplier p else 0
  | None => 0
  end.

Definition coef (ps : list Process) (l : list addr) (k : addr * Z) : Z :=
  fold_right (fun a acc => term_coef ps k a + acc) 0 l.

(** A well-formed list of terms: every term is a handle of the table and no
    two terms are at one position. *)
Definition well_formed (ps : list Process) (l : list addr) : Prop :=
  Forall (fun a => is_Some (ps !! a)) l /\ NoDup (map (pos_at ps) l).

(** The terms of an operand: a handle is one term. *)
Definition terms_of (h : Heap) (x : value) : option (list addr) :=
  match x with
  | VProcess a => Some [a]
  | VExpr e => exprs h !! e
  end.

(** The registry an operand traces back to, read as the code reads it: a
    handle's parent, the parent of an expression's first term. *)
Definition owner (h : Heap) (x : value) : option addr :=
  match terms_of h x with
  | Some (a :: _) => _parent <$> procs h !! a
  | _ => None
  end.

(** [Process.__eq__] and the scan of [list_index] as functions of the table
    of handles. *)
Definition same_position (ps : list Process) (a b : addr) : bool :=
  match ps !! a, ps !! b with
  | Some p, Some q => (index p =? index q) && (_parent p =? _parent q)%nat
  | _, _ => false
  end.

Fixpoint index_of (ps : list Process) (l : list addr) (b : addr) : option nat :=
  match l with
  | [] => None
  | a :: l' => if same_position ps a b then Some 0%nat else S <$> index_of ps l' b
  end.

(** The effect of [add_term] on the table of handles and on the list of
    [self]. *)
Definition merge_step (st : list Process * list addr) (b : addr)
  : list Process * list addr :=
  let '(ps, L) := st in
  match index_of ps L b with
  | None => (ps, L ++ [b])
  | Some i =>
      match L !! i with
      | Some c =>
          match ps !! c, ps !! b with
          | Some pc, Some pb =>
              (<[c := mkProcess (_parent pc) (index pc) (multiplier pc + multiplier pb)]> ps, L)
          | _, _ => st
          end
      | None => st
      end
  end.

Definition nonzero (ps : list Process) (a : addr) : bool :=
  match ps !! a with
  | Some p => negb (multiplier p =? 0)
  | None => false
  end.

(** [h'] has every object of [h], unchanged, and maybe new ones. *)
Definition extends (h h' : Heap) : Prop :=
  (exists ps, procs h' = procs h ++ ps)
  /\ (exists es, exprs h' = exprs h ++ es)
  /\ regs h' = regs h.

(** An address at which the store has a handle. *)
Definition valid (h : Heap) (a : addr) : Prop := is_Some (procs h !! a).

(** A definition with its vector padded with trailing zeros to [mx]. *)
Definition padded (mx : nat) (d : string * ndarray) : string * ndarray :=
  (fst d, snd d ++ replicate (mx - length (snd d)) 0%float).

(** The resize of the vector of a definition. *)
Definition resized (n : nat) (d : string * ndarray) : string * ndarray :=
  (fst d, np_resize (snd d) n).

(** Handles of two registries. *)
Definition heap_two_registries : Heap :=
  mkHeap [mkProcess 0%nat 0 1; mkProcess 1%nat 0 1] [] [steel_coal; steel_coal].

(** The expressions [2 x Steel] and [3 x Coal], each with a term of its
    own. *)
Definition heap_two_exprs : Heap :=
  mkHeap [mkProcess 0%nat 0 2; mkProcess 0%nat 1 3] [[0%nat]; [1%nat]] [steel_coal].

(** A handle and an expression without terms. *)
Definition heap_empty_expr : Heap :=
  mkHeap [mkProcess 0%nat 0 1] [[]] [steel_coal].

(** ** The remaining methods *)

(** [Processes.load]: [list(starmap(self.create, ...))], one [create] per
    entry, in order. *)
Definition Processes_load (self : addr)
    (processes : list (string * list (Resource.t * number))) : M (list addr) :=
  list_comp processes (fun '(process_name, resources) =>
    Processes_create self process_name resources).

(** [Processes.dump] (the value of the list it returns a reference to). *)
Definition Processes_dump (self : addr) : M (list (string * ndarray)) :=
  let* rg := load_reg self in
  ret (_processes rg).

(** [list(self)] with [Processes.__iter__]. *)
Definition Processes_iter (self : addr) : M (list addr) :=
  comp_in_self self (fun process => ret process).

(** [list(self)] with [ProcessExpr.__iter__]:
    [map(self.__getitem__, range(len(self)))]. *)
Definition ProcessExpr_iter (self : addr) : M (list addr) :=
  let* n := ProcessExpr_len self in
  list_comp (py_range n) (ProcessExpr_getitem self).

(** An entry [load] can define: it has pairs, of quantities float64 can
    hold. *)
Definition loadable (entry : string * list (Resource.t * number)) : Prop :=
  snd entry <> [] /\ all_fit (snd entry).

(** The definitions [load] makes of a batch of entries. *)
Definition batch_defs (batch : list (string * list (Resource.t * number)))
  : list (string * ndarray) :=
  map (fun entry => (fst entry, created_array (snd entry))) batch.


(** ** Specification vocabulary for renderings *)













(** * Reasoning about computations *)

Lemma bind_ok {A B} (m : M A) (k : A -> M B) h a h' :
  m h = (Ok a, h') -> bind m k h = k a h'.
Proof. intros E. unfold bind. now rewrite E. Qed.

Lemma bind_raise {A B} (m : M A) (k : A -> M B) h e h' :
  m h = (Raise e, h') -> bind m k h = (Raise e, h').
Proof. intros E. unfold bind. now rewrite E. Qed.

Lemma load_proc_ok h a p : procs h !! a = Some p -> load_proc a h = (Ok p, h).
Proof. intros E. unfold load_proc. now rewrite E. Qed.

Lemma load_expr_ok h e l : exprs h !! e = Some l -> load_expr e h = (Ok l, h).
Proof. intros E. unfold load_expr. now rewrite E. Qed.

Lemma load_reg_ok h r rg : regs h !! r = Some rg -> load_reg r h = (Ok rg, h).
Proof. intros E. unfold load_reg. now rewrite E. Qed.

Lemma store_multiplier_ok h a p m :
  procs h !! a = Some p ->
  store_multiplier a m h =
    (Ok tt, set_procs (fun ps => <[a := mkProcess (_parent p) (index p) m]> ps) h).
Proof. intros E. unfold store_multiplier. now rewrite (bind_ok _ _ _ _ _ (load_proc_ok _ _ _ E)). Qed.

Lemma store_expr_ok h e l l' :
  exprs h !! e = Some l ->
  store_expr e l' h = (Ok tt, set_exprs (fun es => <[e := l']> es) h).
Proof. intros E. unfold store_expr. now rewrite (bind_ok _ _ _ _ _ (load_expr_ok _ _ _ E)). Qed.

Lemma store_reg_ok h r rg rg' :
  regs h !! r = Some rg ->
  store_reg r rg' h = (Ok tt, set_regs (fun rs => <[r := rg']> rs) h).
Proof. intros E. unfold store_reg. now rewrite (bind_ok _ _ _ _ _ (load_reg_ok _ _ _ E)). Qed.

(** * The registry: lookups *)

(** What [Processes.__getitem__] does on an integer: the only test is
    [arg < len]. *)
Lemma Processes_getitem_int h r rg i :
  regs h !! r = Some rg ->
  Processes_getitem r (KInt i) h =
    if i <? Z.of_nat (length (_processes rg))
    then (Ok (length (procs h)), set_procs (fun ps => ps ++ [mkProcess r i 1]) h)
    else (Raise (IndexError "list index out of range"), h).
Proof.
  intros E. unfold Processes_getitem.
  rewrite (bind_ok _ _ _ _ _ (load_reg_ok _ _ _ E)).
  destruct (i <? _); reflexivity.
Qed.

(** Within [[0, count)] the lookup returns a handle at that position, at
    or beyond [count] it raises [IndexError]. *)
Lemma Processes_getitem_in_range h r rg i :
  regs h !! r = Some rg ->
  0 <= i ->
  (i < Z.of_nat (length (_processes rg)) ->
     exists a h', Processes_getitem r (KInt i) h = (Ok a, h')
       /\ handle_at h' a (mkProcess r i 1) /\ regs h' = regs h) /\
  (Z.of_nat (length (_processes rg)) <= i ->
     Processes_getitem r (KInt i) h = (Raise (IndexError "list index out of range"), h)).
Proof.
  intros E Hi. rewrite (Processes_getitem_int _ _ _ _ E). split; intros Hlt.
  - apply Z.ltb_lt in Hlt. rewrite Hlt. eexists _, _. split; [reflexivity|]. split; [|reflexivity].
    unfold handle_at. simpl. apply list_lookup_middle. reflexivity.
  - apply Z.ltb_ge in Hlt. now rewrite Hlt.
Qed.

(** C4 (the code departs from the claim): a negative position is outside
    [[0, count)], yet positional lookup raises nothing on it.  It returns a
    handle that carries the negative index, a handle that
    [Processes.__contains__] does not count as a member of the registry. *)
Theorem Processes_getitem_negative h r rg i :
  regs h !! r = Some rg ->
  i < 0 ->
  exists a h',
    Processes_getitem r (KInt i) h = (Ok a, h')
    /\ handle_at h' a (mkProcess r i 1)
    /\ Processes_contains r a h' = (Ok false, h').
Proof.
  intros E Hi. rewrite (Processes_getitem_int _ _ _ _ E).
  assert (Hlt : (i <? Z.of_nat (length (_processes rg))) = true) by (apply Z.ltb_lt; lia).
  rewrite Hlt. eexists _, _. split; [reflexivity|].
  assert (Hat : handle_at (set_procs (fun ps => ps ++ [mkProcess r i 1]) h)
                  (length (procs h)) (mkProcess r i 1)).
  { unfold handle_at. simpl. apply list_lookup_middle. reflexivity. }
  split; [exact Hat|].
  unfold Processes_contains.
  rewrite (bind_ok _ _ _ _ _ (load_proc_ok _ _ _ Hat)).
  unfold Processes_len.
  assert (E' : regs (set_procs (fun ps => ps ++ [mkProcess r i 1]) h) !! r = Some rg) by exact E.
  rewrite (bind_ok _ _ _ _ _ (bind_ok _ _ _ _ _ (load_reg_ok _ _ _ E'))).
  simpl. assert (Hneg : (0 <=? i) = false) by (apply Z.leb_gt; lia).
  now rewrite Hneg.
Qed.

Lemma Processes_getitem_negative_witness :
  exists a h',
    Processes_getitem 0%nat (KInt (-1)) heap_steel_coal = (Ok a, h')
    /\ handle_at h' a (mkProcess 0%nat (-1) 1)
    /\ Processes_contains 0%nat a h' = (Ok false, h').
Proof.
  apply (Processes_getitem_negative heap_steel_coal 0%nat steel_coal (-1)).
  - reflexivity.
  - lia.
Defined.

(** [name_matches] lists, in increasing order, exactly the positions whose
    definition carries the name. *)
Lemma name_matches_spec l arg k i :
  In i (name_matches l arg k) <->
  exists j v, i = k + Z.of_nat j /\ l !! j = Some (arg, v).
Proof.
  revert k. induction l as [|[name v] l IH]; intros k; simpl.
  - split; [tauto|]. intros (j & v & _ & E). destruct j; discriminate.
  - destruct (String.eqb_spec name arg) as [->|Hne]; simpl; rewrite IH.
    + split.
      * intros [<-|(j & w & -> & E)].
        -- exists 0%nat, v. split; [lia|reflexivity].
        -- exists (S j), w. split; [lia|exact E].
      * intros (j & w & -> & E). destruct j as [|j]; simpl in E.
        -- left. lia.
        -- right. exists j, w. split; [lia|exact E].
    + split.
      * intros (j & w & -> & E). exists (S j), w. split; [lia|exact E].
      * intros (j & w & -> & E). destruct j as [|j]; simpl in E.
        -- inversion E. congruence.
        -- exists j, w. split; [lia|exact E].
Qed.

Lemma positions_named_spec rg name i :
  In i (positions_named rg name) <->
  0 <= i /\ exists v, _processes rg !! Z.to_nat i = Some (name, v).
Proof.
  unfold positions_named. rewrite name_matches_spec. split.
  - intros (j & v & -> & E). split; [lia|]. exists v. now rewrite Z.add_0_l, Nat2Z.id.
  - intros (Hi & v & E). exists (Z.to_nat i), v. split; [lia|exact E].
Qed.

(** What [Processes.__getitem__] does on a name. *)
Lemma Processes_getitem_str h r rg name :
  regs h !! r = Some rg ->
  Processes_getitem r (KStr name) h =
    match positions_named rg name with
    | [] => (Raise (KeyError ("'" ++ name ++ "'")), h)
    | [i] => (Ok (length (procs h)), set_procs (fun ps => ps ++ [mkProcess r i 1]) h)
    | _ => (Raise (KeyError ("Name " ++ name ++ " non unique: please use index")), h)
    end.
Proof.
  intros E. unfold Processes_getitem, positions_named.
  rewrite (bind_ok _ _ _ _ _ (load_reg_ok _ _ _ E)).
  destruct (name_matches _ _ _) as [|i [|j l]]; reflexivity.
Qed.

(** No position is listed twice: the positions listed are beyond the
    starting one, in increasing order. *)
Lemma name_matches_NoDup l arg k : NoDup (name_matches l arg k).
Proof.
  revert k. induction l as [|[name v] l IH]; intros k; simpl; [constructor|].
  destruct (String.eqb name arg); [|apply IH].
  apply NoDup_cons. split; [|apply IH].
  intros Hin. apply list_elem_of_In, name_matches_spec in Hin as (j & w & Hj & _). lia.
Qed.

(** The three cases of the scan, read off the definitions themselves: the
    name is carried by one definition, by none, by more than one. *)
Lemma positions_named_one rg name i v :
  _processes rg !! i = Some (name, v) ->
  (forall j w, _processes rg !! j = Some (name, w) -> j = i) ->
  positions_named rg name = [Z.of_nat i].
Proof.
  intros Hi Huniq.
  assert (Hin : In (Z.of_nat i) (positions_named rg name)).
  { apply positions_named_spec. split; [lia|]. exists v. now rewrite Nat2Z.id. }
  assert (Hall : forall x, In x (positions_named rg name) -> x = Z.of_nat i).
  { intros x Hx. apply positions_named_spec in Hx as (Hx0 & w & Hw).
    apply Huniq in Hw. lia. }
  pose proof (name_matches_NoDup (_processes rg) name 0) as Hnd.
  fold (positions_named rg name) in Hnd.
  destruct (positions_named rg name) as [|x [|y l]].
  - destruct Hin.
  - f_equal. apply Hall. now left.
  - exfalso. apply NoDup_cons in Hnd as [Hx _]. apply Hx.
    rewrite (Hall x) by now left. rewrite (Hall y) by (right; now left). now left.
Qed.

Lemma positions_named_none rg name :
  (forall j w, _processes rg !! j <> Some (name, w)) ->
  positions_named rg name = [].
Proof.
  intros Hnone. destruct (positions_named rg name) as [|x l] eqn:E; [reflexivity|].
  exfalso. assert (Hin : In x (positions_named rg name)) by (rewrite E; now left).
  apply positions_named_spec in Hin as (_ & w & Hw). exact (Hnone _ _ Hw).
Qed.

Lemma positions_named_several rg name i j v w :
  i <> j ->
  _processes rg !! i = Some (name, v) ->
  _processes rg !! j = Some (name, w) ->
  (1 < length (positions_named rg name))%nat.
Proof.
  intros Hij Hi Hj.
  assert (Ini : In (Z.of_nat i) (positions_named rg name)).
  { apply positions_named_spec. split; [lia|]. exists v. now rewrite Nat2Z.id. }
  assert (Inj : In (Z.of_nat j) (positions_named rg name)).
  { apply positions_named_spec. split; [lia|]. exists w. now rewrite Nat2Z.id. }
  destruct (positions_named rg name) as [|x [|y l]]; simpl in *; [tauto| |lia].
  destruct Ini as [Ei|[]], Inj as [Ej|[]]. lia.
Qed.

(** C5, as amended: lookup by name returns a fresh handle at the position
    of the one definition that carries the name when exactly one does, and
    leaves the registry as it was; it raises [KeyError] when no definition
    carries the name and [KeyError] again, the same class of error with
    another message, when two definitions at different positions do. *)
Theorem Processes_getitem_by_name h r rg name :
  regs h !! r = Some rg ->
  (forall i v,
     _processes rg !! i = Some (name, v) ->
     (forall j w, _processes rg !! j = Some (name, w) -> j = i) ->
     exists a h', Processes_getitem r (KStr name) h = (Ok a, h')
       /\ procs h !! a = None
       /\ handle_at h' a (mkProcess r (Z.of_nat i) 1)
       /\ regs h' = regs h) /\
  ((forall j w, _processes rg !! j <> Some (name, w)) ->
     Processes_getitem r (KStr name) h = (Raise (KeyError ("'" ++ name ++ "'")), h)) /\
  (forall i j v w,
     i <> j ->
     _processes rg !! i = Some (name, v) ->
     _processes rg !! j = Some (name, w) ->
     Processes_getitem r (KStr name) h =
       (Raise (KeyError ("Name " ++ name ++ " non unique: please use index")), h)) /\
  class_of (KeyError ("'" ++ name ++ "'")) =
    class_of (KeyError ("Name " ++ name ++ " non unique: please use index")) /\
  KeyError ("'" ++ name ++ "'") <>
    KeyError ("Name " ++ name ++ " non unique: please use index").
Proof.
  intros E. rewrite (Processes_getitem_str _ _ _ _ E).
  split; [|split; [|split; [|split]]].
  - intros i v Hi Huniq. rewrite (positions_named_one rg name i v Hi Huniq).
    eexists _, _. split; [reflexivity|].
    split; [apply lookup_ge_None_2; lia|]. split; [|reflexivity].
    unfold handle_at. simpl. apply list_lookup_middle. reflexivity.
  - intros Hnone. now rewrite (positions_named_none rg name Hnone).
  - intros i j v w Hij Hi Hj.
    pose proof (positions_named_several rg name i j v w Hij Hi Hj) as Hlen.
    destruct (positions_named rg name) as [|x [|y l]]; simpl in Hlen; try lia.
    reflexivity.
  - reflexivity.
  - simpl. intros H. inversion H.
Qed.

Lemma Processes_getitem_by_name_witness :
  (exists a h', Processes_getitem 0%nat (KStr "Steel") heap_steel_coal_coal = (Ok a, h')
     /\ handle_at h' a (mkProcess 0%nat 0 1)
     /\ regs h' = regs heap_steel_coal_coal) /\
  Processes_getitem 0%nat (KStr "Iron") heap_steel_coal_coal =
    (Raise (KeyError "'Iron'"), heap_steel_coal_coal) /\
  Processes_getitem 0%nat (KStr "Coal") heap_steel_coal_coal =
    (Raise (KeyError "Name Coal non unique: please use index"), heap_steel_coal_coal).
Proof.
  split; [|split].
  - destruct (Processes_getitem_by_name heap_steel_coal_coal 0%nat steel_coal_coal "Steel")
      as (H1 & _); [reflexivity|].
    destruct (H1 0%nat [2%float]) as (a & h' & E & _ & Ha & Hregs); [reflexivity| |].
    + intros [|[|[|j]]] w Hj; simpl in Hj; [reflexivity|discriminate..].
    + exists a, h'. split; [exact E|]. split; [exact Ha|exact Hregs].
  - destruct (Processes_getitem_by_name heap_steel_coal_coal 0%nat steel_coal_coal "Iron")
      as (_ & H2 & _); [reflexivity|].
    apply H2. intros [|[|[|j]]] w Hj; simpl in Hj; discriminate.
  - destruct (Processes_getitem_by_name heap_steel_coal_coal 0%nat steel_coal_coal "Coal")
      as (_ & _ & H3 & _); [reflexivity|].
    apply (H3 1%nat 2%nat [0; 3]%float [0; 3]%float); [lia|reflexivity|reflexivity].
Defined.

(** C5, as stated, fails: "Iron" is the name of no definition and "Coal" of
    two, and both lookups raise an exception of the one class [KeyError]. *)
Lemma ambiguous_name_is_KeyError_too :
  exists e1 e2,
    positions_named steel_coal_coal "Iron" = []
    /\ positions_named steel_coal_coal "Coal" = [1; 2]
    /\ fst (Processes_getitem 0%nat (KStr "Iron") heap_steel_coal_coal) = Raise e1
    /\ fst (Processes_getitem 0%nat (KStr "Coal") heap_steel_coal_coal) = Raise e2
    /\ class_of e1 = class_of e2.
Proof.
  exists (KeyError "'Iron'"), (KeyError "Name Coal non unique: please use index").
  repeat split; reflexivity.
Qed.

(** * The registry: defining a process *)

Lemma fold_left_max_ge l x : x <= fold_left Z.max l x.
Proof.
  revert x. induction l as [|y l IH]; intros x; simpl; [lia|].
  specialize (IH (Z.max x y)). lia.
Qed.

Lemma fold_left_max_bound l x y : In y l -> y <= fold_left Z.max l x.
Proof.
  revert x. induction l as [|z l IH]; intros x; simpl; [tauto|].
  intros [->|Hin].
  - pose proof (fold_left_max_ge l (Z.max x y)). lia.
  - now apply IH.
Qed.

Lemma fold_left_max_in l x : fold_left Z.max l x = x \/ In (fold_left Z.max l x) l.
Proof.
  revert x. induction l as [|z l IH]; intros x; simpl; [now left|].
  destruct (IH (Z.max x z)) as [E|Hin]; [|now right; right].
  rewrite E. destruct (Z.max_spec x z) as [[_ ->]|[_ ->]]; [right; now left|now left].
Qed.

Lemma written_length resources array :
  length (written resources array) = length array.
Proof.
  unfold written. revert array.
  induction resources as [|[r v] rest IH]; intros array; simpl; [reflexivity|].
  rewrite IH. apply length_insert.
Qed.

Lemma written_lookup resources array i :
  (i < length array)%nat ->
  written resources array !! i =
    match last_supplied resources i with
    | Some v => Some (float64_of v)
    | None => array !! i
    end.
Proof.
  unfold written. revert array.
  induction resources as [|[r v] rest IH]; intros array Hi; simpl; [reflexivity|].
  rewrite IH by now rewrite length_insert.
  destruct (last_supplied rest i); [reflexivity|].
  destruct (Nat.eqb_spec (Resource.index r) i) as [->|Hne].
  - now apply list_lookup_insert_eq.
  - now apply list_lookup_insert_ne.
Qed.

(** [float_of_int] at sample integers: small integers are exact, an
    integer beyond 2^53 is rounded to the nearest binary64 number, ties to
    even, and the first integer that rounds beyond the largest binary64
    number is infinite. *)
Lemma float_of_int_samples :
  float_of_int 0 = 0%float
  /\ float_of_int 3 = 3%float
  /\ float_of_int (-7) = (-7)%float
  /\ float_of_int (2 ^ 53 + 1) = 9007199254740992%float
  /\ float_of_int (2 ^ 53 + 2) = 9007199254740994%float
  /\ float_of_int (2 ^ 53 + 3) = 9007199254740996%float
  /\ float_of_int (- (2 ^ 53 + 1)) = (-9007199254740992)%float
  /\ float_of_int (10 ^ 23) = 0x1.52d02c7e14af6p+76%float
  /\ float_of_int (2 ^ 1024 - 2 ^ 970 - 1) = 0x1.fffffffffffffp+1023%float
  /\ float_of_int (2 ^ 1024 - 2 ^ 970) = infinity
  /\ float_of_int (- (10 ^ 400)) = neg_infinity.
Proof. vm_compute. repeat split; reflexivity. Qed.

Lemma np_float64_ok v h :
  fits_float64 v = true -> np_float64 v h = (Ok (float64_of v), h).
Proof.
  destruct v as [z|f]; simpl; [|reflexivity].
  intros E. apply negb_true_iff in E. now rewrite E.
Qed.

Lemma np_float64_raise v h :
  fits_float64 v = false ->
  np_float64 v h = (Raise (OverflowError "int too large to convert to float"), h).
Proof.
  destruct v as [z|f]; simpl; [|discriminate].
  intros E. apply negb_false_iff in E. now rewrite E.
Qed.

(** The writes of quantities float64 can hold, and the first quantity it
    cannot hold. *)
Lemma write_all_ok resources : forall array h,
  all_fit resources ->
  write_all resources array h = (Ok (written resources array), h).
Proof.
  induction resources as [|[r v] rest IH]; intros array h Hall; [reflexivity|].
  apply Forall_cons in Hall as [Hv Hrest]. cbn [snd] in Hv.
  cbn [write_all]. rewrite (bind_ok _ _ _ _ _ (np_float64_ok v h Hv)).
  now rewrite IH.
Qed.

Lemma write_all_raise resources : forall array h,
  ~ all_fit resources ->
  write_all resources array h =
    (Raise (OverflowError "int too large to convert to float"), h).
Proof.
  induction resources as [|[r v] rest IH]; intros array h Hn.
  - exfalso. apply Hn. constructor.
  - cbn [write_all]. destruct (fits_float64 v) eqn:Hv.
    + rewrite (bind_ok _ _ _ _ _ (np_float64_ok v h Hv)). apply IH.
      intros Hrest. apply Hn. now constructor.
    + now rewrite (bind_raise _ _ _ _ _ (np_float64_raise v h Hv)).
Qed.

Lemma last_supplied_app l1 l2 i :
  last_supplied (l1 ++ l2) i =
    match last_supplied l2 i with
    | Some w => Some w
    | None => last_supplied l1 i
    end.
Proof.
  induction l1 as [|[r v] l1 IH]; simpl.
  - now destruct (last_supplied l2 i).
  - rewrite IH. now destruct (last_supplied l2 i).
Qed.

Lemma last_supplied_None resources i :
  last_supplied resources i = None <->
  forall r v, In (r, v) resources -> Resource.index r <> i.
Proof.
  induction resources as [|[r w] rest IH]; simpl.
  - split; [intros _ ? ? []|reflexivity].
  - destruct (last_supplied rest i) as [u|].
    + split; [discriminate|]. intros H. exfalso.
      assert (Hn : Some u = None) by (apply IH; intros r' v' Hin; apply (H r' v'); now right).
      discriminate.
    + destruct (Nat.eqb_spec (Resource.index r) i) as [Hr|Hne].
      * split; [discriminate|]. intros H. exfalso. apply (H r w); [now left|exact Hr].
      * split; [|reflexivity]. intros _ r' v' [[= <- <-]|Hin]; [exact Hne|].
        apply (proj1 IH eq_refl r' v' Hin).
Qed.

(** [last_supplied] is the quantity of the last pair at that index. *)
Lemma last_supplied_Some resources i v :
  last_supplied resources i = Some v <->
  exists before r after,
    resources = before ++ (r, v) :: after
    /\ Resource.index r = i
    /\ forall r' v', In (r', v') after -> Resource.index r' <> i.
Proof.
  split.
  - induction resources as [|[r w] rest IH]; simpl; [discriminate|].
    destruct (last_supplied rest i) as [u|] eqn:Hu.
    + intros [= ->]. destruct (IH eq_refl) as (b & r' & a & -> & Hr & Ha).
      exists ((r, w) :: b), r', a. auto.
    + destruct (Nat.eqb_spec (Resource.index r) i) as [Hr|Hne]; [|discriminate].
      intros [= ->]. exists [], r, rest. split; [reflexivity|]. split; [exact Hr|].
      now apply last_supplied_None.
  - intros (b & r & a & -> & Hr & Ha). rewrite last_supplied_app. simpl.
    rewrite (proj2 (last_supplied_None a i) Ha).
    apply Nat.eqb_eq in Hr. now rewrite Hr.
Qed.


Lemma bind_ret {A B} (a : A) (k : A -> M B) h : bind (ret a) k h = k a h.
Proof. reflexivity. Qed.

(** The vector [create] builds for a non-empty list of pairs that float64
    can hold. *)
Lemma Processes_create_ok h r rg name resources :
  resources <> [] ->
  all_fit resources ->
  regs h !! r = Some rg ->
  Processes_create r name resources h =
    (Ok (length (procs h)),
     mkHeap (procs h ++ [mkProcess r (Z.of_nat (length (_processes rg))) 1])
            (exprs h)
            (<[r := mkProcesses (_processes rg ++ [(name, created_array resources)])
                                (_process_produces rg)]> (regs h))).
Proof.
  intros Hne Hfit E. destruct resources as [|[r0 v0] rest]; [congruence|]. clear Hne.
  set (resources := (r0, v0) :: rest) in *.
  unfold Processes_create.
  change ((length resources =? 0)%nat) with false. cbv iota.
  set (mx := fold_left Z.max (map resource_index rest) (resource_index (r0, v0))).
  change (py_max (map _ resources)) with (ret (A := Z) mx).
  rewrite (bind_ok _ _ _ _ _ (eq_refl : ret mx h = (Ok mx, h))). cbv zeta.
  rewrite (bind_ok _ _ _ _ _ (write_all_ok resources _ h Hfit)).
  change (written resources (np_zeros (Z.to_nat (mx + 1)))) with (created_array resources).
  rewrite (bind_ok _ _ _ _ _ (load_reg_ok _ _ _ E)).
  rewrite (bind_ok _ _ _ _ _ (store_reg_ok _ _ _ _ E)).
  set (rg' := mkProcesses _ _).
  set (h1 := set_regs _ h).
  assert (E1 : regs h1 !! r = Some rg').
  { unfold h1. simpl. apply list_lookup_insert_eq. now apply lookup_lt_Some in E. }
  unfold Processes_len.
  rewrite (bind_ok _ _ _ _ _ (bind_ok _ _ _ _ _ (load_reg_ok _ _ _ E1))).
  rewrite (Processes_getitem_int _ _ _ _ E1).
  assert (HL : Z.of_nat (length (_processes rg')) - 1 = Z.of_nat (length (_processes rg))).
  { unfold rg'. cbn [_processes]. rewrite length_app. cbn [length]. lia. }
  rewrite HL.
  assert (Hlt : (Z.of_nat (length (_processes rg)) <? Z.of_nat (length (_processes rg'))) = true).
  { apply Z.ltb_lt. lia. }
  rewrite Hlt. reflexivity.
Qed.

(** A quantity float64 cannot hold stops [create] at the write, before
    anything is appended. *)
Lemma Processes_create_overflow h r name resources :
  ~ all_fit resources ->
  Processes_create r name resources h =
    (Raise (OverflowError "int too large to convert to float"), h).
Proof.
  intros Hn. destruct resources as [|[r0 v0] rest]; [exfalso; apply Hn; constructor|].
  set (resources := (r0, v0) :: rest) in *.
  unfold Processes_create.
  change ((length resources =? 0)%nat) with false. cbv iota.
  set (mx := fold_left Z.max (map resource_index rest) (resource_index (r0, v0))).
  change (py_max (map _ resources)) with (ret (A := Z) mx).
  rewrite (bind_ok _ _ _ _ _ (eq_refl : ret mx h = (Ok mx, h))). cbv zeta.
  now rewrite (bind_raise _ _ _ _ _ (write_all_raise resources _ h Hn)).
Qed.

(** The vector of [created_array]: its length is the largest resource
    index plus one, and each entry is the float64 value of the last quantity
    supplied for it, or zero. *)
Lemma created_array_length r0 v0 rest :
  length (created_array ((r0, v0) :: rest)) =
    S (Z.to_nat (fold_left Z.max (map resource_index rest) (resource_index (r0, v0)))).
Proof.
  pose proof (fold_left_max_ge (map resource_index rest) (resource_index (r0, v0))) as Hge.
  unfold created_array. rewrite written_length. unfold np_zeros. rewrite length_replicate.
  set (mx := fold_left _ _ _) in *.
  assert (0 <= resource_index (r0, v0)) by (unfold resource_index; lia). lia.
Qed.

Lemma created_array_lookup resources i :
  (i < length (created_array resources))%nat ->
  created_array resources !! i =
    Some (default 0%float (float64_of <$> last_supplied resources i)).
Proof.
  destruct resources as [|[r0 v0] rest]; [simpl; lia|].
  intros Hi. rewrite created_array_length in Hi.
  pose proof (fold_left_max_ge (map resource_index rest) (resource_index (r0, v0))) as Hge.
  assert (0 <= resource_index (r0, v0)) by (unfold resource_index; lia).
  set (mx := fold_left _ _ _) in Hi, Hge.
  unfold created_array. fold mx. rewrite written_lookup.
  - destruct (last_supplied _ i); [reflexivity|]. simpl.
    unfold np_zeros. apply lookup_replicate_2. lia.
  - unfold np_zeros. rewrite length_replicate. lia.
Qed.

(** C2, as amended: defining a process with no pair raises [ValueError]
    and leaves the store, so the registry's count, as it was.  With pairs
    whose quantities
    float64 can hold (every [float], every [int] within the float range) it
    appends one definition whose vector has length (largest resource
    index + 1), holds at each supplied index the float64 value of the last
    quantity supplied for it and zero at the others, and returns a fresh
    handle at the new last position with multiplier 1.  With a quantity
    float64 cannot hold it raises [OverflowError] and leaves the store as it
    was. *)
Theorem Processes_create_spec h r name resources :
  (resources = [] ->
     Processes_create r name resources h =
       (Raise (ValueError ("No resources attached to " ++ name)), h)) /\
  (resources <> [] -> all_fit resources ->
   forall rg, regs h !! r = Some rg ->
     exists array,
       Processes_create r name resources h =
         (Ok (length (procs h)),
          mkHeap (procs h ++ [mkProcess r (Z.of_nat (length (_processes rg))) 1])
                 (exprs h)
                 (<[r := mkProcesses (_processes rg ++ [(name, array)])
                                     (_process_produces rg)]> (regs h)))
       /\ (forall res q, In (res, q) resources -> (Resource.index res < length array)%nat)
       /\ (exists res q, In (res, q) resources /\ length array = S (Resource.index res))
       /\ (forall i, (i < length array)%nat ->
             array !! i =
               Some (default 0%float (float64_of <$> last_supplied resources i)))) /\
  (~ all_fit resources ->
     Processes_create r name resources h =
       (Raise (OverflowError "int too large to convert to float"), h)).
Proof.
  split; [intros ->; reflexivity|].
  split; [|apply Processes_create_overflow].
  intros Hne Hfit rg E. exists (created_array resources).
  split; [now apply Processes_create_ok|].
  destruct resources as [|[r0 v0] rest]; [congruence|]. clear Hne Hfit.
  set (resources := (r0, v0) :: rest).
  set (mx := fold_left Z.max (map resource_index rest) (resource_index (r0, v0))).
  assert (Hmx0 : 0 <= mx).
  { pose proof (fold_left_max_ge (map resource_index rest) (resource_index (r0, v0))).
    unfold mx, resource_index in *. lia. }
  assert (Harr : created_array resources = written resources (np_zeros (Z.to_nat (mx + 1))))
    by reflexivity.
  assert (Hlen : length (created_array resources) = S (Z.to_nat mx)).
  { rewrite Harr, written_length. unfold np_zeros. rewrite length_replicate. lia. }
  split; [|split].
  - intros res q Hin. rewrite Hlen.
    assert (Hb : resource_index (res, q) <= mx).
    { destruct Hin as [[= <- <-]|Hin].
      - apply fold_left_max_ge.
      - apply fold_left_max_bound. now apply (in_map resource_index). }
    unfold resource_index in Hb. simpl in Hb. lia.
  - destruct (fold_left_max_in (map resource_index rest) (resource_index (r0, v0))) as [Hm|Hm];
      fold mx in Hm.
    + exists r0, v0. split; [now left|]. rewrite Hlen. unfold resource_index in Hm.
      simpl in Hm. lia.
    + apply in_map_iff in Hm. destruct Hm as ([res q] & Hq & Hin).
      exists res, q. split; [now right|]. rewrite Hlen. unfold resource_index in Hq.
      simpl in Hq. lia.
  - intros i Hi. rewrite Harr, written_lookup.
    + destruct (last_supplied resources i); [reflexivity|]. simpl.
      unfold np_zeros. apply lookup_replicate_2. rewrite Hlen in Hi. lia.
    + unfold np_zeros. rewrite length_replicate. rewrite Hlen in Hi. lia.
Qed.

Lemma Processes_create_spec_witness :
  (exists array,
     Processes_create 0%nat "X"
       [(Resource.mk 4, PInt 7); (Resource.mk 4, PFloat 8.5); (Resource.mk 2, PInt (2 ^ 53 + 1))]
       heap_steel_coal =
       (Ok 0%nat,
        mkHeap [mkProcess 0%nat 2 1] []
               [mkProcesses [("Steel", [2%float]); ("Coal", [0; 3]%float); ("X", array)] None])
     /\ length array = 5%nat
     /\ array !! 4%nat = Some 8.5%float
     /\ array !! 2%nat = Some 9007199254740992%float
     /\ array !! 0%nat = Some 0%float) /\
  Processes_create 0%nat "X" [(Resource.mk 0, PFloat 1); (Resource.mk 1, PInt (10 ^ 400))]
    heap_steel_coal =
    (Raise (OverflowError "int too large to convert to float"), heap_steel_coal).
Proof.
  pose (resources :=
    [(Resource.mk 4, PInt 7); (Resource.mk 4, PFloat 8.5); (Resource.mk 2, PInt (2 ^ 53 + 1))]).
  split.
  - destruct (Processes_create_spec heap_steel_coal 0%nat "X" resources) as (_ & H & _).
    assert (Hfit : all_fit resources) by (repeat constructor).
    destruct (H ltac:(discriminate) Hfit steel_coal eq_refl)
      as (array & E & Hlt & (res & q & Hin & Hlen) & Hval).
    exists array. split; [exact E|].
    assert (L : length array = 5%nat).
    { pose proof (Hlt (Resource.mk 4) (PInt 7) ltac:(now left)) as H4. simpl in H4.
      destruct Hin as [[= <- <-]|[[= <- <-]|[[= <- <-]|[]]]]; simpl in Hlen; lia. }
    split; [exact L|].
    repeat split; (rewrite Hval by (rewrite L; lia)); reflexivity.
  - destruct (Processes_create_spec heap_steel_coal 0%nat "X"
                [(Resource.mk 0, PFloat 1); (Resource.mk 1, PInt (10 ^ 400))]) as (_ & _ & H).
    apply H. intros Hall. apply Forall_cons in Hall as [_ Hall].
    apply Forall_cons in Hall as [Hbad _]. vm_compute in Hbad. discriminate.
Defined.

(** C2, as stated, fails: a call with one pair whose quantity is the [int]
    [10 ** 400] appends nothing; it raises [OverflowError], and the registry
    has the two definitions it had. *)
Lemma create_with_a_quantity_beyond_float64 :
  [(Resource.mk 0, PInt (10 ^ 400))] <> [] /\
  Processes_create 0%nat "X" [(Resource.mk 0, PInt (10 ^ 400))] heap_steel_coal =
    (Raise (OverflowError "int too large to convert to float"), heap_steel_coal) /\
  Processes_len 0%nat heap_steel_coal = (Ok 2, heap_steel_coal).
Proof.
  split; [discriminate|]. split; [|reflexivity].
  vm_compute. reflexivity.
Qed.

(** * Textual rendering *)

Lemma prefix_app (s t : string) : String.prefix s (s ++ t) = true.
Proof.
  induction s as [|c s IH]; simpl.
  - now destruct t.
  - destruct (ascii_dec c c); [exact IH|congruence].
Qed.



























(** * Expressions: coefficients and the merge *)

Lemma pos_eqb_eq k1 k2 : pos_eqb k1 k2 = true <-> k1 = k2.
Proof.
  destruct k1 as [a i], k2 as [b j]. unfold pos_eqb. simpl.
  rewrite andb_true_iff, Nat.eqb_eq, Z.eqb_eq. split; [intros [-> ->]; reflexivity|].
  intros [= -> ->]. auto.
Qed.

Lemma same_position_true ps a b :
  same_position ps a b = true ->
  is_Some (ps !! a) /\ is_Some (ps !! b) /\ pos_at ps a = pos_at ps b.
Proof.
  unfold same_position, pos_at. destruct (ps !! a) as [p|], (ps !! b) as [q|]; try discriminate.
  rewrite andb_true_iff, Nat.eqb_eq, Z.eqb_eq. intros [Hi Hp].
  split; [eauto|]. split; [eauto|]. simpl. unfold position. now rewrite Hi, Hp.
Qed.

Lemma same_position_false ps a b :
  is_Some (ps !! a) -> is_Some (ps !! b) ->
  same_position ps a b = false -> pos_at ps a <> pos_at ps b.
Proof.
  unfold same_position, pos_at. intros [p ->] [q ->] Hf. simpl. unfold position.
  intros [= Hp Hi]. rewrite Hp, Hi, Z.eqb_refl, Nat.eqb_refl in Hf. discriminate.
Qed.

Lemma index_of_Some ps l b i :
  index_of ps l b = Some i ->
  exists c, l !! i = Some c /\ same_position ps c b = true.
Proof.
  revert i. induction l as [|a l IH]; intros i; simpl; [discriminate|].
  destruct (same_position ps a b) eqn:E.
  - intros [= <-]. exists a. auto.
  - destruct (index_of ps l b) as [j|]; [|discriminate]. simpl.
    intros [= <-]. destruct (IH j eq_refl) as (c & Hc & Hs). exists c. auto.
Qed.

Lemma index_of_None ps l b :
  index_of ps l b = None -> forall a, In a l -> same_position ps a b = false.
Proof.
  induction l as [|a l IH]; simpl; [intros _ ? []|].
  destruct (same_position ps a b) eqn:E; [discriminate|].
  destruct (index_of ps l b); [discriminate|].
  intros _ c [<-|Hin]; [exact E|]. now apply IH.
Qed.

Lemma term_coef_ext ps ps' k a : ps !! a = ps' !! a -> term_coef ps k a = term_coef ps' k a.
Proof. unfold term_coef. now intros ->. Qed.

Lemma coef_ext ps ps' l k :
  (forall a, In a l -> ps !! a = ps' !! a) -> coef ps l k = coef ps' l k.
Proof.
  induction l as [|a l IH]; simpl; [reflexivity|]. intros H.
  rewrite (term_coef_ext ps ps' k a) by (apply H; now left).
  rewrite IH; [reflexivity|]. intros c Hc. apply H. now right.
Qed.

Lemma coef_app ps l1 l2 k : coef ps (l1 ++ l2) k = coef ps l1 k + coef ps l2 k.
Proof. induction l1 as [|a l1 IH]; simpl; [reflexivity|]. rewrite IH. lia. Qed.

(** Rewriting the multiplier of one term of a list without repetition moves
    the coefficient of its position by the difference. *)
Lemma coef_insert ps l c pc m k :
  ps !! c = Some pc -> NoDup l -> In c l ->
  coef (<[c := mkProcess (_parent pc) (index pc) m]> ps) l k =
    coef ps l k + (if pos_eqb (position pc) k then m - multiplier pc else 0).
Proof.
  intros Hc. assert (Hlt : (c < length ps)%nat) by now apply lookup_lt_Some in Hc.
  induction l as [|a l IH]; simpl; [intros _ []|].
  intros Hnd Hin. apply NoDup_cons in Hnd as [Ha Hnd].
  destruct (Nat.eq_dec a c) as [->|Hne].
  - rewrite (coef_ext _ ps l k).
    + unfold term_coef at 1 2. rewrite list_lookup_insert_eq by exact Hlt. rewrite Hc.
      unfold position at 1. simpl. fold (position pc).
      destruct (pos_eqb (position pc) k); lia.
    + intros b Hb. apply list_lookup_insert_ne. intros ->. apply Ha. now apply list_elem_of_In.
  - destruct Hin as [->|Hin]; [congruence|].
    rewrite IH by assumption.
    rewrite (term_coef_ext _ ps k a) by (apply list_lookup_insert_ne; congruence). lia.
Qed.

Lemma pos_at_insert ps c pc m a :
  ps !! c = Some pc ->
  pos_at (<[c := mkProcess (_parent pc) (index pc) m]> ps) a = pos_at ps a.
Proof.
  intros Hc. unfold pos_at. destruct (Nat.eq_dec c a) as [->|Hne].
  - rewrite list_lookup_insert_eq by now apply lookup_lt_Some in Hc. now rewrite Hc.
  - now rewrite list_lookup_insert_ne.
Qed.

Lemma well_formed_NoDup ps l : well_formed ps l -> NoDup l.
Proof. intros [_ H]. now apply NoDup_fmap_1 in H. Qed.

Lemma well_formed_ext ps ps' l :
  length ps' = length ps ->
  (forall a, pos_at ps' a = pos_at ps a) ->
  well_formed ps l -> well_formed ps' l.
Proof.
  intros Hlen Hpos [Hv Hnd]. split.
  - eapply Forall_impl; [exact Hv|]. intros a Ha. simpl in Ha.
    apply lookup_lt_is_Some. apply lookup_lt_is_Some in Ha. lia.
  - erewrite map_ext; [exact Hnd|]. intros a. apply Hpos.
Qed.

Lemma NoDup_map_middle {A B} (f : A -> B) (done : list A) b T :
  NoDup (map f (done ++ b :: T)) ->
  (forall a, In a done -> f a <> f b) /\ (forall a, In a T -> f a <> f b).
Proof.
  rewrite map_app. simpl. intros H. apply NoDup_app in H as (_ & Hdis & Hbt).
  apply NoDup_cons in Hbt as [Hb _]. split.
  - intros a Ha E. apply (Hdis (f a)).
    + apply list_elem_of_In, in_map, Ha.
    + rewrite E. left.
  - intros a Ha E. apply Hb. rewrite <- E. apply list_elem_of_In, in_map, Ha.
Qed.

Lemma merge_step_spec ps0 la done b T ps L :
  Forall (fun a => is_Some (ps0 !! a)) (done ++ b :: T) ->
  NoDup (map (pos_at ps0) (done ++ b :: T)) ->
  length ps = length ps0 ->
  (forall a, pos_at ps a = pos_at ps0 a) ->
  well_formed ps L ->
  (forall a, In a L -> In a la \/ In a done) ->
  (forall a, In a (b :: T) -> ps !! a = ps0 !! a) ->
  (forall a, ~ In a la -> ps !! a = ps0 !! a) ->
  forall ps1 L1, merge_step (ps, L) b = (ps1, L1) ->
    length ps1 = length ps0
    /\ (forall a, pos_at ps1 a = pos_at ps0 a)
    /\ well_formed ps1 L1
    /\ (forall a, In a L1 -> In a la \/ In a (done ++ [b]))
    /\ (forall a, In a T -> ps1 !! a = ps0 !! a)
    /\ (forall a, ~ In a la -> ps1 !! a = ps0 !! a)
    /\ (forall k, coef ps1 L1 k = coef ps L k + term_coef ps0 k b).
Proof.
  intros Hv Hnd Hlen Hpos Hwf Hsub HT Hframe ps1 L1.
  destruct (NoDup_map_middle _ _ _ _ Hnd) as [Hdone HTb].
  assert (Hb0 : is_Some (ps0 !! b)).
  { rewrite Forall_forall in Hv. apply Hv. apply list_elem_of_In, in_or_app. right. now left. }
  assert (Hb : ps !! b = ps0 !! b) by (apply HT; now left).
  unfold merge_step. destruct (index_of ps L b) as [i|] eqn:Hi.
  - destruct (index_of_Some _ _ _ _ Hi) as (c & Hc & Hs).
    destruct (same_position_true _ _ _ Hs) as ([pc Hpc] & [pb Hpb] & Hcb).
    rewrite Hc, Hpc, Hpb. intros [= <- <-].
    assert (HcL : In c L) by (apply list_elem_of_In; eapply list_elem_of_lookup_2; exact Hc).
    assert (Hcla : In c la).
    { destruct (Hsub c HcL) as [H|H]; [exact H|]. exfalso.
      apply (Hdone c H). now rewrite <- !Hpos. }
    split; [now rewrite length_insert|].
    split; [intros a; now rewrite (pos_at_insert _ _ _ _ _ Hpc)|].
    split.
    { apply (well_formed_ext ps); [apply length_insert| |exact Hwf].
      intros a. now apply pos_at_insert. }
    split.
    { intros a Ha. destruct (Hsub a Ha) as [H|H]; [now left|right].
      apply in_or_app. now left. }
    split.
    { intros a Ha. rewrite list_lookup_insert_ne; [apply HT; now right|].
      intros ->. apply (HTb a Ha). now rewrite <- !Hpos. }
    split.
    { intros a Ha. rewrite list_lookup_insert_ne; [now apply Hframe|]. congruence. }
    intros k. rewrite (coef_insert ps L c pc _ k Hpc (well_formed_NoDup _ _ Hwf) HcL).
    f_equal. unfold term_coef. rewrite <- Hb, Hpb.
    assert (Hpp : position pc = position pb).
    { unfold pos_at in Hcb. rewrite Hpc, Hpb in Hcb. simpl in Hcb. congruence. }
    rewrite Hpp. destruct (pos_eqb (position pb) k); lia.
  - intros [= <- <-]. pose proof (index_of_None _ _ _ Hi) as Hno.
    destruct Hwf as [HvL HndL].
    split; [exact Hlen|]. split; [exact Hpos|]. split.
    { split.
      - apply Forall_app. split; [exact HvL|]. constructor; [|constructor].
        rewrite Hb. exact Hb0.
      - rewrite map_app. apply NoDup_app. split; [exact HndL|]. split.
        + intros x Hx Hxb. simpl in Hxb. apply list_elem_of_In in Hx, Hxb.
          destruct Hxb as [<-|[]]. apply in_map_iff in Hx as (a & Ha & HaL).
          refine (same_position_false ps a b _ _ (Hno a HaL) Ha).
          * rewrite Forall_forall in HvL. apply HvL. now apply list_elem_of_In.
          * rewrite Hb. exact Hb0.
        + simpl. apply NoDup_singleton. }
    split.
    { intros a Ha. apply in_app_or in Ha as [Ha|[<-|[]]].
      - destruct (Hsub a Ha) as [H|H]; [now left|right]. apply in_or_app. now left.
      - right. apply in_or_app. right. now left. }
    split; [intros a Ha; apply HT; now right|].
    split; [exact Hframe|].
    intros k. rewrite coef_app. simpl. rewrite (term_coef_ext ps ps0 k b Hb). lia.
Qed.

(** The loop of [ProcessExpr.__add__] on well-formed lists: the list of
    [self] stays well formed, the coefficient of every position becomes the
    sum of the two coefficients, and only handles of the left list are
    written. *)
Lemma merge_all_inv ps0 la T : forall done ps L,
  Forall (fun a => is_Some (ps0 !! a)) (done ++ T) ->
  NoDup (map (pos_at ps0) (done ++ T)) ->
  length ps = length ps0 ->
  (forall a, pos_at ps a = pos_at ps0 a) ->
  well_formed ps L ->
  (forall a, In a L -> In a la \/ In a done) ->
  (forall a, In a T -> ps !! a = ps0 !! a) ->
  (forall a, ~ In a la -> ps !! a = ps0 !! a) ->
  forall ps' L', fold_left merge_step T (ps, L) = (ps', L') ->
    length ps' = length ps0
    /\ (forall a, pos_at ps' a = pos_at ps0 a)
    /\ well_formed ps' L'
    /\ (forall a, ~ In a la -> ps' !! a = ps0 !! a)
    /\ (forall k, coef ps' L' k = coef ps L k + coef ps0 T k).
Proof.
  induction T as [|b T IH]; intros done ps L Hv Hnd Hlen Hpos Hwf Hsub HT Hframe ps' L'.
  - simpl. intros [= <- <-]. repeat split; try assumption; try apply Hwf.
    intros k. lia.
  - change (fold_left merge_step (b :: T) (ps, L))
      with (fold_left merge_step T (merge_step (ps, L) b)).
    destruct (merge_step (ps, L) b) as [ps1 L1] eqn:Hstep.
    destruct (merge_step_spec ps0 la done b T ps L Hv Hnd Hlen Hpos Hwf Hsub HT Hframe
                ps1 L1 Hstep) as (Hlen1 & Hpos1 & Hwf1 & Hsub1 & HT1 & Hframe1 & Hcoef1).
    intros Hfold.
    assert (Hv' : Forall (fun a => is_Some (ps0 !! a)) ((done ++ [b]) ++ T))
      by now rewrite <- app_assoc.
    assert (Hnd' : NoDup (map (pos_at ps0) ((done ++ [b]) ++ T)))
      by now rewrite <- app_assoc.
    destruct (IH (done ++ [b]) ps1 L1 Hv' Hnd' Hlen1 Hpos1 Hwf1 Hsub1 HT1 Hframe1 ps' L' Hfold)
      as (Hlen' & Hpos' & Hwf' & Hframe' & Hcoef').
    repeat split; try assumption; try apply Hwf'.
    intros k. rewrite Hcoef', Hcoef1. simpl. lia.
Qed.

Lemma merge_all_spec ps la lb ps' L' :
  well_formed ps la -> well_formed ps lb ->
  fold_left merge_step lb (ps, la) = (ps', L') ->
    length ps' = length ps
    /\ (forall a, pos_at ps' a = pos_at ps a)
    /\ well_formed ps' L'
    /\ (forall a, ~ In a la -> ps' !! a = ps !! a)
    /\ (forall k, coef ps' L' k = coef ps la k + coef ps lb k).
Proof.
  intros Hla [Hvb Hndb] Hfold.
  apply (merge_all_inv ps la lb [] ps la); auto.
Qed.

(** * Expressions: running the code *)

Lemma Process_eq_ok h a b :
  valid h a -> valid h b ->
  Process_eq a b h = (Ok (same_position (procs h) a b), h).
Proof.
  intros [p Hp] [q Hq]. unfold Process_eq, same_position.
  rewrite (bind_ok _ _ _ _ _ (load_proc_ok _ _ _ Hp)).
  rewrite (bind_ok _ _ _ _ _ (load_proc_ok _ _ _ Hq)).
  now rewrite Hp, Hq.
Qed.

Lemma list_index_ok h l b i :
  Forall (valid h) l -> valid h b ->
  list_index l b i h = (Ok ((fun j => (i + j)%nat) <$> index_of (procs h) l b), h).
Proof.
  intros Hl Hb. revert i. induction Hl as [|a l Ha _ IH]; intros i; simpl; [reflexivity|].
  rewrite (bind_ok _ _ _ _ _ (Process_eq_ok _ _ _ Ha Hb)).
  destruct (same_position (procs h) a b).
  - simpl. unfold ret. do 3 f_equal. lia.
  - rewrite IH. destruct (index_of (procs h) l b) as [j|]; simpl; [|reflexivity].
    do 3 f_equal. lia.
Qed.

Lemma add_term_ok h self L b :
  exprs h !! self = Some L ->
  Forall (valid h) L -> valid h b ->
  add_term self b h =
    (Ok tt, mkHeap (fst (merge_step (procs h, L) b))
                   (<[self := snd (merge_step (procs h, L) b)]> (exprs h))
                   (regs h)).
Proof.
  intros He HL Hb. unfold add_term.
  rewrite (bind_ok _ _ _ _ _ (load_expr_ok _ _ _ He)).
  rewrite (bind_ok _ _ _ _ _ (list_index_ok _ _ _ 0 HL Hb)).
  unfold merge_step.
  destruct (index_of (procs h) L b) as [i|] eqn:Hi; simpl.
  - destruct (index_of_Some _ _ _ _ Hi) as (c & Hc & Hs).
    destruct (same_position_true _ _ _ Hs) as ([pc Hpc] & [pb Hpb] & _).
    rewrite Hc, Hpc, Hpb. simpl.
    rewrite (bind_ok _ _ _ _ _ (eq_refl : of_option (Some c) h = (Ok c, h))).
    rewrite (bind_ok _ _ _ _ _ (load_proc_ok _ _ _ Hpc)).
    rewrite (bind_ok _ _ _ _ _ (load_proc_ok _ _ _ Hpb)).
    rewrite (store_multiplier_ok _ _ _ _ Hpc). unfold set_procs.
    now rewrite (list_insert_id _ _ _ He).
  - now rewrite (store_expr_ok _ _ _ _ He).
Qed.

Lemma merge_step_length ps L b : length (fst (merge_step (ps, L) b)) = length ps.
Proof.
  unfold merge_step. destruct (index_of ps L b); [|reflexivity].
  destruct (L !! n); [|reflexivity].
  destruct (ps !! n0); [|reflexivity]. destruct (ps !! b); [|reflexivity].
  simpl. apply length_insert.
Qed.

Lemma merge_step_terms ps L b a :
  In a (snd (merge_step (ps, L) b)) -> In a L \/ a = b.
Proof.
  unfold merge_step. destruct (index_of ps L b).
  - destruct (L !! n); [|now left].
    destruct (ps !! n0); [|now left]. destruct (ps !! b); now left.
  - simpl. intros H. apply in_app_or in H as [H|[<-|[]]]; auto.
Qed.

Lemma valid_length h h' a : length (procs h') = length (procs h) -> valid h a -> valid h' a.
Proof.
  unfold valid. intros E H. apply lookup_lt_is_Some. apply lookup_lt_is_Some in H. lia.
Qed.

(** The loop [for process in other._processes: ...] of [__add__]. *)
Lemma add_loop_ok T : forall h self L,
  exprs h !! self = Some L ->
  Forall (valid h) L -> Forall (valid h) T ->
  for_each T (add_term self) h =
    (Ok tt, mkHeap (fst (fold_left merge_step T (procs h, L)))
                   (<[self := snd (fold_left merge_step T (procs h, L))]> (exprs h))
                   (regs h)).
Proof.
  induction T as [|b T IH]; intros h self L He HL HT.
  - simpl. unfold ret. rewrite (list_insert_id _ _ _ He). now destruct h.
  - apply Forall_cons in HT as [Hb HT]. cbn [for_each fold_left].
    rewrite (bind_ok _ _ _ _ _ (add_term_ok _ _ _ _ He HL Hb)).
    set (st := merge_step (procs h, L) b).
    set (h1 := mkHeap (fst st) (<[self := snd st]> (exprs h)) (regs h)).
    assert (Hlen : length (procs h1) = length (procs h)) by apply merge_step_length.
    assert (He1 : exprs h1 !! self = Some (snd st)).
    { simpl. apply list_lookup_insert_eq. now apply lookup_lt_Some in He. }
    rewrite (IH h1 self (snd st) He1).
    + simpl. rewrite list_insert_insert_eq. now destruct st.
    + apply Forall_forall. intros a Ha. apply list_elem_of_In in Ha.
      apply (valid_length h); [exact Hlen|].
      destruct (merge_step_terms _ _ _ _ Ha) as [H| ->]; [|exact Hb].
      rewrite Forall_forall in HL. apply HL. now apply list_elem_of_In.
    + eapply Forall_impl; [exact HT|]. intros a. now apply valid_length.
Qed.

Lemma merge_all_valid T : forall h L,
  Forall (valid h) L -> Forall (valid h) T ->
  forall h1, procs h1 = fst (fold_left merge_step T (procs h, L)) ->
  Forall (valid h1) (snd (fold_left merge_step T (procs h, L))).
Proof.
  induction T as [|b T IH]; intros h L HL HT h1 E1.
  - simpl in *. eapply Forall_impl; [exact HL|]. intros a. apply valid_length. now rewrite E1.
  - apply Forall_cons in HT as [Hb HT]. cbn [fold_left] in *.
    pose proof (merge_step_length (procs h) L b) as Hlen.
    pose proof (merge_step_terms (procs h) L b) as Hterms.
    destruct (merge_step (procs h, L) b) as [ps1 L1]. simpl in Hlen, Hterms.
    apply (IH (mkHeap ps1 (exprs h) (regs h)) L1).
    + apply Forall_forall. intros a Ha. apply list_elem_of_In in Ha.
      apply (valid_length h); [exact Hlen|].
      destruct (Hterms a Ha) as [H| ->]; [|exact Hb].
      rewrite Forall_forall in HL. apply HL. now apply list_elem_of_In.
    + eapply Forall_impl; [exact HT|]. intros a. now apply valid_length.
    + exact E1.
Qed.

Lemma nonzero_terms_ok h l :
  Forall (valid h) l ->
  nonzero_terms l h = (Ok (List.filter (nonzero (procs h)) l), h).
Proof.
  induction 1 as [|a l [p Hp] _ IH]; simpl; [reflexivity|].
  assert (Hnz : nonzero (procs h) a = negb (multiplier p =? 0))
    by (unfold nonzero; now rewrite Hp).
  rewrite (bind_ok _ _ _ _ _ (load_proc_ok _ _ _ Hp)).
  rewrite (bind_ok _ _ _ _ _ IH). rewrite Hnz.
  now destruct (multiplier p =? 0).
Qed.

Lemma first_parent_ok h l a p :
  head l = Some a -> procs h !! a = Some p ->
  first_parent l h = (Ok (_parent p), h).
Proof.
  intros Hl Hp. destruct l as [|a' l]; [discriminate|]. injection Hl as ->.
  unfold first_parent.
  rewrite (bind_ok _ _ _ _ _ (eq_refl : py_getitem (a :: l) 0 h = (Ok a, h))).
  now rewrite (bind_ok _ _ _ _ _ (load_proc_ok _ _ _ Hp)).
Qed.

Lemma first_parent_empty h :
  first_parent [] h = (Raise (IndexError "list index out of range"), h).
Proof. reflexivity. Qed.

Lemma owner_expr h e r :
  owner h (VExpr e) = Some r ->
  exists l a p, exprs h !! e = Some l /\ head l = Some a
                /\ procs h !! a = Some p /\ _parent p = r.
Proof.
  unfold owner. simpl. destruct (exprs h !! e) as [[|a l]|]; try discriminate.
  destruct (procs h !! a) as [p|] eqn:Hp; [|discriminate]. simpl. intros [= <-].
  exists (a :: l), a, p. auto.
Qed.

Lemma owner_process h a r :
  owner h (VProcess a) = Some r -> exists p, procs h !! a = Some p /\ _parent p = r.
Proof.
  unfold owner. simpl. destruct (procs h !! a) as [p|]; [|discriminate]. simpl.
  intros [= <-]. eauto.
Qed.

(** [ProcessExpr.__add__] on an expression over the same registry. *)
Lemma ProcessExpr_add_expr_ok h A B la lb r :
  exprs h !! A = Some la -> exprs h !! B = Some lb ->
  Forall (valid h) la -> Forall (valid h) lb ->
  owner h (VExpr A) = Some r -> owner h (VExpr B) = Some r ->
  ProcessExpr_add A (VExpr B) h =
    let st := fold_left merge_step lb (procs h, la) in
    (Ok (length (exprs h)),
     mkHeap (fst st)
            (<[A := snd st]> (exprs h) ++ [List.filter (nonzero (fst st)) (snd st)])
            (regs h)).
Proof.
  intros HA HB Hla Hlb HoA HoB.
  destruct (owner_expr _ _ _ HoA) as (la' & a & pa & HA' & Hha & Hpa & Hra).
  destruct (owner_expr _ _ _ HoB) as (lb' & b & pb & HB' & Hhb & Hpb & Hrb).
  rewrite HA in HA'. rewrite HB in HB'. injection HA' as <-. injection HB' as <-.
  unfold ProcessExpr_add.
  erewrite bind_ok; cycle 1.
  { rewrite (bind_ok _ _ _ _ _ (load_expr_ok _ _ _ HB)).
    rewrite (bind_ok _ _ _ _ _ (first_parent_ok _ _ _ _ Hhb Hpb)).
    rewrite (bind_ok _ _ _ _ _ (load_expr_ok _ _ _ HA)).
    rewrite (bind_ok _ _ _ _ _ (first_parent_ok _ _ _ _ Hha Hpa)).
    rewrite Hra, Hrb, Nat.eqb_refl. cbn [negb].
    apply (add_loop_ok lb h A la HA Hla Hlb). }
  set (st := fold_left merge_step lb (procs h, la)).
  set (h1 := mkHeap (fst st) (<[A := snd st]> (exprs h)) (regs h)).
  assert (He1 : exprs h1 !! A = Some (snd st)).
  { simpl. apply list_lookup_insert_eq. now apply lookup_lt_Some in HA. }
  rewrite (bind_ok _ _ _ _ _ (load_expr_ok _ _ _ He1)).
  assert (Hv1 : Forall (valid h1) (snd st)).
  { apply (merge_all_valid lb h la Hla Hlb). reflexivity. }
  rewrite (bind_ok _ _ _ _ _ (nonzero_terms_ok _ _ Hv1)).
  unfold ProcessExpr_init, alloc_expr, set_exprs. simpl. now rewrite length_insert.
Qed.

Lemma term_coef_nonzero ps k a : nonzero ps a = false -> term_coef ps k a = 0.
Proof.
  unfold nonzero, term_coef. destruct (ps !! a) as [p|]; [|reflexivity].
  intros H. apply negb_false_iff, Z.eqb_eq in H. rewrite H. now destruct (pos_eqb _ _).
Qed.

Lemma coef_filter_nonzero ps l k : coef ps (List.filter (nonzero ps) l) k = coef ps l k.
Proof.
  induction l as [|a l IH]; simpl; [reflexivity|].
  destruct (nonzero ps a) eqn:E; simpl; rewrite IH; [reflexivity|].
  rewrite (term_coef_nonzero _ _ _ E). lia.
Qed.

Lemma well_formed_filter ps f l : well_formed ps l -> well_formed ps (List.filter f l).
Proof.
  intros [Hv Hnd]. split.
  - apply Forall_forall. intros a Ha. apply list_elem_of_In, filter_In in Ha as [Ha _].
    rewrite Forall_forall in Hv. apply Hv. now apply list_elem_of_In.
  - induction l as [|a l IH]; simpl in *; [constructor|].
    apply NoDup_cons in Hnd as [Ha Hnd]. apply Forall_cons in Hv as [_ Hv].
    specialize (IH Hv Hnd). destruct (f a); [|exact IH].
    simpl. apply NoDup_cons. split; [|exact IH].
    intros Hin. apply Ha. apply list_elem_of_In in Hin. apply list_elem_of_In.
    apply in_map_iff in Hin as (b & Hb & Hbl). apply filter_In in Hbl as [Hbl _].
    apply in_map_iff. eauto.
Qed.

Lemma well_formed_valid h l : well_formed (procs h) l -> Forall (valid h) l.
Proof. now intros [H _]. Qed.

Lemma well_formed_app ps ps2 l : well_formed ps l -> well_formed (ps ++ ps2) l.
Proof.
  intros [Hv Hnd]. split.
  - eapply Forall_impl; [exact Hv|]. intros a [p Hp]. exists p. now apply lookup_app_l_Some.
  - erewrite map_ext_in; [exact Hnd|]. intros a Ha. unfold pos_at.
    rewrite Forall_forall in Hv. destruct (Hv a) as [p Hp]; [now apply list_elem_of_In|].
    now rewrite Hp, (lookup_app_l_Some _ _ _ _ Hp).
Qed.

Lemma coef_app_procs ps ps2 l k :
  Forall (fun a => is_Some (ps !! a)) l -> coef (ps ++ ps2) l k = coef ps l k.
Proof.
  intros Hv. apply coef_ext. intros a Ha. rewrite Forall_forall in Hv.
  destruct (Hv a) as [p Hp]; [now apply list_elem_of_In|].
  now rewrite Hp, (lookup_app_l_Some _ _ _ _ Hp).
Qed.

(** The end of [__add__]: the new expression keeps the non-zero terms. *)
Lemma add_finish_ok h A L :
  exprs h !! A = Some L -> Forall (valid h) L ->
  (let* ls := load_expr A in
   let* kept := nonzero_terms ls in
   ProcessExpr_init kept) h =
    (Ok (length (exprs h)),
     set_exprs (fun es => es ++ [List.filter (nonzero (procs h)) L]) h).
Proof.
  intros HA HL.
  rewrite (bind_ok _ _ _ _ _ (load_expr_ok _ _ _ HA)).
  now rewrite (bind_ok _ _ _ _ _ (nonzero_terms_ok _ _ HL)).
Qed.

(** [Process.__mul__]: a copy of the handle with the multiplier scaled,
    wrapped in a new one-term expression. *)
Lemma Process_mul_ok h p P k :
  handle_at h p P ->
  Process_mul p k h =
    (Ok (length (exprs h)),
     mkHeap (procs h ++ [mkProcess (_parent P) (index P) (multiplier P * k)])
            (exprs h ++ [[length (procs h)]])
            (regs h)).
Proof.
  intros Hp. unfold Process_mul, copy.
  rewrite (bind_ok _ _ _ _ _ (bind_ok _ _ _ _ _ (load_proc_ok _ _ _ Hp))).
  set (h1 := set_procs (fun ps => ps ++ [P]) h).
  assert (H1 : procs h1 !! length (procs h) = Some P).
  { simpl. apply list_lookup_middle. reflexivity. }
  rewrite (bind_ok _ _ _ _ _ (load_proc_ok _ _ _ H1)).
  rewrite (bind_ok _ _ _ _ _ (store_multiplier_ok _ _ _ _ H1)).
  unfold ProcessExpr_init, alloc_expr, set_exprs, set_procs. simpl.
  rewrite insert_app_r_alt by lia. now rewrite Nat.sub_diag.
Qed.

(** What [ProcessExpr.__add__] returns for well-formed operands over one
    registry, when the right operand is an expression. *)
Lemma ProcessExpr_add_expr_merges h A B la lb r :
  exprs h !! A = Some la -> exprs h !! B = Some lb ->
  well_formed (procs h) la -> well_formed (procs h) lb ->
  owner h (VExpr A) = Some r -> owner h (VExpr B) = Some r ->
  exists h' le,
    ProcessExpr_add A (VExpr B) h = (Ok (length (exprs h)), h')
    /\ exprs h' !! length (exprs h) = Some le
    /\ well_formed (procs h') le
    /\ (forall t, In t le -> nonzero (procs h') t = true)
    /\ (forall k, coef (procs h') le k = coef (procs h) la k + coef (procs h) lb k)
    /\ regs h' = regs h
    /\ length (procs h') = length (procs h)
    /\ (forall a, pos_at (procs h') a = pos_at (procs h) a)
    /\ (forall a, ~ In a la -> procs h' !! a = procs h !! a)
    /\ (forall e, e <> A -> (e < length (exprs h))%nat -> exprs h' !! e = exprs h !! e).
Proof.
  intros HA HB Hla Hlb HoA HoB.
  rewrite (ProcessExpr_add_expr_ok h A B la lb r HA HB
             (well_formed_valid _ _ Hla) (well_formed_valid _ _ Hlb) HoA HoB).
  cbv zeta. destruct (fold_left merge_step lb (procs h, la)) as [ps' L'] eqn:Hfold.
  destruct (merge_all_spec _ _ _ _ _ Hla Hlb Hfold) as (Hlen & Hpos & Hwf & Hframe & Hcoef).
  cbn [fst snd]. eexists _, _. split; [reflexivity|]. cbn [procs exprs regs].
  split.
  { rewrite lookup_app_r by (rewrite length_insert; lia).
    rewrite length_insert, Nat.sub_diag. reflexivity. }
  split; [now apply well_formed_filter|].
  split; [intros t Ht; now apply filter_In in Ht|].
  split; [intros k; now rewrite coef_filter_nonzero|].
  split; [reflexivity|]. split; [exact Hlen|]. split; [exact Hpos|]. split; [exact Hframe|].
  intros e Hne Hlt. rewrite lookup_app_l by (rewrite length_insert; lia).
  apply list_lookup_insert_ne. congruence.
Qed.

Lemma copy_ok h a p :
  handle_at h a p ->
  copy a h = (Ok (length (procs h)), set_procs (fun ps => ps ++ [p]) h).
Proof. intros Ha. unfold copy. now rewrite (bind_ok _ _ _ _ _ (load_proc_ok _ _ _ Ha)). Qed.


Lemma extends_refl h : extends h h.
Proof. repeat split; try (exists []; now rewrite app_nil_r). Qed.

Lemma extends_trans h1 h2 h3 : extends h1 h2 -> extends h2 h3 -> extends h1 h3.
Proof.
  intros ([ps1 E1] & [es1 F1] & R1) ([ps2 E2] & [es2 F2] & R2). split; [|split].
  - exists (ps1 ++ ps2). now rewrite E2, E1, app_assoc.
  - exists (es1 ++ es2). now rewrite F2, F1, app_assoc.
  - congruence.
Qed.

Lemma extends_handle h h' a p : extends h h' -> handle_at h a p -> handle_at h' a p.
Proof. intros ([ps E] & _) Ha. unfold handle_at. rewrite E. now apply lookup_app_l_Some. Qed.

Lemma extends_expr h h' e l : extends h h' -> exprs h !! e = Some l -> exprs h' !! e = Some l.
Proof. intros (_ & [es E] & _) He. rewrite E. now apply lookup_app_l_Some. Qed.

Lemma extends_terms_of h h' x l :
  extends h h' -> terms_of h x = Some l -> terms_of h' x = Some l.
Proof. intros Hext. destruct x; simpl; [auto|]. now apply extends_expr. Qed.

Lemma extends_well_formed h h' l :
  extends h h' -> well_formed (procs h) l -> well_formed (procs h') l.
Proof. intros ([ps E] & _) H. rewrite E. now apply well_formed_app. Qed.

Lemma extends_coef h h' l k :
  extends h h' -> well_formed (procs h) l -> coef (procs h') l k = coef (procs h) l k.
Proof. intros ([ps E] & _) [H _]. rewrite E. now apply coef_app_procs. Qed.

Lemma extends_owner h h' x r : extends h h' -> owner h x = Some r -> owner h' x = Some r.
Proof.
  intros Hext. unfold owner. destruct (terms_of h x) as [[|a l]|] eqn:Ht; try discriminate.
  rewrite (extends_terms_of _ _ _ _ Hext Ht).
  destruct (procs h !! a) as [p|] eqn:Hp; [|discriminate].
  now rewrite (extends_handle _ _ _ _ Hext Hp).
Qed.



(** * Scalar multiplication and negation of an expression *)

(** The loop [for element in self._processes: element.multiplier = f
    (element.multiplier)] on a list of distinct handles: every handle of
    the list is rewritten once, nothing else changes. *)
Lemma update_loop_ok (f : Z -> Z) l : forall h,
  NoDup l -> Forall (valid h) l ->
  exists h',
    for_each l (fun element =>
      let* p := load_proc element in
      store_multiplier element (f (multiplier p))) h = (Ok tt, h')
    /\ exprs h' = exprs h /\ regs h' = regs h
    /\ length (procs h') = length (procs h)
    /\ (forall t p, In t l -> procs h !! t = Some p ->
          procs h' !! t = Some (mkProcess (_parent p) (index p) (f (multiplier p))))
    /\ (forall t, ~ In t l -> procs h' !! t = procs h !! t).
Proof.
  induction l as [|x l IH]; intros h Hnd Hv.
  - exists h. simpl. repeat split; auto. intros t p [].
  - apply NoDup_cons in Hnd as [Hx Hnd]. apply Forall_cons in Hv as [[px Hpx] Hv].
    set (h1 := set_procs (fun ps => <[x := mkProcess (_parent px) (index px) (f (multiplier px))]> ps) h).
    assert (Hlen1 : length (procs h1) = length (procs h)) by apply length_insert.
    assert (Hv1 : Forall (valid h1) l).
    { eapply Forall_impl; [exact Hv|]. intros a. now apply valid_length. }
    destruct (IH h1 Hnd Hv1) as (h' & E & He & Hr & Hlen & Hin & Hout).
    exists h'. split.
    { cbn [for_each]. erewrite bind_ok; [exact E|].
      rewrite (bind_ok _ _ _ _ _ (load_proc_ok _ _ _ Hpx)).
      now rewrite (store_multiplier_ok _ _ _ _ Hpx). }
    split; [exact He|]. split; [exact Hr|]. split; [lia|]. split.
    + intros t p [<-|Ht] Hp.
      * rewrite Hout by (intros H; apply Hx; now apply list_elem_of_In).
        simpl. rewrite list_lookup_insert_eq by now apply lookup_lt_Some in Hpx.
        congruence.
      * apply Hin; [exact Ht|]. simpl. rewrite list_lookup_insert_ne; [exact Hp|].
        intros ->. apply Hx. now apply list_elem_of_In.
    + intros t Ht. rewrite Hout by (intros H; apply Ht; now right).
      simpl. apply list_lookup_insert_ne. intros ->. apply Ht. now left.
Qed.

Lemma Process_eta p : mkProcess (_parent p) (index p) (multiplier p) = p.
Proof. now destruct p. Qed.


(** * Adding and subtracting handles *)

(** Two one-term expressions at one position: the left term takes the sum,
    and the result keeps it unless the sum is zero. *)
Lemma add_singletons h e1 e2 c1 c2 P1 P2 :
  exprs h !! e1 = Some [c1] -> exprs h !! e2 = Some [c2] ->
  procs h !! c1 = Some P1 -> procs h !! c2 = Some P2 ->
  position P1 = position P2 ->
  ProcessExpr_add e1 (VExpr e2) h =
    (Ok (length (exprs h)),
     mkHeap (<[c1 := mkProcess (_parent P1) (index P1) (multiplier P1 + multiplier P2)]> (procs h))
            (<[e1 := [c1]]> (exprs h)
               ++ [if multiplier P1 + multiplier P2 =? 0 then [] else [c1]])
            (regs h)).
Proof.
  intros He1 He2 Hc1 Hc2 Hpos.
  assert (Hpar : _parent P1 = _parent P2) by (unfold position in Hpos; congruence).
  assert (Hidx : index P1 = index P2) by (unfold position in Hpos; congruence).
  assert (Hs : same_position (procs h) c1 c2 = true).
  { unfold same_position. rewrite Hc1, Hc2, Hidx, Hpar, Z.eqb_refl, Nat.eqb_refl. reflexivity. }
  assert (Hst : merge_step (procs h, [c1]) c2 =
                (<[c1 := mkProcess (_parent P1) (index P1) (multiplier P1 + multiplier P2)]>
                   (procs h), [c1])).
  { unfold merge_step. cbn [index_of]. rewrite Hs. cbn [lookup list_lookup].
    now rewrite Hc1, Hc2. }
  rewrite (ProcessExpr_add_expr_ok h e1 e2 [c1] [c2] (_parent P1) He1 He2).
  - cbv zeta. cbn [fold_left]. rewrite Hst. cbn [fst snd List.filter].
    unfold nonzero. rewrite list_lookup_insert_eq by now apply lookup_lt_Some in Hc1.
    cbn [multiplier]. now destruct (multiplier P1 + multiplier P2 =? 0).
  - repeat constructor. now exists P1.
  - repeat constructor. now exists P2.
  - unfold owner. simpl. now rewrite He1, Hc1.
  - unfold owner. simpl. now rewrite He2, Hc2, Hpar.
Qed.

(** The store after [p * j] and then [p * k]: two copies of [p], each in
    an expression of its own. *)
Lemma two_copies h p P j k :
  handle_at h p P ->
  (let* a := Process_mul p j in
   let* b := Process_mul p k in
   ret (a, b)) h =
    (Ok (length (exprs h), S (length (exprs h))),
     mkHeap (procs h ++ [mkProcess (_parent P) (index P) (multiplier P * j);
                         mkProcess (_parent P) (index P) (multiplier P * k)])
            (exprs h ++ [[length (procs h)]; [S (length (procs h))]])
            (regs h)).
Proof.
  intros Hp. rewrite (bind_ok _ _ _ _ _ (Process_mul_ok h p P j Hp)).
  set (h1 := mkHeap _ _ _).
  assert (Hp1 : handle_at h1 p P) by (unfold handle_at; simpl; now apply lookup_app_l_Some).
  rewrite (bind_ok _ _ _ _ _ (Process_mul_ok h1 p P k Hp1)).
  unfold ret. simpl. rewrite !length_app. simpl.
  rewrite <- !app_assoc. simpl. now rewrite !Nat.add_1_r.
Qed.

(** [p + p] and [p - p] for a handle [p], from the code. *)
Lemma handle_plus_minus_itself h p P (j : Z) :
  handle_at h p P ->
  (let* a := Process_mul p 1 in
   let* b := Process_mul p j in
   ProcessExpr_add a (VExpr b)) h =
    let t := length (procs h) in
    let m := multiplier P * 1 + multiplier P * j in
    (Ok (S (S (length (exprs h)))),
     mkHeap (procs h ++ [mkProcess (_parent P) (index P) m;
                         mkProcess (_parent P) (index P) (multiplier P * j)])
            (exprs h ++ [[t]; [S t]; if m =? 0 then [] else [t]])
            (regs h)).
Proof.
  intros Hp. cbv zeta.
  pose proof (two_copies h p P 1 j Hp) as H2.
  unfold bind in H2 |- *.
  destruct (Process_mul p 1 h) as [[a| |] h1]; try discriminate.
  destruct (Process_mul p j h1) as [[b| |] h2]; try discriminate.
  unfold ret in H2. injection H2 as -> -> ->.
  set (P1 := mkProcess (_parent P) (index P) (multiplier P * 1)).
  set (P2 := mkProcess (_parent P) (index P) (multiplier P * j)).
  set (t := length (procs h)).
  rewrite (add_singletons _ _ _ t (S t) P1 P2).
  - cbn [procs exprs regs multiplier P1 P2 _parent index].
    rewrite !length_app. cbn [length].
    f_equal; [f_equal; lia|]. f_equal.
    + unfold t. rewrite insert_app_r_alt by lia.
      replace (length (procs h) - length (procs h))%nat with 0%nat by lia. reflexivity.
    + rewrite insert_app_r_alt by lia.
      replace (length (exprs h) - length (exprs h))%nat with 0%nat by lia.
      cbn [insert list_insert]. now rewrite <- app_assoc.
  - cbn [exprs]. now apply list_lookup_middle.
  - cbn [exprs]. rewrite lookup_app_r by lia.
    replace (S (length (exprs h)) - length (exprs h))%nat with 1%nat by lia. reflexivity.
  - cbn [procs]. now apply list_lookup_middle.
  - cbn [procs]. unfold t. rewrite lookup_app_r by lia.
    replace (S (length (procs h)) - length (procs h))%nat with 1%nat by lia. reflexivity.
  - reflexivity.
Qed.
Lemma nonzero_true ps t :
  nonzero ps t = true <-> exists p, ps !! t = Some p /\ multiplier p <> 0.
Proof.
  unfold nonzero. destruct (ps !! t) as [p|].
  - rewrite negb_true_iff, Z.eqb_neq. split; [eauto|]. now intros (q & [= ->] & H).
  - split; [discriminate|]. now intros (q & [=] & _).
Qed.

Lemma coef_absent ps l k :
  (forall a, In a l -> pos_at ps a <> Some k) -> coef ps l k = 0.
Proof.
  induction l as [|a l IH]; simpl; [reflexivity|]. intros H.
  rewrite IH by (intros b Hb; apply H; now right).
  unfold term_coef. specialize (H a (or_introl eq_refl)). unfold pos_at in H.
  destruct (ps !! a) as [p|]; [|reflexivity]. simpl in H.
  destruct (pos_eqb (position p) k) eqn:E; [|reflexivity].
  apply pos_eqb_eq in E. congruence.
Qed.

(** In a well-formed list the coefficient of a term's position is that
    term's multiplier: it is the single term there. *)
Lemma coef_well_formed ps l t p :
  well_formed ps l -> In t l -> ps !! t = Some p ->
  coef ps l (position p) = multiplier p.
Proof.
  intros [_ Hnd] Ht Hp. induction l as [|a l IH]; simpl in *; [contradiction|].
  apply NoDup_cons in Hnd as [Ha Hnd]. destruct Ht as [->|Ht].
  - rewrite coef_absent.
    + unfold term_coef. rewrite Hp.
      assert (E : pos_eqb (position p) (position p) = true) by now apply pos_eqb_eq.
      rewrite E. lia.
    + intros b Hb Hpos. apply Ha. apply list_elem_of_In.
      unfold pos_at at 1. rewrite Hp. simpl. rewrite <- Hpos. now apply in_map.
  - rewrite IH by assumption.
    unfold term_coef. destruct (ps !! a) as [q|] eqn:Hq; [|lia].
    destruct (pos_eqb (position q) (position p)) eqn:E; [|lia].
    apply pos_eqb_eq in E. exfalso. apply Ha. apply list_elem_of_In.
    unfold pos_at at 1. rewrite Hq. simpl. rewrite E.
    replace (Some (position p)) with (pos_at ps t) by (unfold pos_at; now rewrite Hp).
    now apply in_map.
Qed.

Lemma coef_present ps l k :
  coef ps l k <> 0 -> exists t p, In t l /\ ps !! t = Some p /\ position p = k.
Proof.
  induction l as [|a l IH]; simpl; [congruence|]. intros H.
  unfold term_coef in H. destruct (ps !! a) as [p|] eqn:Hp.
  - destruct (pos_eqb (position p) k) eqn:E.
    + apply pos_eqb_eq in E. exists a, p. auto.
    + destruct IH as (t & q & Ht & Hq & Hk); [lia|]. exists t, q. auto.
  - destruct IH as (t & q & Ht & Hq & Hk); [lia|]. exists t, q. auto.
Qed.



Lemma well_formed_singleton ps a : is_Some (ps !! a) -> well_formed ps [a].
Proof. intros H. split; [repeat constructor; exact H|apply NoDup_singleton]. Qed.


(** * Failing additions *)

(** The check of the two first terms' parents. *)
Lemma ProcessExpr_add_expr_mismatch h A B r1 r2 :
  owner h (VExpr A) = Some r1 -> owner h (VExpr B) = Some r2 -> r1 <> r2 ->
  ProcessExpr_add A (VExpr B) h =
    (Raise (ValueError "Combining two exprs from different processes classes"), h).
Proof.
  intros HoA HoB Hne.
  destruct (owner_expr _ _ _ HoA) as (la & a & pa & HA & Hha & Hpa & Hra).
  destruct (owner_expr _ _ _ HoB) as (lb & b & pb & HB & Hhb & Hpb & Hrb).
  unfold ProcessExpr_add. apply bind_raise.
  rewrite (bind_ok _ _ _ _ _ (load_expr_ok _ _ _ HB)).
  rewrite (bind_ok _ _ _ _ _ (first_parent_ok _ _ _ _ Hhb Hpb)).
  rewrite (bind_ok _ _ _ _ _ (load_expr_ok _ _ _ HA)).
  rewrite (bind_ok _ _ _ _ _ (first_parent_ok _ _ _ _ Hha Hpa)).
  rewrite Hra, Hrb. apply Nat.eqb_neq in Hne. now rewrite Hne.
Qed.

Lemma ProcessExpr_add_process_mismatch h A q r1 r2 :
  owner h (VExpr A) = Some r1 -> owner h (VProcess q) = Some r2 -> r1 <> r2 ->
  ProcessExpr_add A (VProcess q) h =
    (Raise (ValueError "Combining process and expr from different processes classes"), h).
Proof.
  intros HoA Hoq Hne.
  destruct (owner_expr _ _ _ HoA) as (la & a & pa & HA & Hha & Hpa & Hra).
  destruct (owner_process _ _ _ Hoq) as (Q & Hq & HQ).
  unfold ProcessExpr_add. apply bind_raise.
  rewrite (bind_ok _ _ _ _ _ (load_proc_ok _ _ _ Hq)).
  rewrite (bind_ok _ _ _ _ _ (load_expr_ok _ _ _ HA)).
  rewrite (bind_ok _ _ _ _ _ (first_parent_ok _ _ _ _ Hha Hpa)).
  rewrite Hra, HQ. apply Nat.eqb_neq in Hne. now rewrite Hne.
Qed.

(** [x * 1] keeps the owner; it only allocates. *)
Lemma py_mul_one_owner h y r :
  owner h y = Some r ->
  exists e h1, py_mul y 1 h = (Ok e, h1) /\ extends h h1 /\ owner h1 (VExpr e) = Some r.
Proof.
  intros Ho. destruct y as [q|B].
  - destruct (owner_process _ _ _ Ho) as (Q & Hq & HQ).
    simpl. rewrite (Process_mul_ok h q Q 1 Hq). eexists _, _. split; [reflexivity|]. split.
    + split; [eexists; reflexivity|]. split; [eexists; reflexivity|reflexivity].
    + unfold owner. simpl. rewrite list_lookup_middle by reflexivity.
      rewrite list_lookup_middle by reflexivity. simpl. now rewrite HQ.
  - exists B, h. split; [reflexivity|]. split; [apply extends_refl|exact Ho].
Qed.

(** C6: adding operands whose owning registries differ raises
    [ValueError], for the four combinations of handle and expression, and
    leaves every object of the store, the operands among them, as it was:
    the store after the call only has the copies the call allocated. *)
Theorem different_registries_ValueError h x y r1 r2 :
  owner h x = Some r1 -> owner h y = Some r2 -> r1 <> r2 ->
  exists msg h',
    py_add x y h = (Raise (ValueError msg), h')
    /\ extends h h'
    /\ terms_of h' x = terms_of h x /\ terms_of h' y = terms_of h y
    /\ (forall a p, handle_at h a p -> handle_at h' a p).
Proof.
  intros Hox Hoy Hne.
  assert (Hframe : forall h', extends h h' ->
            terms_of h' x = terms_of h x /\ terms_of h' y = terms_of h y
            /\ (forall a p, handle_at h a p -> handle_at h' a p)).
  { intros h' Hext. split; [|split].
    - unfold owner in Hox. destruct (terms_of h x) as [l|] eqn:E; [|discriminate].
      now apply (extends_terms_of h h').
    - unfold owner in Hoy. destruct (terms_of h y) as [l|] eqn:E; [|discriminate].
      now apply (extends_terms_of h h').
    - intros a p. now apply (extends_handle h h'). }
  destruct x as [p|A].
  - destruct (py_mul_one_owner h (VProcess p) r1 Hox) as (e1 & h1 & E1 & X1 & Ho1).
    destruct (py_mul_one_owner h1 y r2 (extends_owner _ _ _ _ X1 Hoy)) as (e2 & h2 & E2 & X2 & Ho2).
    eexists _, h2. split.
    + simpl. unfold Process_add. simpl in E1.
      rewrite (bind_ok _ _ _ _ _ E1). rewrite (bind_ok _ _ _ _ _ E2).
      apply (ProcessExpr_add_expr_mismatch h2 e1 e2 r1 r2); [|exact Ho2|exact Hne].
      now apply (extends_owner h1).
    + pose proof (extends_trans _ _ _ X1 X2) as X. split; [exact X|]. now apply Hframe.
  - destruct y as [q|B].
    + eexists _, h. split.
      * simpl. now apply (ProcessExpr_add_process_mismatch h A q r1 r2).
      * split; [apply extends_refl|]. apply Hframe, extends_refl.
    + eexists _, h. split.
      * simpl. now apply (ProcessExpr_add_expr_mismatch h A B r1 r2).
      * split; [apply extends_refl|]. apply Hframe, extends_refl.
Qed.

(** C10: [p - p] is an expression without terms, and adding to or from an
    expression without terms raises [IndexError], from [_processes[0]]. *)
Theorem empty_expression_IndexError h :
  (forall p P,
     handle_at h p P ->
     exists e h',
       py_sub (VProcess p) (VProcess p) h = (Ok e, h')
       /\ exprs h' !! e = Some []
       /\ ProcessExpr_len e h' = (Ok 0, h')) /\
  (forall E x r,
     exprs h !! E = Some [] ->
     owner h x = Some r ->
     (exists h', py_add (VExpr E) x h = (Raise (IndexError "list index out of range"), h'))
     /\ (exists h', py_add x (VExpr E) h = (Raise (IndexError "list index out of range"), h'))
     /\ class_of (IndexError "list index out of range") <>
          class_of (ValueError "Combining two exprs from different processes classes")).
Proof.
  split.
  - intros p P Hp.
    pose proof (handle_plus_minus_itself h p P (-1) Hp) as E. cbv zeta in E.
    assert (Hz : (multiplier P * 1 + multiplier P * -1 =? 0) = true) by (apply Z.eqb_eq; lia).
    rewrite Hz in E.
    eexists _, _. split; [exact E|].
    assert (Hl : (exprs h ++ [[length (procs h)]; [S (length (procs h))]; []])
                   !! S (S (length (exprs h))) = Some []).
    { rewrite lookup_app_r by lia.
      replace (S (S (length (exprs h))) - length (exprs h))%nat with 2%nat by lia.
      reflexivity. }
    split; [exact Hl|].
    unfold ProcessExpr_len. now rewrite (bind_ok _ _ _ _ _ (load_expr_ok (mkHeap _ _ _) _ _ Hl)).
  - intros E x r HE Hox. split; [|split; [|discriminate]].
    + exists h. simpl. unfold ProcessExpr_add. apply bind_raise. destruct x as [q|B].
      * destruct (owner_process _ _ _ Hox) as (Q & Hq & HQ).
        rewrite (bind_ok _ _ _ _ _ (load_proc_ok _ _ _ Hq)).
        rewrite (bind_ok _ _ _ _ _ (load_expr_ok _ _ _ HE)).
        now rewrite (bind_raise _ _ _ _ _ (first_parent_empty h)).
      * destruct (owner_expr _ _ _ Hox) as (lb & b & pb & HB & Hhb & Hpb & Hrb).
        rewrite (bind_ok _ _ _ _ _ (load_expr_ok _ _ _ HB)).
        rewrite (bind_ok _ _ _ _ _ (first_parent_ok _ _ _ _ Hhb Hpb)).
        rewrite (bind_ok _ _ _ _ _ (load_expr_ok _ _ _ HE)).
        now rewrite (bind_raise _ _ _ _ _ (first_parent_empty h)).
    + assert (Hraise : forall h1 A, exprs h1 !! E = Some [] ->
                ProcessExpr_add A (VExpr E) h1 =
                  (Raise (IndexError "list index out of range"), h1)).
      { intros h1 A HE1. unfold ProcessExpr_add. apply bind_raise.
        rewrite (bind_ok _ _ _ _ _ (load_expr_ok _ _ _ HE1)).
        now rewrite (bind_raise _ _ _ _ _ (first_parent_empty h1)). }
      destruct x as [q|B].
      * destruct (owner_process _ _ _ Hox) as (Q & Hq & HQ).
        eexists. simpl. unfold Process_add.
        rewrite (bind_ok _ _ _ _ _ (Process_mul_ok h q Q 1 Hq)).
        set (h1 := mkHeap _ _ _).
        rewrite (bind_ok _ _ _ _ _ (eq_refl : py_mul (VExpr E) 1 h1 = (Ok E, h1))).
        apply Hraise. simpl. now apply lookup_app_l_Some.
      * exists h. simpl. now apply Hraise.
Qed.

(** * Subtracting an expression *)

Lemma ProcessExpr_neg_ok h E l :
  exprs h !! E = Some l -> NoDup l -> Forall (valid h) l ->
  exists h',
    ProcessExpr_neg E h = (Ok E, h')
    /\ exprs h' = exprs h /\ regs h' = regs h
    /\ length (procs h') = length (procs h)
    /\ (forall t p, In t l -> procs h !! t = Some p ->
          procs h' !! t = Some (mkProcess (_parent p) (index p) (- multiplier p)))
    /\ (forall t, ~ In t l -> procs h' !! t = procs h !! t).
Proof.
  intros HE Hnd Hv.
  destruct (update_loop_ok Z.opp l h Hnd Hv) as (h' & E' & He & Hr & Hlen & Hin & Hout).
  exists h'. split; [|auto].
  unfold ProcessExpr_neg. rewrite (bind_ok _ _ _ _ _ (load_expr_ok _ _ _ HE)).
  now rewrite (bind_ok _ _ _ _ _ E').
Qed.

Lemma coef_negated ps ps' l k :
  (forall t, In t l -> exists p, ps !! t = Some p
     /\ ps' !! t = Some (mkProcess (_parent p) (index p) (- multiplier p))) ->
  coef ps' l k = - coef ps l k.
Proof.
  induction l as [|a l IH]; simpl; [reflexivity|]. intros H.
  rewrite IH by (intros t Ht; apply H; now right).
  destruct (H a (or_introl eq_refl)) as (p & Hp & Hp').
  unfold term_coef. rewrite Hp, Hp'. unfold position at 1. simpl. fold (position p).
  destruct (pos_eqb (position p) k); lia.
Qed.

(** C8, as amended: for well-formed expressions [A] and [B] over one
    registry that share no term object, [A - B] negates [B] in place, which
    the caller who keeps [B] sees afterwards, and returns the sum of [A] and
    the negated [B]: the coefficient of every position is the difference. *)
Theorem ProcessExpr_sub_negates_in_place h A B la lb r :
  exprs h !! A = Some la -> exprs h !! B = Some lb ->
  well_formed (procs h) la -> well_formed (procs h) lb ->
  owner h (VExpr A) = Some r -> owner h (VExpr B) = Some r ->
  (forall t, In t la -> ~ In t lb) ->
  exists e h1 h' le,
    ProcessExpr_neg B h = (Ok B, h1)
    /\ ProcessExpr_add A (VExpr B) h1 = (Ok e, h')
    /\ py_sub (VExpr A) (VExpr B) h = (Ok e, h')
    /\ (forall t p, In t lb -> procs h !! t = Some p ->
          procs h' !! t = Some (mkProcess (_parent p) (index p) (- multiplier p)))
    /\ exprs h' !! B = Some lb
    /\ exprs h' !! e = Some le
    /\ (forall k, coef (procs h') le k = coef (procs h) la k - coef (procs h) lb k).
Proof.
  intros HA HB Hwa Hwb HoA HoB Hdis.
  destruct (ProcessExpr_neg_ok h B lb HB (well_formed_NoDup _ _ Hwb) (well_formed_valid _ _ Hwb))
    as (h1 & Eneg & He1 & Hr1 & Hlen1 & Hin1 & Hout1).
  assert (Hpos1 : forall a, pos_at (procs h1) a = pos_at (procs h) a).
  { intros a. unfold pos_at. destruct (in_dec Nat.eq_dec a lb) as [Hi|Hn].
    - destruct Hwb as [Hvb _]. rewrite Forall_forall in Hvb.
      destruct (Hvb a) as [p Hp]; [now apply list_elem_of_In|].
      now rewrite (Hin1 a p Hi Hp), Hp.
    - now rewrite Hout1. }
  assert (Hwa1 : well_formed (procs h1) la) by now apply (well_formed_ext (procs h)).
  assert (Hwb1 : well_formed (procs h1) lb) by now apply (well_formed_ext (procs h)).
  assert (Hown : forall x, owner h1 x = owner h x).
  { intros x. unfold owner.
    assert (Ht : terms_of h1 x = terms_of h x) by (destruct x; simpl; congruence).
    rewrite Ht. destruct (terms_of h x) as [[|a l]|]; try reflexivity.
    specialize (Hpos1 a). unfold pos_at in Hpos1.
    destruct (procs h1 !! a), (procs h !! a); simpl in *; try congruence.
    unfold position in Hpos1. congruence. }
  assert (HA1 : exprs h1 !! A = Some la) by congruence.
  assert (HB1 : exprs h1 !! B = Some lb) by congruence.
  destruct (ProcessExpr_add_expr_merges h1 A B la lb r HA1 HB1 Hwa1 Hwb1)
    as (h' & le & Eadd & Hle & Hwf & Hnz & Hcoef & Hregs & Hlen & Hpos & Hframe & Hexprs);
    try (rewrite Hown; assumption).
  exists (length (exprs h1)), h1, h', le.
  split; [exact Eneg|]. split; [exact Eadd|]. split.
  { simpl. unfold ProcessExpr_sub. simpl. now rewrite (bind_ok _ _ _ _ _ Eneg). }
  split.
  { intros t p Ht Hp. rewrite Hframe by (intros Hta; now apply (Hdis t)). now apply Hin1. }
  split.
  { rewrite Hexprs; [exact HB1| |now apply lookup_lt_Some in HB1].
    intros ->. destruct (owner_expr _ _ _ HoA) as (l & a & _ & Hl & Hhd & _).
    assert (l = la) by congruence. assert (l = lb) by congruence. subst.
    destruct lb as [|b lb]; [discriminate|]. apply (Hdis b); now left. }
  split; [exact Hle|].
  intros k. rewrite Hcoef.
  rewrite (coef_ext (procs h1) (procs h) la k).
  - rewrite (coef_negated (procs h) (procs h1) lb k); [lia|].
    intros t Ht. destruct Hwb as [Hvb _]. rewrite Forall_forall in Hvb.
    destruct (Hvb t) as [p Hp]; [now apply list_elem_of_In|]. exists p. split; [exact Hp|].
    now apply Hin1.
  - intros a Ha. apply Hout1. now apply Hdis.
Qed.

(** C8, as stated, fails when the two operands are one expression: [E - E]
    for [E = p * 1] leaves the term of [E] at multiplier -2, not -1, and
    returns that term, not the sum of [E] and a negated [E]. *)
Lemma subtracting_an_expression_from_itself :
  exists e h',
    py_sub (VExpr 0%nat) (VExpr 0%nat) (mkHeap [mkProcess 0%nat 0 1] [[0%nat]] [steel_coal])
      = (Ok e, h')
    /\ exprs h' !! 0%nat = Some [0%nat]
    /\ multiplier_at h' 0%nat = Some (-2)
    /\ multiplier_at h' 0%nat <> Some (-1).
Proof.
  eexists _, _. split; [reflexivity|]. split; [reflexivity|].
  split; [reflexivity|]. discriminate.
Qed.

(** * The produce matrix *)

Lemma py_position_nat n i : (i < n)%nat -> py_position n (Z.of_nat i) = Some i.
Proof.
  intros Hi. unfold py_position.
  assert (H1 : (Z.of_nat i <? 0) = false) by (apply Z.ltb_ge; lia).
  assert (H2 : (0 <=? Z.of_nat i) = true) by (apply Z.leb_le; lia).
  assert (H3 : (Z.of_nat i <? Z.of_nat n) = true) by (apply Z.ltb_lt; lia).
  rewrite H1, H2, H3. simpl. now rewrite Nat2Z.id.
Qed.

Lemma py_getitem_nat {A} (l : list A) i x h :
  l !! i = Some x -> py_getitem l (Z.of_nat i) h = (Ok x, h).
Proof.
  intros Hx. unfold py_getitem.
  rewrite py_position_nat by now apply lookup_lt_Some in Hx. now rewrite Hx.
Qed.

Lemma Process_array_ok h a r i rg d :
  handle_at h a (mkProcess r (Z.of_nat i) 1) ->
  regs h !! r = Some rg -> _processes rg !! i = Some d ->
  Process_array a h = (Ok (snd d), h).
Proof.
  intros Ha Hr Hd. unfold Process_array.
  rewrite (bind_ok _ _ _ _ _ (load_proc_ok _ _ _ Ha)). cbn [_parent index].
  rewrite (bind_ok _ _ _ _ _ (load_reg_ok _ _ _ Hr)).
  now rewrite (bind_ok _ _ _ _ _ (py_getitem_nat _ _ _ _ Hd)).
Qed.

Lemma Process_array_resize_ok h a r i rg d n :
  handle_at h a (mkProcess r (Z.of_nat i) 1) ->
  regs h !! r = Some rg -> _processes rg !! i = Some d ->
  Process_array_resize a (Z.of_nat n) h =
    (Ok tt, set_regs (fun rs => <[r := mkProcesses (<[i := resized n d]> (_processes rg))
                                                  (_process_produces rg)]> rs) h).
Proof.
  intros Ha Hr Hd. unfold Process_array_resize.
  rewrite (bind_ok _ _ _ _ _ (load_proc_ok _ _ _ Ha)). cbn [_parent index].
  rewrite (bind_ok _ _ _ _ _ (load_reg_ok _ _ _ Hr)).
  rewrite (bind_ok _ _ _ _ _ (py_getitem_nat _ _ _ _ Hd)).
  rewrite py_position_nat by now apply lookup_lt_Some in Hd.
  rewrite (store_reg_ok _ _ _ _ Hr). now rewrite Nat2Z.id.
Qed.

(** A comprehension [[f process for process in self]] whose [f] reads the
    definition at the handle's position: the handles of the enumeration are
    allocated, nothing else changes. *)
Lemma comp_in_self_read {B} (g : string * ndarray -> B) (f : addr -> M B) r rg :
  (forall h a i d,
     handle_at h a (mkProcess r (Z.of_nat i) 1) ->
     regs h !! r = Some rg -> _processes rg !! i = Some d ->
     f a h = (Ok (g d), h)) ->
  forall h, regs h !! r = Some rg ->
  exists ps,
    comp_in_self r f h = (Ok (map g (_processes rg)), set_procs (fun p => p ++ ps) h).
Proof.
  intros Hf h Hr. unfold comp_in_self, Processes_len.
  rewrite (bind_ok _ _ _ _ _ (bind_ok _ _ _ _ _ (load_reg_ok _ _ _ Hr))).
  unfold py_range. rewrite Nat2Z.id.
  assert (Hgen : forall cnt k h, regs h !! r = Some rg ->
            (k + cnt = length (_processes rg))%nat ->
            exists ps,
              list_comp (map Z.of_nat (seq k cnt))
                (fun i => let* process := Processes_getitem r (KInt i) in f process) h
              = (Ok (map g (drop k (_processes rg))), set_procs (fun p => p ++ ps) h)).
  { clear h Hr. induction cnt as [|cnt IH]; intros k h Hr Hk.
    - exists []. simpl. rewrite drop_ge by lia. unfold ret, set_procs. simpl.
      rewrite app_nil_r. now destruct h.
    - destruct (lookup_lt_is_Some_2 (_processes rg) k) as [d Hd]; [lia|].
      set (h1 := set_procs (fun ps => ps ++ [mkProcess r (Z.of_nat k) 1]) h).
      destruct (IH (S k) h1 Hr ltac:(lia)) as (ps & E).
      exists (mkProcess r (Z.of_nat k) 1 :: ps). cbn [seq map list_comp].
      assert (Hget : Processes_getitem r (KInt (Z.of_nat k)) h = (Ok (length (procs h)), h1)).
      { rewrite (Processes_getitem_int _ _ _ _ Hr).
        assert (Hlt : (Z.of_nat k <? Z.of_nat (length (_processes rg))) = true)
          by (apply Z.ltb_lt; lia).
        now rewrite Hlt. }
      assert (Hat : handle_at h1 (length (procs h)) (mkProcess r (Z.of_nat k) 1)).
      { unfold handle_at. simpl. now apply list_lookup_middle. }
      erewrite bind_ok; cycle 1.
      { rewrite (bind_ok _ _ _ _ _ Hget). apply (Hf h1 _ k d Hat Hr Hd). }
      rewrite (bind_ok _ _ _ _ _ E). unfold ret.
      rewrite (drop_S _ _ _ Hd). simpl. unfold set_procs. simpl.
      now rewrite <- app_assoc. }
  destruct (Hgen (length (_processes rg)) 0%nat h Hr ltac:(lia)) as (ps & E).
  exists ps. now rewrite drop_0 in E.
Qed.

(** The loop [for process in self: process.array.resize(n)]: every
    definition's vector is resized in place. *)
Lemma resize_loop_ok r n : forall cnt k h defs cache,
  regs h !! r = Some (mkProcesses defs cache) ->
  (k + cnt = length defs)%nat ->
  exists ps,
    for_each (map Z.of_nat (seq k cnt))
      (fun i => let* process := Processes_getitem r (KInt i) in
                Process_array_resize process (Z.of_nat n)) h
    = (Ok tt,
       mkHeap (procs h ++ ps) (exprs h)
              (<[r := mkProcesses (take k defs ++ map (resized n) (drop k defs)) cache]>
                 (regs h))).
Proof.
  induction cnt as [|cnt IH]; intros k h defs cache Hr Hk.
  - exists []. simpl. rewrite drop_ge by lia. rewrite take_ge by lia. simpl.
    rewrite !app_nil_r. unfold ret. rewrite (list_insert_id _ _ _ Hr). now destruct h.
  - destruct (lookup_lt_is_Some_2 defs k) as [d Hd]; [lia|].
    set (h1 := set_procs (fun ps => ps ++ [mkProcess r (Z.of_nat k) 1]) h).
    assert (Hget : Processes_getitem r (KInt (Z.of_nat k)) h = (Ok (length (procs h)), h1)).
    { rewrite (Processes_getitem_int _ _ _ _ Hr). cbn [_processes].
      assert (Hlt : (Z.of_nat k <? Z.of_nat (length defs)) = true) by (apply Z.ltb_lt; lia).
      now rewrite Hlt. }
    assert (Hat : handle_at h1 (length (procs h)) (mkProcess r (Z.of_nat k) 1)).
    { unfold handle_at. simpl. now apply list_lookup_middle. }
    set (defs1 := <[k := resized n d]> defs).
    set (h2 := set_regs (fun rs => <[r := mkProcesses defs1 cache]> rs) h1).
    assert (Hr2 : regs h2 !! r = Some (mkProcesses defs1 cache)).
    { simpl. apply list_lookup_insert_eq. now apply lookup_lt_Some in Hr. }
    destruct (IH (S k) h2 defs1 cache Hr2) as (ps & E).
    { unfold defs1. rewrite length_insert. lia. }
    exists (mkProcess r (Z.of_nat k) 1 :: ps). cbn [seq map for_each].
    erewrite bind_ok; cycle 1.
    { rewrite (bind_ok _ _ _ _ _ Hget).
      apply (Process_array_resize_ok h1 _ r k (mkProcesses defs cache) d n Hat Hr Hd). }
    cbn [_processes _process_produces]. fold defs1. fold h2. rewrite E.
    f_equal. simpl. f_equal.
    + now rewrite <- app_assoc.
    + rewrite list_insert_insert_eq. do 2 f_equal. unfold defs1.
      rewrite (drop_S defs d k Hd). cbn [map].
      rewrite take_insert_lt by lia. rewrite (take_S_r defs k d Hd).
      rewrite insert_app_r_alt by (rewrite length_take; lia).
      rewrite length_take_le by lia. rewrite Nat.sub_diag. cbn [insert list_insert].
      rewrite drop_insert_lt by lia. now rewrite <- app_assoc.
Qed.
Lemma np_resize_length a n : length (np_resize a n) = n.
Proof. unfold np_resize. rewrite length_app, length_take, length_replicate. lia. Qed.

Lemma resized_padded n d : (length (snd d) <= n)%nat -> resized n d = padded n d.
Proof. intros H. unfold resized, padded, np_resize. now rewrite take_ge. Qed.

Lemma np_array_uniform n (rows : list (list float)) h :
  Forall (fun r => length r = n) rows -> np_array rows h = (Ok rows, h).
Proof.
  intros H. unfold np_array. destruct rows as [|r rows]; [reflexivity|].
  assert (Hall : forallb (fun r' => (length r' =? length r)%nat) (r :: rows) = true).
  { apply forallb_forall. intros r' Hr'. apply Nat.eqb_eq.
    rewrite Forall_forall in H. rewrite (H r'), (H r); [reflexivity|left|now apply list_elem_of_In]. }
  now rewrite Hall.
Qed.

(** The entries of the transpose of [rows], vectors of length [n]. *)
Lemma np_transpose_lookup n (rows : list (list float)) i j col :
  rows <> [] -> Forall (fun r => length r = n) rows ->
  (i < n)%nat -> rows !! j = Some col ->
  length (np_transpose rows) = n
  /\ exists row, np_transpose rows !! i = Some row
       /\ length row = length rows /\ row !! j = col !! i.
Proof.
  intros Hne Hall Hi Hj. destruct rows as [|r rows]; [congruence|].
  assert (Hr : length r = n) by now inversion Hall.
  unfold np_transpose. rewrite Hr. split; [now rewrite length_map, length_seq|].
  exists (map (fun row => nth i row 0%float) (r :: rows)). split; [|split].
  - rewrite list_lookup_fmap, lookup_seq_lt by exact Hi. reflexivity.
  - now rewrite length_map.
  - rewrite list_lookup_fmap, Hj. simpl.
    assert (Hc : length col = n).
    { rewrite Forall_forall in Hall. apply Hall. eapply list_elem_of_lookup_2. exact Hj. }
    destruct (lookup_lt_is_Some_2 col i) as [v Hv]; [lia|].
    rewrite Hv. f_equal. now apply nth_lookup_Some with (d := 0%float) in Hv.
Qed.

(** The first access to the produce matrix, from the code. *)
Lemma process_produces_first h r defs :
  regs h !! r = Some (mkProcesses defs None) -> defs <> [] ->
  exists mx ps,
    (forall d, In d defs -> (length (snd d) <= mx)%nat)
    /\ (exists d, In d defs /\ length (snd d) = mx)
    /\ Processes_process_produces r h =
         (Ok (np_transpose (map snd (map (padded mx) defs))),
          mkHeap (procs h ++ ps) (exprs h)
                 (<[r := mkProcesses (map (padded mx) defs)
                          (Some (np_transpose (map snd (map (padded mx) defs))))]> (regs h))).
Proof.
  intros Hr Hne.
  set (lenZ := fun d : string * list float => Z.of_nat (length (snd d))).
  destruct defs as [|d0 rest] eqn:Hdefs; [congruence|]. rewrite <- Hdefs in *.
  set (mxZ := fold_left Z.max (map lenZ rest) (lenZ d0)).
  set (mx := Z.to_nat mxZ).
  assert (Hmx0 : 0 <= mxZ).
  { pose proof (fold_left_max_ge (map lenZ rest) (lenZ d0)). unfold mxZ, lenZ in *. lia. }
  assert (Hbound : forall d, In d defs -> (length (snd d) <= mx)%nat).
  { intros d Hd. rewrite Hdefs in Hd. assert (Hb : lenZ d <= mxZ).
    { destruct Hd as [<-|Hd]; [apply fold_left_max_ge|].
      apply fold_left_max_bound. now apply (in_map lenZ). }
    unfold lenZ in Hb. lia. }
  assert (Hwit : exists d, In d defs /\ length (snd d) = mx).
  { rewrite Hdefs.
    destruct (fold_left_max_in (map lenZ rest) (lenZ d0)) as [Hm|Hm]; fold mxZ in Hm.
    - exists d0. split; [now left|]. unfold lenZ in Hm. lia.
    - apply in_map_iff in Hm as (d & Hd & Hin). exists d. split; [now right|].
      unfold lenZ in Hd. lia. }
  assert (Hres : map (resized mx) defs = map (padded mx) defs).
  { apply map_ext_in. intros d Hd. apply resized_padded. now apply Hbound. }
  exists mx.
  (* the lengths *)
  destruct (comp_in_self_read lenZ
              (fun process => let* a := Process_array process in ret (Z.of_nat (length a)))
              r (mkProcesses defs None)) with (h := h) as (ps1 & E1); [|exact Hr|].
  { intros h0 a i d Ha Hr0 Hd. now rewrite (bind_ok _ _ _ _ _ (Process_array_ok _ _ _ _ _ _ Ha Hr0 Hd)). }
  cbn [_processes] in E1.
  set (h1 := set_procs (fun p => p ++ ps1) h) in E1.
  assert (Hr1 : regs h1 !! r = Some (mkProcesses defs None)) by exact Hr.
  (* the resizes *)
  destruct (resize_loop_ok r mx (length defs) 0 h1 defs None Hr1 eq_refl) as (ps2 & E2).
  rewrite take_0, drop_0 in E2. cbn [app] in E2. rewrite Hres in E2.
  set (defs2 := map (padded mx) defs) in *.
  set (h2 := mkHeap (procs h1 ++ ps2) (exprs h1)
                    (<[r := mkProcesses defs2 None]> (regs h1))) in E2.
  assert (Hr2 : regs h2 !! r = Some (mkProcesses defs2 None)).
  { simpl. apply list_lookup_insert_eq. now apply lookup_lt_Some in Hr. }
  assert (E2' : for_in_self r (fun process => Process_array_resize process mxZ) h1 = (Ok tt, h2)).
  { unfold for_in_self, Processes_len.
    rewrite (bind_ok _ _ _ _ _ (bind_ok _ _ _ _ _ (load_reg_ok _ _ _ Hr1))).
    cbn [_processes]. unfold py_range. rewrite Nat2Z.id.
    replace mxZ with (Z.of_nat mx) by (unfold mx; lia). exact E2. }
  (* the columns *)
  destruct (comp_in_self_read snd Process_array r (mkProcesses defs2 None)) with (h := h2)
    as (ps3 & E3); [|exact Hr2|].
  { intros h0 a i d Ha Hr0 Hd. exact (Process_array_ok _ _ _ _ _ _ Ha Hr0 Hd). }
  cbn [_processes] in E3.
  set (h3 := set_procs (fun p => p ++ ps3) h2) in E3.
  assert (Hr3 : regs h3 !! r = Some (mkProcesses defs2 None)) by exact Hr2.
  assert (Huni : Forall (fun c : list float => length c = mx) (map snd defs2)).
  { apply Forall_forall. intros c Hc. apply list_elem_of_In in Hc.
    rewrite <- Hres in Hc.
    apply in_map_iff in Hc as (d & <- & Hd). apply in_map_iff in Hd as (d' & <- & _).
    apply np_resize_length. }
  exists (ps1 ++ ps2 ++ ps3). split; [exact Hbound|]. split; [exact Hwit|].
  unfold Processes_process_produces.
  rewrite (bind_ok _ _ _ _ _ (load_reg_ok _ _ _ Hr)). cbn [_process_produces].
  erewrite bind_ok; cycle 1.
  { rewrite (bind_ok _ _ _ _ _ E1).
    assert (Emax : py_max (map lenZ defs) h1 = (Ok mxZ, h1)) by now rewrite Hdefs.
    rewrite (bind_ok _ _ _ _ _ Emax).
    rewrite (bind_ok _ _ _ _ _ E2').
    rewrite (bind_ok _ _ _ _ _ E3).
    rewrite (bind_ok _ _ _ _ _ (np_array_uniform mx _ h3 Huni)).
    rewrite (bind_ok _ _ _ _ _ (load_reg_ok _ _ _ Hr3)).
    apply (store_reg_ok _ _ _ _ Hr3). }
  cbn [_processes].
  set (h4 := set_regs _ h3).
  assert (Hr4 : regs h4 !! r = Some (mkProcesses defs2 (Some (np_transpose (map snd defs2))))).
  { simpl. rewrite list_insert_insert_eq. apply list_lookup_insert_eq.
    now apply lookup_lt_Some in Hr. }
  rewrite (bind_ok _ _ _ _ _ (load_reg_ok _ _ _ Hr4)). cbn [_process_produces].
  unfold of_option, h4, h3, h2, h1, set_regs, set_procs. cbn [procs exprs regs].
  rewrite list_insert_insert_eq. now rewrite <- !app_assoc.
Qed.

(** A later access returns the cached array and touches nothing. *)
Lemma process_produces_cached h r rg m :
  regs h !! r = Some rg -> _process_produces rg = Some m ->
  Processes_process_produces r h = (Ok m, h).
Proof.
  intros Hr Hm. unfold Processes_process_produces.
  rewrite (bind_ok _ _ _ _ _ (load_reg_ok _ _ _ Hr)). rewrite Hm.
  rewrite (bind_ok _ _ _ _ _ (eq_refl : ret tt h = (Ok tt, h))).
  rewrite (bind_ok _ _ _ _ _ (load_reg_ok _ _ _ Hr)). now rewrite Hm.
Qed.
(** C1: the first access to the produce matrix of a non-empty registry pads
    every stored vector in place with trailing zeros to the maximum vector
    length, and returns the array whose entry at row [i] and column [j] is
    entry [i] of the padded vector of definition [j]; the array is cached,
    and every later access returns it, whatever the registry holds by then,
    also after a call of [create], which adds a definition when float64 can
    hold the quantities. *)
Theorem process_produces_spec h r defs :
  regs h !! r = Some (mkProcesses defs None) -> defs <> [] ->
  exists mx m h',
    (forall d, In d defs -> (length (snd d) <= mx)%nat)
    /\ (exists d, In d defs /\ length (snd d) = mx)
    /\ Processes_process_produces r h = (Ok m, h')
    /\ regs h' = <[r := mkProcesses (map (padded mx) defs) (Some m)]> (regs h)
    /\ length m = mx
    /\ (forall i j d, (i < mx)%nat -> defs !! j = Some d ->
          exists row, m !! i = Some row /\ length row = length defs
                      /\ row !! j = snd (padded mx d) !! i)
    /\ Processes_process_produces r h' = (Ok m, h')
    /\ (forall h2 rg2, regs h2 !! r = Some rg2 -> _process_produces rg2 = Some m ->
          Processes_process_produces r h2 = (Ok m, h2))
    /\ (forall name resources, resources <> [] ->
          exists out h2 rg2,
            Processes_create r name resources h' = (out, h2)
            /\ regs h2 !! r = Some rg2
            /\ (all_fit resources ->
                  exists a, out = Ok a /\ length (_processes rg2) = S (length defs))
            /\ Processes_process_produces r h2 = (Ok m, h2)).
Proof.
  intros Hr Hne.
  destruct (process_produces_first h r defs Hr Hne) as (mx & ps & Hbound & Hwit & E).
  set (cols := map snd (map (padded mx) defs)) in *.
  set (m := np_transpose cols) in *.
  set (h' := mkHeap _ _ _) in E.
  assert (Hr' : regs h' !! r = Some (mkProcesses (map (padded mx) defs) (Some m))).
  { simpl. apply list_lookup_insert_eq. now apply lookup_lt_Some in Hr. }
  assert (Hcols : Forall (fun c : list float => length c = mx) cols).
  { apply Forall_forall. intros c Hc. apply list_elem_of_In in Hc.
    apply in_map_iff in Hc as (d & <- & Hd). apply in_map_iff in Hd as (d' & <- & Hd').
    unfold padded. simpl. rewrite length_app, length_replicate.
    specialize (Hbound d' Hd'). lia. }
  assert (Hcne : cols <> []).
  { unfold cols. destruct defs; [congruence|discriminate]. }
  exists mx, m, h'.
  split; [exact Hbound|]. split; [exact Hwit|]. split; [exact E|]. split; [reflexivity|].
  split.
  { destruct Hwit as (d & Hd & Hlen).
    destruct (proj1 (list_elem_of_lookup defs d)) as [j Hj]; [now apply list_elem_of_In|].
    assert (Hcol : cols !! j = Some (snd (padded mx d))).
    { unfold cols. now rewrite !list_lookup_fmap, Hj. }
    destruct defs as [|d0 rest]; [congruence|].
    destruct cols as [|c0 cols'] eqn:Ec; [congruence|].
    unfold m, np_transpose. rewrite length_map, length_seq.
    now inversion Hcols. }
  split.
  { intros i j d Hi Hj.
    assert (Hcol : cols !! j = Some (snd (padded mx d))).
    { unfold cols. now rewrite !list_lookup_fmap, Hj. }
    destruct (np_transpose_lookup mx cols i j _ Hcne Hcols Hi Hcol) as (_ & row & Hrow & Hlen & Hent).
    exists row. split; [exact Hrow|]. split; [|exact Hent].
    rewrite Hlen. unfold cols. now rewrite !length_map. }
  split; [now apply (process_produces_cached h' r _ m Hr')|].
  split; [intros h2 rg2; apply process_produces_cached|].
  intros name resources Hres.
  destruct (List.Forall_dec (fun item : Resource.t * number => fits_float64 (snd item) = true)
              (fun item => bool_dec (fits_float64 (snd item)) true) resources) as [Hfit|Hbad].
  - rewrite (Processes_create_ok h' r _ name resources Hres Hfit Hr').
    cbn [_processes _process_produces].
    eexists _, _, _. split; [reflexivity|].
    assert (Hr2 : forall ps2 es2 rg2,
              (mkHeap ps2 es2 (<[r := rg2]> (regs h'))).(regs) !! r = Some rg2).
    { intros. simpl. rewrite list_insert_insert_eq. apply list_lookup_insert_eq.
      now apply lookup_lt_Some in Hr. }
    split; [apply Hr2|]. split.
    { intros _. eexists. split; [reflexivity|].
      cbn [_processes]. rewrite length_app, !length_map. simpl. lia. }
    eapply process_produces_cached; [apply Hr2|reflexivity].
  - rewrite (Processes_create_overflow h' r name resources Hbad).
    eexists _, _, _. split; [reflexivity|]. split; [exact Hr'|].
    split; [intros Hfit; now destruct Hbad|].
    now apply (process_produces_cached h' r _ m Hr').
Qed.

Lemma process_produces_spec_witness :
  exists m h',
    Processes_process_produces 0%nat heap_steel_coal = (Ok m, h')
    /\ m = [[2; 0]; [0; 3]]%float
    /\ regs h' = [mkProcesses [("Steel", [2; 0]%float); ("Coal", [0; 3]%float)] (Some m)].
Proof.
  destruct (process_produces_spec heap_steel_coal 0%nat [("Steel", [2]); ("Coal", [0; 3])]%float)
    as (mx & m & h' & _ & _ & E & Hregs & _); [reflexivity|discriminate|].
  exists m, h'. split; [exact E|].
  assert (E' : Processes_process_produces 0%nat heap_steel_coal
               = (Ok [[2; 0]; [0; 3]]%float,
                  mkHeap (procs h') [] [mkProcesses [("Steel", [2; 0]%float); ("Coal", [0; 3]%float)]
                                                    (Some [[2; 0]; [0; 3]]%float)])).
  { rewrite E. vm_compute in E. injection E as <- <-. reflexivity. }
  rewrite E in E'. injection E' as -> ->. split; reflexivity.
Defined.

(** * The theorems at concrete stores *)

Lemma different_registries_ValueError_witness :
  exists msg h',
    py_add (VProcess 0%nat) (VProcess 1%nat) heap_two_registries = (Raise (ValueError msg), h')
    /\ extends heap_two_registries h'.
Proof.
  destruct (different_registries_ValueError heap_two_registries
              (VProcess 0%nat) (VProcess 1%nat) 0%nat 1%nat)
    as (msg & h' & E & X & _).
  - reflexivity.
  - reflexivity.
  - discriminate.
  - exists msg, h'. auto.
Defined.


Lemma ProcessExpr_sub_negates_in_place_witness :
  exists e h',
    py_sub (VExpr 0%nat) (VExpr 1%nat) heap_two_exprs = (Ok e, h')
    /\ procs h' !! 1%nat = Some (mkProcess 0%nat 1 (-3)).
Proof.
  destruct (ProcessExpr_sub_negates_in_place heap_two_exprs 0%nat 1%nat [0%nat] [1%nat] 0%nat)
    as (e & h1 & h' & le & _ & _ & E & Hneg & _).
  - reflexivity.
  - reflexivity.
  - apply well_formed_singleton. simpl. eauto.
  - apply well_formed_singleton. simpl. eauto.
  - reflexivity.
  - reflexivity.
  - intros t [<-|[]] [H|[]]. discriminate.
  - exists e, h'. split; [exact E|].
    apply (Hneg 1%nat (mkProcess 0%nat 1 3)); [now left|reflexivity].
Defined.

Lemma empty_expression_IndexError_witness :
  (exists h', py_add (VExpr 0%nat) (VProcess 0%nat) heap_empty_expr
                = (Raise (IndexError "list index out of range"), h'))
  /\ (exists h', py_add (VProcess 0%nat) (VExpr 0%nat) heap_empty_expr
                = (Raise (IndexError "list index out of range"), h')).
Proof.
  destruct (empty_expression_IndexError heap_empty_expr) as [_ H].
  destruct (H 0%nat (VProcess 0%nat) 0%nat) as (H1 & H2 & _).
  - reflexivity.
  - reflexivity.
  - split; [exact H1|exact H2].
Defined.

(** * Further properties of handles *)



Lemma same_position_intro ps a b p q :
  ps !! a = Some p -> ps !! b = Some q -> position p = position q ->
  same_position ps a b = true.
Proof.
  intros Ha Hb Hpos. unfold same_position. rewrite Ha, Hb.
  unfold position in Hpos. injection Hpos as -> ->.
  now rewrite Z.eqb_refl, Nat.eqb_refl.
Qed.

(** X2: handle equality ignores the multiplier: the term of [p * k] is a
    different object from [p], with another multiplier, and compares equal
    to [p]. *)
Theorem scaled_copy_equals_original h p P k :
  handle_at h p P ->
  exists h',
    (let* e := Process_mul p k in
     let* t := ProcessExpr_getitem e 0 in
     let* b := Process_eq t p in
     ret (t, b)) h = (Ok (length (procs h), true), h')
    /\ procs h !! length (procs h) = None
    /\ multiplier_at h' (length (procs h)) = Some (multiplier P * k).
Proof.
  intros Hp. eexists.
  rewrite (bind_ok _ _ _ _ _ (Process_mul_ok h p P k Hp)).
  set (h1 := mkHeap _ _ _).
  assert (He : exprs h1 !! length (exprs h) = Some [length (procs h)])
    by (simpl; now apply list_lookup_middle).
  assert (Ht : procs h1 !! length (procs h)
               = Some (mkProcess (_parent P) (index P) (multiplier P * k)))
    by (simpl; now apply list_lookup_middle).
  assert (Hp1 : procs h1 !! p = Some P) by (simpl; now apply lookup_app_l_Some).
  assert (Eget : ProcessExpr_getitem (length (exprs h)) 0 h1 = (Ok (length (procs h)), h1)).
  { unfold ProcessExpr_getitem. now rewrite (bind_ok _ _ _ _ _ (load_expr_ok _ _ _ He)). }
  rewrite (bind_ok _ _ _ _ _ Eget).
  assert (Eeq : Process_eq (length (procs h)) p h1 = (Ok true, h1)).
  { assert (Hs : same_position (procs h1) (length (procs h)) p = true).
    { now apply (same_position_intro _ _ _ _ _ Ht Hp1). }
    rewrite Process_eq_ok by (unfold valid; eauto). now rewrite Hs. }
  rewrite (bind_ok _ _ _ _ _ Eeq). split; [reflexivity|].
  split; [now apply lookup_ge_None_2|].
  change (multiplier_at h1 (length (procs h)) = Some (multiplier P * k)).
  unfold multiplier_at. now rewrite Ht.
Qed.

Lemma scaled_copy_equals_original_witness :
  exists h',
    (let* e := Process_mul 0%nat 5 in
     let* t := ProcessExpr_getitem e 0 in
     let* b := Process_eq t 0%nat in
     ret (t, b)) heap_empty_expr = (Ok (1%nat, true), h').
Proof.
  destruct (scaled_copy_equals_original heap_empty_expr 0%nat (mkProcess 0%nat 0 1) 5)
    as (h' & E & _); [reflexivity|].
  exists h'. exact E.
Defined.
(** * Further properties of the registry *)

Lemma Processes_contains_ok h r rg a P :
  regs h !! r = Some rg -> handle_at h a P ->
  Processes_contains r a h =
    (Ok ((0 <=? index P) && (index P <? Z.of_nat (length (_processes rg)))
         && (_parent P =? r)%nat), h).
Proof.
  intros Hr Ha. unfold Processes_contains, Processes_len.
  rewrite (bind_ok _ _ _ _ _ (load_proc_ok _ _ _ Ha)).
  rewrite (bind_ok _ _ _ _ _ (bind_ok _ _ _ _ _ (load_reg_ok _ _ _ Hr))).
  now destruct (_ && _).
Qed.

(** X3: a handle is a member of a registry exactly when its index is within
    [[0, count)] and its parent is that very registry; so the handle a
    positional lookup within range returns is a member, and no handle of
    another registry is, whatever its index. *)
Theorem Processes_contains_spec h r rg :
  regs h !! r = Some rg ->
  (forall a P, handle_at h a P ->
     exists b, Processes_contains r a h = (Ok b, h)
       /\ (b = true <->
           0 <= index P < Z.of_nat (length (_processes rg)) /\ _parent P = r)) /\
  (forall i, 0 <= i < Z.of_nat (length (_processes rg)) ->
     exists a h', Processes_getitem r (KInt i) h = (Ok a, h')
       /\ Processes_contains r a h' = (Ok true, h')) /\
  (forall r' rg' i, r' <> r -> regs h !! r' = Some rg' ->
     i < Z.of_nat (length (_processes rg')) ->
     exists a h', Processes_getitem r' (KInt i) h = (Ok a, h')
       /\ Processes_contains r a h' = (Ok false, h')).
Proof.
  intros Hr. split; [|split].
  - intros a P Ha. eexists. split; [exact (Processes_contains_ok h r rg a P Hr Ha)|].
    rewrite !andb_true_iff, Z.leb_le, Z.ltb_lt, Nat.eqb_eq. tauto.
  - intros i [Hi0 Hi]. rewrite (Processes_getitem_int _ _ _ _ Hr).
    apply Z.ltb_lt in Hi. rewrite Hi. eexists _, _. split; [reflexivity|].
    set (h1 := set_procs _ h).
    assert (Ha : handle_at h1 (length (procs h)) (mkProcess r i 1))
      by (unfold handle_at; simpl; now apply list_lookup_middle).
    rewrite (Processes_contains_ok h1 r rg _ _ Hr Ha). cbn [index _parent].
    apply Z.leb_le in Hi0. rewrite Hi0, Hi, Nat.eqb_refl. reflexivity.
  - intros r' rg' i Hne Hr' Hi. rewrite (Processes_getitem_int _ _ _ _ Hr').
    apply Z.ltb_lt in Hi. rewrite Hi. eexists _, _. split; [reflexivity|].
    set (h1 := set_procs _ h).
    assert (Ha : handle_at h1 (length (procs h)) (mkProcess r' i 1))
      by (unfold handle_at; simpl; now apply list_lookup_middle).
    rewrite (Processes_contains_ok h1 r rg _ _ Hr Ha). cbn [index _parent].
    apply Nat.eqb_neq in Hne. rewrite Hne. now rewrite andb_false_r.
Qed.

Lemma Processes_contains_spec_witness :
  (exists a h', Processes_getitem 0%nat (KInt 1) heap_two_registries = (Ok a, h')
     /\ Processes_contains 0%nat a h' = (Ok true, h'))
  /\ (exists a h', Processes_getitem 1%nat (KInt 1) heap_two_registries = (Ok a, h')
     /\ Processes_contains 0%nat a h' = (Ok false, h')).
Proof.
  destruct (Processes_contains_spec heap_two_registries 0%nat steel_coal) as (_ & H1 & H2);
    [reflexivity|].
  split.
  - apply (H1 1). simpl. lia.
  - apply (H2 1%nat steel_coal 1); [discriminate|reflexivity|simpl; lia].
Defined.

(** Python list indexing: from the start for [0 <= i < len], from the end
    for [-len <= i < 0], [IndexError] elsewhere. *)
Lemma py_getitem_spec {A} (l : list A) i h :
  (0 <= i < Z.of_nat (length l) ->
     exists x, l !! Z.to_nat i = Some x /\ py_getitem l i h = (Ok x, h)) /\
  (- Z.of_nat (length l) <= i < 0 ->
     exists x, l !! Z.to_nat (Z.of_nat (length l) + i) = Some x
               /\ py_getitem l i h = (Ok x, h)) /\
  (Z.of_nat (length l) <= i \/ i < - Z.of_nat (length l) ->
     py_getitem l i h = (Raise (IndexError "list index out of range"), h)).
Proof.
  unfold py_getitem, py_position. split; [|split].
  - intros [H0 H1].
    destruct (lookup_lt_is_Some_2 l (Z.to_nat i)) as [x Hx]; [lia|]. exists x.
    split; [exact Hx|].
    assert (E1 : (i <? 0) = false) by (apply Z.ltb_ge; lia).
    assert (E2 : (0 <=? i) = true) by (apply Z.leb_le; lia).
    assert (E3 : (i <? Z.of_nat (length l)) = true) by (apply Z.ltb_lt; lia).
    rewrite E1, E2, E3. simpl. now rewrite Hx.
  - intros [H0 H1].
    destruct (lookup_lt_is_Some_2 l (Z.to_nat (Z.of_nat (length l) + i))) as [x Hx]; [lia|].
    exists x. split; [exact Hx|].
    assert (E1 : (i <? 0) = true) by (apply Z.ltb_lt; lia).
    assert (E2 : (0 <=? i + Z.of_nat (length l)) = true) by (apply Z.leb_le; lia).
    assert (E3 : (i + Z.of_nat (length l) <? Z.of_nat (length l)) = true)
      by (apply Z.ltb_lt; lia).
    rewrite E1, E2, E3. simpl. rewrite Z.add_comm. now rewrite Hx.
  - intros [H|H].
    + assert (E1 : (i <? 0) = false) by (apply Z.ltb_ge; lia).
      assert (E3 : (i <? Z.of_nat (length l)) = false) by (apply Z.ltb_ge; lia).
      rewrite E1, E3. now rewrite andb_false_r.
    + assert (E1 : (i <? 0) = true) by (apply Z.ltb_lt; lia).
      assert (E2 : (0 <=? i + Z.of_nat (length l)) = false) by (apply Z.leb_gt; lia).
      now rewrite E1, E2.
Qed.

Lemma Process_accessors_ok h a P rg d :
  handle_at h a P -> regs h !! _parent P = Some rg ->
  py_getitem (_processes rg) (index P) h = (Ok d, h) ->
  Process_name a h = (Ok (fst d), h) /\ Process_array a h = (Ok (snd d), h).
Proof.
  intros Ha Hr Hd. unfold Process_name, Process_array.
  rewrite !(bind_ok _ _ _ _ _ (load_proc_ok _ _ _ Ha)).
  rewrite !(bind_ok _ _ _ _ _ (load_reg_ok _ _ _ Hr)).
  now rewrite !(bind_ok _ _ _ _ _ Hd).
Qed.

(** X4: the name and the vector of a handle are read from the registry at
    the handle's index as Python indexes a list: a handle with a negative
    index down to [-count] reads from the end (so [processes[-1].name] is
    the last name), and a handle whose index is at or beyond [count], or
    below [-count], raises [IndexError] on both accessors. *)
Theorem Process_name_array_bounds h a P rg :
  handle_at h a P ->
  regs h !! _parent P = Some rg ->
  let n := Z.of_nat (length (_processes rg)) in
  (0 <= index P < n ->
     exists d, _processes rg !! Z.to_nat (index P) = Some d
       /\ Process_name a h = (Ok (fst d), h) /\ Process_array a h = (Ok (snd d), h)) /\
  (- n <= index P < 0 ->
     exists d, _processes rg !! Z.to_nat (n + index P) = Some d
       /\ Process_name a h = (Ok (fst d), h) /\ Process_array a h = (Ok (snd d), h)) /\
  (n <= index P \/ index P < - n ->
     Process_name a h = (Raise (IndexError "list index out of range"), h)
     /\ Process_array a h = (Raise (IndexError "list index out of range"), h)).
Proof.
  intros Ha Hr n.
  destruct (py_getitem_spec (_processes rg) (index P) h) as (H1 & H2 & H3).
  pose proof (fun d => Process_accessors_ok h a P rg d Ha Hr) as Hrun.
  split; [|split].
  - intros Hi. destruct (H1 Hi) as (d & Hd & E). exists d. split; [exact Hd|]. now apply Hrun.
  - intros Hi. destruct (H2 Hi) as (d & Hd & E). exists d. split; [exact Hd|]. now apply Hrun.
  - intros Hi. specialize (H3 Hi). unfold Process_name, Process_array.
    rewrite !(bind_ok _ _ _ _ _ (load_proc_ok _ _ _ Ha)).
    rewrite !(bind_ok _ _ _ _ _ (load_reg_ok _ _ _ Hr)).
    now rewrite !(bind_raise _ _ _ _ _ H3).
Qed.

Lemma Process_name_array_bounds_witness :
  Process_name 0%nat (mkHeap [mkProcess 0%nat (-1) 1] [] [steel_coal])
    = (Ok "Coal", mkHeap [mkProcess 0%nat (-1) 1] [] [steel_coal]).
Proof.
  destruct (Process_name_array_bounds (mkHeap [mkProcess 0%nat (-1) 1] [] [steel_coal])
              0%nat (mkProcess 0%nat (-1) 1) steel_coal eq_refl eq_refl) as (_ & H & _).
  destruct H as (d & Hd & E & _); [simpl; lia|].
  simpl in Hd. injection Hd as <-. exact E.
Defined.
(** * Bulk definition, enumeration and round trips *)

Lemma list_comp_app_raise {A B} (f : A -> M B) l1 x l2 h ys h1 e h2 :
  list_comp l1 f h = (Ok ys, h1) -> f x h1 = (Raise e, h2) ->
  list_comp (l1 ++ x :: l2) f h = (Raise e, h2).
Proof.
  revert h ys. induction l1 as [|a l1 IH]; intros h ys E1 E2; simpl in *.
  - injection E1 as <- <-. now rewrite (bind_raise _ _ _ _ _ E2).
  - unfold bind in E1. destruct (f a h) as [[y| |] h'] eqn:Ef; try discriminate.
    destruct (list_comp l1 f h') as [[ys'| |] h''] eqn:El; try discriminate.
    unfold ret in E1. injection E1 as <- <-.
    rewrite (bind_ok _ _ _ _ _ Ef). apply bind_raise. exact (IH h' ys' El E2).
Qed.

(** [load] of entries that all have pairs float64 can hold: one definition
    and one handle per entry, in order. *)
Lemma Processes_load_ok r batch : forall h rg,
  regs h !! r = Some rg ->
  Forall loadable batch ->
  Processes_load r batch h =
    (Ok (seq (length (procs h)) (length batch)),
     mkHeap (procs h ++ map (fun i => mkProcess r (Z.of_nat i) 1)
                            (seq (length (_processes rg)) (length batch)))
            (exprs h)
            (<[r := mkProcesses (_processes rg ++ batch_defs batch)
                                (_process_produces rg)]> (regs h))).
Proof.
  induction batch as [|[name resources] batch IH]; intros h rg Hr Hall.
  - simpl. unfold ret. rewrite !app_nil_r.
    replace (mkProcesses (_processes rg) (_process_produces rg)) with rg by now destruct rg.
    rewrite (list_insert_id _ _ _ Hr). now destruct h.
  - apply Forall_cons in Hall as [[Hne Hfit] Hall]. simpl in Hne, Hfit.
    unfold Processes_load. cbn [list_comp].
    rewrite (bind_ok _ _ _ _ _ (Processes_create_ok h r rg name resources Hne Hfit Hr)).
    set (rg1 := mkProcesses (_processes rg ++ [(name, created_array resources)])
                            (_process_produces rg)).
    set (h1 := mkHeap _ _ _).
    assert (Hr1 : regs h1 !! r = Some rg1).
    { simpl. apply list_lookup_insert_eq. now apply lookup_lt_Some in Hr. }
    fold (Processes_load r batch). rewrite (bind_ok _ _ _ _ _ (IH h1 rg1 Hr1 Hall)).
    unfold ret. cbn [procs exprs regs h1 rg1 _processes _process_produces length batch_defs map seq].
    rewrite !length_app. cbn [length]. rewrite list_insert_insert_eq.
    rewrite <- !app_assoc. cbn [app]. rewrite !Nat.add_1_r. reflexivity.
Qed.

(** X5: bulk definition.  When every entry has pairs, of quantities float64
    can hold, [load] appends one definition per entry, in order, and returns
    one fresh handle per entry at the consecutive new positions, which a
    later [dump] shows, each vector holding the float64 values [create]
    writes.  When an entry has no pair, [load] raises that entry's
    [ValueError], and when an entry has a quantity float64 cannot hold,
    [load] raises [OverflowError]; either way the entries before it stay
    defined: nothing is rolled back. *)
Theorem Processes_load_spec h r rg :
  regs h !! r = Some rg ->
  (forall batch,
     Forall loadable batch ->
     exists handles h',
       Processes_load r batch h = (Ok handles, h')
       /\ length handles = length batch
       /\ (forall k entry, batch !! k = Some entry ->
             exists a, handles !! k = Some a
               /\ procs h !! a = None
               /\ handle_at h' a
                    (mkProcess r (Z.of_nat (length (_processes rg) + k)) 1))
       /\ Processes_dump r h' = (Ok (_processes rg ++ batch_defs batch), h')) /\
  (forall good name rest,
     Forall loadable good ->
     exists h',
       Processes_load r (good ++ (name, []) :: rest) h =
         (Raise (ValueError ("No resources attached to " ++ name)), h')
       /\ Processes_dump r h' = (Ok (_processes rg ++ batch_defs good), h')) /\
  (forall good name resources rest,
     Forall loadable good -> ~ all_fit resources ->
     exists h',
       Processes_load r (good ++ (name, resources) :: rest) h =
         (Raise (OverflowError "int too large to convert to float"), h')
       /\ Processes_dump r h' = (Ok (_processes rg ++ batch_defs good), h')).
Proof.
  intros Hr.
  assert (Hdump : forall ps es defs,
            Processes_dump r (mkHeap ps es (<[r := mkProcesses defs (_process_produces rg)]> (regs h)))
            = (Ok defs, mkHeap ps es (<[r := mkProcesses defs (_process_produces rg)]> (regs h)))).
  { intros ps es defs. unfold Processes_dump.
    set (h1 := mkHeap _ _ _).
    assert (H1 : regs h1 !! r = Some (mkProcesses defs (_process_produces rg))).
    { simpl. apply list_lookup_insert_eq. now apply lookup_lt_Some in Hr. }
    now rewrite (bind_ok _ _ _ _ _ (load_reg_ok _ _ _ H1)). }
  split; [|split].
  - intros batch Hall. rewrite (Processes_load_ok r batch h rg Hr Hall).
    eexists _, _. split; [reflexivity|]. split; [apply length_seq|]. split; [|apply Hdump].
    intros k entry Hk. assert (Hlt : (k < length batch)%nat) by now apply lookup_lt_Some in Hk.
    exists (length (procs h) + k)%nat. split; [now apply lookup_seq_lt|].
    split; [apply lookup_ge_None_2; lia|].
    unfold handle_at. cbn [procs]. rewrite lookup_app_r by lia.
    replace (length (procs h) + k - length (procs h))%nat with k by lia.
    rewrite list_lookup_fmap, lookup_seq_lt by exact Hlt. reflexivity.
  - intros good name rest Hall. eexists. split.
    + unfold Processes_load.
      eapply list_comp_app_raise; [exact (Processes_load_ok r good h rg Hr Hall)|].
      reflexivity.
    + apply Hdump.
  - intros good name resources rest Hall Hbad. eexists. split.
    + unfold Processes_load.
      eapply list_comp_app_raise; [exact (Processes_load_ok r good h rg Hr Hall)|].
      now apply Processes_create_overflow.
    + apply Hdump.
Qed.

Lemma Processes_load_spec_witness :
  (exists h',
     Processes_load 0%nat
       [("X", [(Resource.mk 1, PInt 5)]); ("Empty", []); ("Y", [(Resource.mk 0, PInt 1)])]
       heap_steel_coal
       = (Raise (ValueError "No resources attached to Empty"), h')
     /\ Processes_dump 0%nat h'
        = (Ok [("Steel", [2%float]); ("Coal", [0; 3]%float); ("X", [0; 5]%float)], h')) /\
  (exists h',
     Processes_load 0%nat
       [("X", [(Resource.mk 1, PFloat 0.5)]); ("Big", [(Resource.mk 0, PInt (10 ^ 400))])]
       heap_steel_coal
       = (Raise (OverflowError "int too large to convert to float"), h')
     /\ Processes_dump 0%nat h'
        = (Ok [("Steel", [2%float]); ("Coal", [0; 3]%float); ("X", [0; 0.5]%float)], h')).
Proof.
  destruct (Processes_load_spec heap_steel_coal 0%nat steel_coal eq_refl) as (_ & H1 & H2).
  split.
  - destruct (H1 [("X", [(Resource.mk 1, PInt 5)])] "Empty" [("Y", [(Resource.mk 0, PInt 1)])])
      as (h' & E & D).
    + repeat constructor. discriminate.
    + exists h'. split; [exact E|exact D].
  - destruct (H2 [("X", [(Resource.mk 1, PFloat 0.5)])] "Big"
                 [(Resource.mk 0, PInt (10 ^ 400))] [])
      as (h' & E & D).
    + repeat constructor. discriminate.
    + intros Hall. apply Forall_cons in Hall as [Hbad _]. vm_compute in Hbad. discriminate.
    + exists h'. split; [exact E|exact D].
Defined.
Lemma Processes_iter_ok r rg h :
  regs h !! r = Some rg ->
  Processes_iter r h =
    (Ok (seq (length (procs h)) (length (_processes rg))),
     set_procs (fun ps => ps ++ map (fun i => mkProcess r (Z.of_nat i) 1)
                                    (seq 0 (length (_processes rg)))) h).
Proof.
  intros Hr. unfold Processes_iter, comp_in_self, Processes_len.
  rewrite (bind_ok _ _ _ _ _ (bind_ok _ _ _ _ _ (load_reg_ok _ _ _ Hr))).
  unfold py_range. rewrite Nat2Z.id.
  assert (Hgen : forall cnt k h, regs h !! r = Some rg ->
            (k + cnt = length (_processes rg))%nat ->
            list_comp (map Z.of_nat (seq k cnt))
              (fun i => let* process := Processes_getitem r (KInt i) in ret process) h
            = (Ok (seq (length (procs h)) cnt),
               set_procs (fun ps => ps ++ map (fun i => mkProcess r (Z.of_nat i) 1)
                                              (seq k cnt)) h)).
  { clear h Hr. induction cnt as [|cnt IH]; intros k h Hr Hk.
    - simpl. unfold ret, set_procs. rewrite app_nil_r. now destruct h.
    - cbn [seq map list_comp].
      set (h1 := set_procs (fun ps => ps ++ [mkProcess r (Z.of_nat k) 1]) h).
      assert (Hget : (let* process := Processes_getitem r (KInt (Z.of_nat k)) in ret process) h
                     = (Ok (length (procs h)), h1)).
      { assert (Hlt : (Z.of_nat k <? Z.of_nat (length (_processes rg))) = true)
          by (apply Z.ltb_lt; lia).
        erewrite bind_ok; cycle 1.
        { rewrite (Processes_getitem_int _ _ _ _ Hr), Hlt. reflexivity. }
        reflexivity. }
      rewrite (bind_ok _ _ _ _ _ Hget).
      rewrite (bind_ok _ _ _ _ _ (IH (S k) h1 Hr ltac:(lia))).
      unfold ret, set_procs. simpl. rewrite length_app. simpl.
      rewrite <- app_assoc. simpl. now rewrite Nat.add_1_r. }
  exact (Hgen (length (_processes rg)) 0%nat h Hr eq_refl).
Qed.

(** X6: enumerating a registry yields one fresh handle per definition, in
    registration order: the handle number [i] has index [i], multiplier 1
    and the registry as its parent, and resolves to the name and the vector
    of definition [i]; the registry is left as it was. *)
Theorem Processes_iter_spec h r rg :
  regs h !! r = Some rg ->
  exists handles h',
    Processes_iter r h = (Ok handles, h')
    /\ length handles = length (_processes rg)
    /\ regs h' = regs h /\ exprs h' = exprs h
    /\ (forall a P, handle_at h a P -> handle_at h' a P)
    /\ (forall i d, _processes rg !! i = Some d ->
          exists a, handles !! i = Some a
            /\ procs h !! a = None
            /\ handle_at h' a (mkProcess r (Z.of_nat i) 1)
            /\ Process_name a h' = (Ok (fst d), h')
            /\ Process_array a h' = (Ok (snd d), h')).
Proof.
  intros Hr. rewrite (Processes_iter_ok r rg h Hr). eexists _, _. split; [reflexivity|].
  split; [apply length_seq|]. split; [reflexivity|]. split; [reflexivity|]. split.
  { intros a P Ha. unfold handle_at. simpl. now apply lookup_app_l_Some. }
  intros i d Hd. assert (Hlt : (i < length (_processes rg))%nat) by now apply lookup_lt_Some in Hd.
  set (h' := set_procs _ h).
  exists (length (procs h) + i)%nat. split; [now apply lookup_seq_lt|].
  split; [apply lookup_ge_None_2; lia|].
  assert (Ha : handle_at h' (length (procs h) + i) (mkProcess r (Z.of_nat i) 1)).
  { unfold handle_at. simpl. rewrite lookup_app_r by lia.
    replace (length (procs h) + i - length (procs h))%nat with i by lia.
    rewrite list_lookup_fmap, lookup_seq_lt by exact Hlt. reflexivity. }
  split; [exact Ha|].
  apply (Process_accessors_ok h' _ _ rg d Ha Hr). cbn [index].
  now apply py_getitem_nat.
Qed.

Lemma Processes_iter_spec_witness :
  exists handles h',
    Processes_iter 0%nat heap_steel_coal = (Ok handles, h')
    /\ length handles = 2%nat.
Proof.
  destruct (Processes_iter_spec heap_steel_coal 0%nat steel_coal eq_refl)
    as (handles & h' & E & L & _).
  exists handles, h'. split; [exact E|exact L].
Defined.

Lemma name_matches_app l1 l2 arg k :
  name_matches (l1 ++ l2) arg k =
    name_matches l1 arg k ++ name_matches l2 arg (k + Z.of_nat (length l1)).
Proof.
  revert k. induction l1 as [|[name v] l1 IH]; intros k; simpl.
  - now rewrite Z.add_0_r.
  - rewrite IH. replace (k + 1 + Z.of_nat (length l1)) with (k + Z.pos (Pos.of_succ_nat (length l1))) by lia.
    now destruct (String.eqb name arg).
Qed.

Lemma positions_named_app_one rg name v cache :
  positions_named (mkProcesses (_processes rg ++ [(name, v)]) cache) name =
    positions_named rg name ++ [Z.of_nat (length (_processes rg))].
Proof.
  unfold positions_named. cbn [_processes]. rewrite name_matches_app. simpl.
  now rewrite String.eqb_refl.
Qed.

(** X7: a handle returned by [create], for quantities float64 can hold,
    resolves to the name and the vector just defined, a vector of the
    float64 values of the quantities; the count grows by one, and when no
    earlier definition has that name, lookup by the name returns a handle at
    the same position. *)
Theorem create_then_lookup h r rg name resources :
  resources <> [] -> all_fit resources -> regs h !! r = Some rg ->
  exists a h',
    Processes_create r name resources h = (Ok a, h')
    /\ Process_name a h' = (Ok name, h')
    /\ Process_array a h' = (Ok (created_array resources), h')
    /\ (forall i, (i < length (created_array resources))%nat ->
          created_array resources !! i =
            Some (default 0%float (float64_of <$> last_supplied resources i)))
    /\ Processes_len r h' = (Ok (Z.of_nat (length (_processes rg)) + 1), h')
    /\ ((forall j w, _processes rg !! j <> Some (name, w)) ->
          exists b h'', Processes_getitem r (KStr name) h' = (Ok b, h'')
            /\ b <> a
            /\ position_at h'' b = position_at h' a
            /\ Process_eq b a h'' = (Ok true, h'')).
Proof.
  intros Hne Hfit Hr. rewrite (Processes_create_ok h r rg name resources Hne Hfit Hr).
  set (rg1 := mkProcesses (_processes rg ++ [(name, created_array resources)])
                          (_process_produces rg)).
  set (a := length (procs h)).
  set (P := mkProcess r (Z.of_nat (length (_processes rg))) 1).
  set (h' := mkHeap _ _ _).
  assert (Hr1 : regs h' !! r = Some rg1).
  { simpl. apply list_lookup_insert_eq. now apply lookup_lt_Some in Hr. }
  assert (Ha : handle_at h' a P) by (unfold handle_at; simpl; now apply list_lookup_middle).
  assert (Hd : _processes rg1 !! length (_processes rg) = Some (name, created_array resources))
    by (simpl; now apply list_lookup_middle).
  exists a, h'. split; [reflexivity|].
  destruct (Process_accessors_ok h' a P rg1 _ Ha Hr1 (py_getitem_nat _ _ _ h' Hd)) as [En Ea].
  split; [exact En|]. split; [exact Ea|]. split; [now apply created_array_lookup|]. split.
  { unfold Processes_len. rewrite (bind_ok _ _ _ _ _ (load_reg_ok _ _ _ Hr1)).
    unfold ret. simpl. rewrite length_app. simpl. do 2 f_equal. lia. }
  intros Hnone. pose proof (positions_named_none rg name Hnone) as Hfresh.
  rewrite (Processes_getitem_str _ _ _ _ Hr1).
  unfold rg1. rewrite positions_named_app_one, Hfresh. cbn [app].
  set (b := length (procs h')).
  set (h'' := set_procs _ h').
  assert (Hb : procs h'' !! b = Some P) by (simpl; now apply list_lookup_middle).
  assert (Ha'' : procs h'' !! a = Some P).
  { simpl. apply lookup_app_l_Some. exact Ha. }
  exists b, h''. split; [reflexivity|]. split.
  { unfold b, a. simpl. rewrite length_app. simpl. lia. }
  split.
  { unfold position_at. unfold handle_at in Ha. now rewrite Hb, Ha. }
  rewrite Process_eq_ok by (unfold valid; eauto).
  now rewrite (same_position_intro _ _ _ _ _ Hb Ha'' eq_refl).
Qed.

Lemma create_then_lookup_witness :
  exists a h',
    Processes_create 0%nat "Iron" [(Resource.mk 2, PInt (2 ^ 53 + 1)); (Resource.mk 0, PFloat 0.5)]
                     heap_steel_coal = (Ok a, h')
    /\ Process_name a h' = (Ok "Iron", h')
    /\ Process_array a h' = (Ok [0.5; 0; 9007199254740992]%float, h')
    /\ exists b h'', Processes_getitem 0%nat (KStr "Iron") h' = (Ok b, h'')
         /\ b <> a /\ Process_eq b a h'' = (Ok true, h'').
Proof.
  destruct (create_then_lookup heap_steel_coal 0%nat steel_coal "Iron"
              [(Resource.mk 2, PInt (2 ^ 53 + 1)); (Resource.mk 0, PFloat 0.5)])
    as (a & h' & E & En & Ea & _ & _ & Hl);
    [discriminate|repeat constructor|reflexivity|].
  exists a, h'. split; [exact E|]. split; [exact En|]. split; [exact Ea|].
  destruct Hl as (b & h'' & Eb & Hne & _ & Heq).
  - intros [|[|j]] w Hj; simpl in Hj; discriminate.
  - exists b, h''. split; [exact Eb|]. split; [exact Hne|exact Heq].
Defined.

(** X8: defining a name a second time (with quantities float64 can hold,
    so that [create] defines it) makes every later lookup by that name fail
    with the "non unique" [KeyError], while both definitions stay reachable
    by position. *)
Theorem duplicate_name_lookup_fails h r rg name resources :
  resources <> [] -> all_fit resources -> regs h !! r = Some rg ->
  positions_named rg name <> [] ->
  exists a h',
    Processes_create r name resources h = (Ok a, h')
    /\ Processes_getitem r (KStr name) h' =
         (Raise (KeyError ("Name " ++ name ++ " non unique: please use index")), h')
    /\ (forall i, In i (positions_named rg name) ->
          exists b h'', Processes_getitem r (KInt i) h' = (Ok b, h'')
            /\ Process_name b h'' = (Ok name, h''))
    /\ Process_name a h' = (Ok name, h').
Proof.
  intros Hne Hfit Hr Hdup. rewrite (Processes_create_ok h r rg name resources Hne Hfit Hr).
  set (rg1 := mkProcesses (_processes rg ++ [(name, created_array resources)])
                          (_process_produces rg)).
  set (P := mkProcess r (Z.of_nat (length (_processes rg))) 1).
  set (h' := mkHeap _ _ _).
  assert (Hr1 : regs h' !! r = Some rg1).
  { simpl. apply list_lookup_insert_eq. now apply lookup_lt_Some in Hr. }
  eexists _, h'. split; [reflexivity|]. split; [|split].
  - rewrite (Processes_getitem_str _ _ _ _ Hr1).
    unfold rg1. rewrite positions_named_app_one.
    destruct (positions_named rg name) as [|i [|j l]]; [congruence| |]; reflexivity.
  - intros i Hi. apply positions_named_spec in Hi as (Hi0 & v & Hv).
    assert (Hlt : (Z.to_nat i < length (_processes rg))%nat) by now apply lookup_lt_Some in Hv.
    rewrite (Processes_getitem_int _ _ _ _ Hr1). cbn [rg1 _processes].
    assert (Hlt' : (i <? Z.of_nat (length (_processes rg ++ [(name, created_array resources)]))) = true).
    { apply Z.ltb_lt. rewrite length_app. lia. }
    rewrite Hlt'. eexists _, _. split; [reflexivity|].
    set (h'' := set_procs _ h').
    assert (Hb : handle_at h'' (length (procs h')) (mkProcess r i 1))
      by (unfold handle_at; simpl; now apply list_lookup_middle).
    assert (Hd : _processes rg1 !! Z.to_nat i = Some (name, v))
      by (simpl; now apply lookup_app_l_Some).
    refine (proj1 (Process_accessors_ok h'' _ _ rg1 (name, v) Hb Hr1 _)).
    cbn [index]. rewrite <- (Z2Nat.id i) at 1 by lia. now apply py_getitem_nat.
  - assert (Ha : handle_at h' (length (procs h)) P)
      by (unfold handle_at; simpl; now apply list_lookup_middle).
    assert (Hd : _processes rg1 !! length (_processes rg) = Some (name, created_array resources))
      by (simpl; now apply list_lookup_middle).
    exact (proj1 (Process_accessors_ok h' _ P rg1 _ Ha Hr1 (py_getitem_nat _ _ _ h' Hd))).
Qed.

Lemma duplicate_name_lookup_fails_witness :
  exists a h',
    Processes_create 0%nat "Coal" [(Resource.mk 0, PInt 9)] heap_steel_coal = (Ok a, h')
    /\ Processes_getitem 0%nat (KStr "Coal") h' =
         (Raise (KeyError "Name Coal non unique: please use index"), h').
Proof.
  destruct (duplicate_name_lookup_fails heap_steel_coal 0%nat steel_coal "Coal"
              [(Resource.mk 0, PInt 9)])
    as (a & h' & E & Ek & _); [discriminate|repeat constructor|reflexivity|discriminate|].
  exists a, h'. split; [exact E|exact Ek].
Defined.

(** * Edge cases of the registry and live views *)

(** X9: a registry without definitions.  Its count is 0, it enumerates no
    handle, positional lookup at any position from 0 on raises
    [IndexError], lookup by any name raises [KeyError], and asking for the
    produce matrix raises the [ValueError] of [max] on an empty list,
    caching nothing. *)
Theorem empty_registry_edges h r :
  regs h !! r = Some (mkProcesses [] None) ->
  Processes_len r h = (Ok 0, h)
  /\ Processes_iter r h = (Ok [], h)
  /\ (forall i, 0 <= i ->
        Processes_getitem r (KInt i) h = (Raise (IndexError "list index out of range"), h))
  /\ (forall name,
        Processes_getitem r (KStr name) h = (Raise (KeyError ("'" ++ name ++ "'")), h))
  /\ Processes_process_produces r h =
       (Raise (ValueError "max() arg is an empty sequence"), h).
Proof.
  intros Hr. split; [|split; [|split; [|split]]].
  - unfold Processes_len. now rewrite (bind_ok _ _ _ _ _ (load_reg_ok _ _ _ Hr)).
  - rewrite (Processes_iter_ok r _ h Hr). simpl. unfold set_procs.
    rewrite app_nil_r. now destruct h.
  - intros i Hi. rewrite (Processes_getitem_int _ _ _ _ Hr).
    assert (E : (i <? Z.of_nat (length (_processes (mkProcesses [] None)))) = false)
      by (apply Z.ltb_ge; simpl; lia).
    now rewrite E.
  - intros name. now rewrite (Processes_getitem_str _ _ _ _ Hr).
  - unfold Processes_process_produces.
    rewrite (bind_ok _ _ _ _ _ (load_reg_ok _ _ _ Hr)). cbn [_process_produces].
    apply bind_raise.
    assert (E : comp_in_self r (fun process =>
                  let* a := Process_array process in ret (Z.of_nat (length a))) h
                = (Ok [], h)).
    { unfold comp_in_self, Processes_len.
      now rewrite (bind_ok _ _ _ _ _ (bind_ok _ _ _ _ _ (load_reg_ok _ _ _ Hr))). }
    rewrite (bind_ok _ _ _ _ _ E). apply bind_raise. reflexivity.
Qed.

Lemma empty_registry_edges_witness :
  Processes_process_produces 0%nat (mkHeap [] [] [mkProcesses [] None]) =
    (Raise (ValueError "max() arg is an empty sequence"), mkHeap [] [] [mkProcesses [] None]).
Proof.
  destruct (empty_registry_edges (mkHeap [] [] [mkProcesses [] None]) 0%nat eq_refl)
    as (_ & _ & _ & _ & E).
  exact E.
Defined.

(** X10: a handle is a live view.  A handle taken before the first access
    to the produce matrix reads, after it, the padded vector of its
    definition, not the vector it read before; its name is unchanged. *)
Theorem handles_are_live_views h r defs a m0 j d :
  regs h !! r = Some (mkProcesses defs None) ->
  handle_at h a (mkProcess r (Z.of_nat j) m0) ->
  defs !! j = Some d ->
  exists mx m h',
    Processes_process_produces r h = (Ok m, h')
    /\ Process_array a h = (Ok (snd d), h)
    /\ Process_array a h' = (Ok (snd d ++ replicate (mx - length (snd d)) 0%float), h')
    /\ length (snd d ++ replicate (mx - length (snd d)) 0%float) = length m
    /\ Process_name a h = (Ok (fst d), h)
    /\ Process_name a h' = (Ok (fst d), h')
    /\ handle_at h' a (mkProcess r (Z.of_nat j) m0).
Proof.
  intros Hr Ha Hd.
  assert (Hne : defs <> []) by (intros ->; discriminate).
  destruct (process_produces_first h r defs Hr Hne) as (mx & ps & Hbound & Hwit & E).
  set (m := np_transpose _) in E. set (h' := mkHeap _ _ _) in E.
  assert (Hr' : regs h' !! r = Some (mkProcesses (map (padded mx) defs) (Some m))).
  { simpl. apply list_lookup_insert_eq. now apply lookup_lt_Some in Hr. }
  assert (Ha' : handle_at h' a (mkProcess r (Z.of_nat j) m0))
    by (unfold handle_at; simpl; now apply lookup_app_l_Some).
  assert (Hd' : map (padded mx) defs !! j = Some (padded mx d))
    by now rewrite list_lookup_fmap, Hd.
  destruct (Process_accessors_ok h a _ _ d Ha Hr (py_getitem_nat _ _ _ h Hd)) as [En Ea].
  destruct (Process_accessors_ok h' a _ _ _ Ha' Hr' (py_getitem_nat _ _ _ h' Hd')) as [En' Ea'].
  exists mx, m, h'. split; [exact E|]. split; [exact Ea|]. split; [exact Ea'|].
  split; [|split; [exact En|split; [exact En'|exact Ha']]].
  assert (Hdl : (length (snd d) <= mx)%nat).
  { apply Hbound. apply list_elem_of_In. eapply list_elem_of_lookup_2. exact Hd. }
  rewrite length_app, length_replicate.
  assert (Hcols : Forall (fun c : list float => length c = mx) (map snd (map (padded mx) defs))).
  { apply Forall_forall. intros c Hc. apply list_elem_of_In in Hc.
    apply in_map_iff in Hc as (d1 & <- & Hd1). apply in_map_iff in Hd1 as (d2 & <- & Hd2).
    unfold padded. simpl. rewrite length_app, length_replicate.
    specialize (Hbound d2 Hd2). lia. }
  assert (Hcol : map snd (map (padded mx) defs) !! j = Some (snd (padded mx d)))
    by now rewrite list_lookup_fmap, Hd'.
  assert (Hcne : map snd (map (padded mx) defs) <> []) by (destruct defs; [congruence|discriminate]).
  destruct Hwit as (dw & _ & Hlw).
  assert (Hm : length m = mx).
  { unfold m, np_transpose. destruct (map snd (map (padded mx) defs)) as [|c cs] eqn:Ec;
      [congruence|]. rewrite length_map, length_seq. now inversion Hcols. }
  lia.
Qed.

Lemma handles_are_live_views_witness :
  exists m h',
    Processes_process_produces 0%nat (mkHeap [mkProcess 0%nat 0 1] [] [steel_coal]) = (Ok m, h')
    /\ Process_array 0%nat (mkHeap [mkProcess 0%nat 0 1] [] [steel_coal])
         = (Ok [2%float], mkHeap [mkProcess 0%nat 0 1] [] [steel_coal])
    /\ exists v, Process_array 0%nat h' = (Ok v, h') /\ length v = length m.
Proof.
  destruct (handles_are_live_views (mkHeap [mkProcess 0%nat 0 1] [] [steel_coal]) 0%nat
              [("Steel", [2]); ("Coal", [0; 3])]%float 0%nat 1 0%nat ("Steel", [2%float])
              eq_refl eq_refl eq_refl)
    as (mx & m & h' & E & Ea & Ea' & Hl & _).
  exists m, h'. split; [exact E|]. split; [exact Ea|]. eexists. split; [exact Ea'|exact Hl].
Defined.

(** * Reading an expression *)

(** X11: reading an expression.  Its length is the number of its terms;
    [E[i]] is the term object itself (not a copy) at Python's position [i],
    from the end for a negative [i], and raises [IndexError] outside
    [[-len, len)]; enumerating it yields the terms in stored order and
    allocates nothing. *)
Theorem ProcessExpr_read_spec h E l :
  exprs h !! E = Some l ->
  let n := Z.of_nat (length l) in
  ProcessExpr_len E h = (Ok n, h)
  /\ ProcessExpr_iter E h = (Ok l, h)
  /\ (forall i, 0 <= i < n ->
        exists t, l !! Z.to_nat i = Some t /\ ProcessExpr_getitem E i h = (Ok t, h))
  /\ (forall i, - n <= i < 0 ->
        exists t, l !! Z.to_nat (n + i) = Some t /\ ProcessExpr_getitem E i h = (Ok t, h))
  /\ (forall i, n <= i \/ i < - n ->
        ProcessExpr_getitem E i h = (Raise (IndexError "list index out of range"), h)).
Proof.
  intros HE n.
  assert (Hget : forall i, ProcessExpr_getitem E i h = py_getitem l i h).
  { intros i. unfold ProcessExpr_getitem. now rewrite (bind_ok _ _ _ _ _ (load_expr_ok _ _ _ HE)). }
  assert (Hlen : ProcessExpr_len E h = (Ok n, h)).
  { unfold ProcessExpr_len. now rewrite (bind_ok _ _ _ _ _ (load_expr_ok _ _ _ HE)). }
  split; [exact Hlen|]. split.
  - unfold ProcessExpr_iter. rewrite (bind_ok _ _ _ _ _ Hlen).
    unfold py_range, n. rewrite Nat2Z.id.
    assert (Hgen : forall cnt k, (k + cnt = length l)%nat ->
              list_comp (map Z.of_nat (seq k cnt)) (ProcessExpr_getitem E) h
              = (Ok (drop k l), h)).
    { induction cnt as [|cnt IH]; intros k Hk.
      - simpl. now rewrite drop_ge by lia.
      - destruct (lookup_lt_is_Some_2 l k) as [t Ht]; [lia|].
        cbn [seq map list_comp].
        assert (Et : ProcessExpr_getitem E (Z.of_nat k) h = (Ok t, h))
          by (rewrite Hget; now apply py_getitem_nat).
        rewrite (bind_ok _ _ _ _ _ Et). rewrite (bind_ok _ _ _ _ _ (IH (S k) ltac:(lia))).
        unfold ret. now rewrite (drop_S _ _ _ Ht). }
    rewrite (Hgen (length l) 0%nat eq_refl). now rewrite drop_0.
  - split; [|split]; intros i Hi; rewrite Hget; now apply (py_getitem_spec l i h).
Qed.

Lemma ProcessExpr_read_spec_witness :
  ProcessExpr_getitem 0%nat (-1) heap_steel_minus_coal = (Ok 1%nat, heap_steel_minus_coal)
  /\ ProcessExpr_getitem 0%nat 2 heap_steel_minus_coal =
       (Raise (IndexError "list index out of range"), heap_steel_minus_coal).
Proof.
  destruct (ProcessExpr_read_spec heap_steel_minus_coal 0%nat [0%nat; 1%nat] eq_refl)
    as (_ & _ & _ & Hneg & Hout).
  split.
  - destruct (Hneg (-1)) as (t & Ht & E); [simpl; lia|]. simpl in Ht. injection Ht as <-. exact E.
  - apply Hout. left. simpl. lia.
Defined.

(** * Aliasing between operands and results *)

Lemma merge_step_grows ps L b :
  exists extra, snd (merge_step (ps, L) b) = L ++ extra
                /\ (forall t, In t extra -> t = b).
Proof.
  unfold merge_step. destruct (index_of ps L b).
  - exists []. split; [|intros t []]. rewrite app_nil_r.
    destruct (L !! n); [|reflexivity].
    destruct (ps !! n0); [|reflexivity]. now destruct (ps !! b).
  - exists [b]. split; [reflexivity|]. now intros t [<-|[]].
Qed.

Lemma merge_all_grows T : forall ps L,
  exists extra, snd (fold_left merge_step T (ps, L)) = L ++ extra
                /\ (forall t, In t extra -> In t T).
Proof.
  induction T as [|b T IH]; intros ps L.
  - exists []. split; [simpl; now rewrite app_nil_r|intros t []].
  - cbn [fold_left]. destruct (merge_step_grows ps L b) as (e1 & E1 & H1).
    destruct (merge_step (ps, L) b) as [ps1 L1]. simpl in E1. subst L1.
    destruct (IH ps1 (L ++ e1)) as (e2 & E2 & H2).
    exists (e1 ++ e2). split; [now rewrite E2, app_assoc|].
    intros t Ht. apply in_app_or in Ht as [Ht|Ht]; [left; symmetry; now apply H1|right; now apply H2].
Qed.

(** X12: [A + B] changes its left operand.  After the call the list of [A]
    is its old list followed by terms of [B], the same objects, that had no
    equal term in [A]; it is well formed and holds the sum of the two
    operands at every position, zero terms included.  The returned
    expression is a new object whose terms are the non-zero terms of that
    list, the same objects again. *)
Theorem ProcessExpr_add_mutates_left h A B la lb r :
  exprs h !! A = Some la -> exprs h !! B = Some lb ->
  well_formed (procs h) la -> well_formed (procs h) lb ->
  owner h (VExpr A) = Some r -> owner h (VExpr B) = Some r ->
  exists e h' extra,
    ProcessExpr_add A (VExpr B) h = (Ok e, h')
    /\ exprs h !! e = None
    /\ exprs h' !! A = Some (la ++ extra)
    /\ (forall t, In t extra -> In t lb)
    /\ well_formed (procs h') (la ++ extra)
    /\ (forall k, coef (procs h') (la ++ extra) k = coef (procs h) la k + coef (procs h) lb k)
    /\ exprs h' !! e = Some (List.filter (nonzero (procs h')) (la ++ extra))
    /\ length (procs h') = length (procs h).
Proof.
  intros HA HB Hwa Hwb HoA HoB.
  rewrite (ProcessExpr_add_expr_ok h A B la lb r HA HB
             (well_formed_valid _ _ Hwa) (well_formed_valid _ _ Hwb) HoA HoB).
  cbv zeta. destruct (merge_all_grows lb (procs h) la) as (extra & Eex & Hex).
  destruct (fold_left merge_step lb (procs h, la)) as [ps' L'] eqn:Hfold.
  simpl in Eex. subst L'.
  destruct (merge_all_spec _ _ _ _ _ Hwa Hwb Hfold) as (Hlen & Hpos & Hwf & Hframe & Hcoef).
  cbn [fst snd]. exists (length (exprs h)). eexists. exists extra.
  split; [reflexivity|]. cbn [procs exprs].
  split; [now apply lookup_ge_None_2|]. split.
  { rewrite lookup_app_l by (rewrite length_insert; now apply lookup_lt_Some in HA).
    apply list_lookup_insert_eq. now apply lookup_lt_Some in HA. }
  split; [exact Hex|]. split; [exact Hwf|]. split; [exact Hcoef|]. split; [|exact Hlen].
  rewrite lookup_app_r by (rewrite length_insert; lia).
  now rewrite length_insert, Nat.sub_diag.
Qed.

Lemma ProcessExpr_add_mutates_left_witness :
  exists e h',
    ProcessExpr_add 0%nat (VExpr 1%nat) heap_two_exprs = (Ok e, h')
    /\ exprs h' !! 0%nat = Some [0%nat; 1%nat].
Proof.
  destruct (ProcessExpr_add_mutates_left heap_two_exprs 0%nat 1%nat [0%nat] [1%nat] 0%nat)
    as (e & h' & extra & E & _ & HA & _).
  - reflexivity.
  - reflexivity.
  - apply well_formed_singleton. simpl. eauto.
  - apply well_formed_singleton. simpl. eauto.
  - reflexivity.
  - reflexivity.
  - exists e, h'. split; [exact E|].
    assert (E' : ProcessExpr_add 0%nat (VExpr 1%nat) heap_two_exprs
                 = (Ok 2%nat, mkHeap (procs heap_two_exprs)
                                     [[0%nat; 1%nat]; [1%nat]; [0%nat; 1%nat]]
                                     (regs heap_two_exprs))) by reflexivity.
    rewrite E in E'. injection E' as -> ->. reflexivity.
Defined.

(** X13: adding an expression to itself doubles it in place: [A + A]
    leaves the list of [A] as it is and doubles the multiplier of every
    term of [A]. *)
Theorem ProcessExpr_add_itself_doubles h A la r :
  exprs h !! A = Some la ->
  well_formed (procs h) la ->
  owner h (VExpr A) = Some r ->
  exists e h',
    ProcessExpr_add A (VExpr A) h = (Ok e, h')
    /\ exprs h' !! A = Some la
    /\ (forall t p, In t la -> procs h !! t = Some p ->
          procs h' !! t = Some (mkProcess (_parent p) (index p) (2 * multiplier p))).
Proof.
  intros HA Hwa HoA.
  rewrite (ProcessExpr_add_expr_ok h A A la la r HA HA
             (well_formed_valid _ _ Hwa) (well_formed_valid _ _ Hwa) HoA HoA).
  cbv zeta. destruct (merge_all_grows la (procs h) la) as (extra & Eex & Hex).
  destruct (fold_left merge_step la (procs h, la)) as [ps' L'] eqn:Hfold.
  simpl in Eex. subst L'.
  destruct (merge_all_spec _ _ _ _ _ Hwa Hwa Hfold) as (Hlen & Hpos & Hwf & Hframe & Hcoef).
  assert (Hnil : extra = []).
  { destruct extra as [|t extra]; [reflexivity|]. exfalso.
    pose proof (well_formed_NoDup _ _ Hwf) as Hnd.
    apply NoDup_app in Hnd as (_ & Hdis & _).
    apply (Hdis t); [|left]. apply list_elem_of_In, Hex. now left. }
  subst extra. rewrite app_nil_r in *.
  cbn [fst snd]. eexists _, _. split; [reflexivity|]. cbn [procs exprs]. split.
  { rewrite lookup_app_l by (rewrite length_insert; now apply lookup_lt_Some in HA).
    apply list_lookup_insert_eq. now apply lookup_lt_Some in HA. }
  intros t p Ht Hp.
  destruct (lookup_lt_is_Some_2 ps' t) as [p' Hp'].
  { rewrite Hlen. now apply lookup_lt_Some in Hp. }
  pose proof (Hpos t) as Hpt. unfold pos_at in Hpt. rewrite Hp, Hp' in Hpt.
  simpl in Hpt. injection Hpt as Hpar Hidx.
  pose proof (coef_well_formed ps' la t p' Hwf Ht Hp') as Hc'.
  pose proof (coef_well_formed (procs h) la t p Hwa Ht Hp) as Hc.
  assert (Hposeq : position p' = position p) by (unfold position; congruence).
  rewrite Hcoef, Hposeq, Hc in Hc'.
  rewrite Hp'. f_equal. destruct p' as [pa ix mu]. simpl in *. subst. f_equal. lia.
Qed.

Lemma ProcessExpr_add_itself_doubles_witness :
  exists e h',
    ProcessExpr_add 0%nat (VExpr 0%nat) heap_two_exprs = (Ok e, h')
    /\ procs h' !! 0%nat = Some (mkProcess 0%nat 0 4).
Proof.
  destruct (ProcessExpr_add_itself_doubles heap_two_exprs 0%nat [0%nat] 0%nat)
    as (e & h' & E & _ & Hd).
  - reflexivity.
  - apply well_formed_singleton. simpl. eauto.
  - reflexivity.
  - exists e, h'. split; [exact E|].
    apply (Hd 0%nat (mkProcess 0%nat 0 2)); [now left|reflexivity].
Defined.

(** * Composing the in-place operations *)

Lemma heap_ext h1 h2 :
  exprs h1 = exprs h2 -> regs h1 = regs h2 ->
  (forall a, procs h1 !! a = procs h2 !! a) -> h1 = h2.
Proof.
  destruct h1, h2. simpl. intros -> -> H. f_equal. now apply list_eq.
Qed.

Lemma ProcessExpr_mul_ok h E l k :
  exprs h !! E = Some l -> NoDup l -> Forall (valid h) l ->
  exists h',
    ProcessExpr_mul E k h = (Ok E, h')
    /\ exprs h' = exprs h /\ regs h' = regs h
    /\ length (procs h') = length (procs h)
    /\ (forall t p, In t l -> procs h !! t = Some p ->
          procs h' !! t = Some (mkProcess (_parent p) (index p) (multiplier p * k)))
    /\ (forall t, ~ In t l -> procs h' !! t = procs h !! t).
Proof.
  intros HE Hnd Hv. unfold ProcessExpr_mul. destruct (Z.eqb_spec k 1) as [->|Hk].
  - exists h. repeat split; auto. intros t p _ Hp. now rewrite Z.mul_1_r, Process_eta.
  - destruct (update_loop_ok (fun m => m * k) l h Hnd Hv)
      as (h' & E' & He & Hr & Hlen & Hin & Hout).
    exists h'. split; [|auto].
    rewrite (bind_ok _ _ _ _ _ (load_expr_ok _ _ _ HE)).
    now rewrite (bind_ok _ _ _ _ _ E').
Qed.

(** X14: negating an expression twice restores the store: [-(-E)] is [E]
    with every multiplier back at its value, and nothing else changed. *)
Theorem ProcessExpr_neg_involutive h E l :
  exprs h !! E = Some l -> NoDup l -> Forall (valid h) l ->
  (let* e := ProcessExpr_neg E in ProcessExpr_neg e) h = (Ok E, h).
Proof.
  intros HE Hnd Hv.
  destruct (ProcessExpr_neg_ok h E l HE Hnd Hv) as (h1 & E1 & He1 & Hr1 & Hlen1 & Hin1 & Hout1).
  assert (HE1 : exprs h1 !! E = Some l) by congruence.
  assert (Hv1 : Forall (valid h1) l).
  { eapply Forall_impl; [exact Hv|]. intros a. now apply valid_length. }
  destruct (ProcessExpr_neg_ok h1 E l HE1 Hnd Hv1) as (h2 & E2 & He2 & Hr2 & Hlen2 & Hin2 & Hout2).
  rewrite (bind_ok _ _ _ _ _ E1), E2. f_equal.
  apply heap_ext; [congruence|congruence|].
  intros a. destruct (in_dec Nat.eq_dec a l) as [Hi|Hn].
  - rewrite Forall_forall in Hv. destruct (Hv a) as [p Hp]; [now apply list_elem_of_In|].
    rewrite (Hin2 a _ Hi (Hin1 a p Hi Hp)), Hp. cbn [_parent index multiplier].
    rewrite Z.opp_involutive. now rewrite Process_eta.
  - now rewrite Hout2, Hout1.
Qed.

Lemma ProcessExpr_neg_involutive_witness :
  (let* e := ProcessExpr_neg 0%nat in ProcessExpr_neg e) heap_steel_minus_coal
    = (Ok 0%nat, heap_steel_minus_coal).
Proof.
  apply (ProcessExpr_neg_involutive heap_steel_minus_coal 0%nat [0%nat; 1%nat]).
  - reflexivity.
  - apply NoDup_cons. split; [|apply NoDup_singleton].
    intros H. apply list_elem_of_In in H. destruct H as [H|[]]. discriminate.
  - repeat (constructor; [unfold valid; simpl; eauto|]). constructor.
Defined.

(** X15: for integer multipliers and integer factors [j] and [k], scaling
    an expression by [j] and then by [k] leaves the store that scaling it
    once by [j * k] leaves, also when one of the factors, or their product,
    is the [1] that [__mul__] short-cuts.  (Python's [int] product is exact
    and associative; the product of [float]s is not, and the statement is
    about integers only.) *)
Theorem ProcessExpr_mul_composes h E l j k :
  exprs h !! E = Some l -> NoDup l -> Forall (valid h) l ->
  (let* e := ProcessExpr_mul E j in ProcessExpr_mul e k) h = ProcessExpr_mul E (j * k) h.
Proof.
  intros HE Hnd Hv.
  destruct (ProcessExpr_mul_ok h E l j HE Hnd Hv) as (h1 & E1 & He1 & Hr1 & Hlen1 & Hin1 & Hout1).
  assert (HE1 : exprs h1 !! E = Some l) by congruence.
  assert (Hv1 : Forall (valid h1) l).
  { eapply Forall_impl; [exact Hv|]. intros a. now apply valid_length. }
  destruct (ProcessExpr_mul_ok h1 E l k HE1 Hnd Hv1) as (h2 & E2 & He2 & Hr2 & Hlen2 & Hin2 & Hout2).
  destruct (ProcessExpr_mul_ok h E l (j * k) HE Hnd Hv) as (h3 & E3 & He3 & Hr3 & Hlen3 & Hin3 & Hout3).
  rewrite (bind_ok _ _ _ _ _ E1), E2, E3. f_equal.
  apply heap_ext; [congruence|congruence|].
  intros a. destruct (in_dec Nat.eq_dec a l) as [Hi|Hn].
  - rewrite Forall_forall in Hv. destruct (Hv a) as [p Hp]; [now apply list_elem_of_In|].
    rewrite (Hin2 a _ Hi (Hin1 a p Hi Hp)), (Hin3 a p Hi Hp). cbn [_parent index multiplier].
    now rewrite Z.mul_assoc.
  - now rewrite Hout2, Hout1, Hout3.
Qed.

Lemma ProcessExpr_mul_composes_witness :
  (let* e := ProcessExpr_mul 0%nat (-1) in ProcessExpr_mul e (-1)) heap_steel_minus_coal
    = ProcessExpr_mul 0%nat (-1 * -1) heap_steel_minus_coal.
Proof.
  apply (ProcessExpr_mul_composes heap_steel_minus_coal 0%nat [0%nat; 1%nat]).
  - reflexivity.
  - apply NoDup_cons. split; [|apply NoDup_singleton].
    intros H. apply list_elem_of_In in H. destruct H as [H|[]]. discriminate.
  - repeat (constructor; [unfold valid; simpl; eauto|]). constructor.
Defined.

(** X16: subtracting a handle from a handle mutates neither: [p - q] over
    one registry works on copies, leaves every handle and expression of the
    store as it was, and returns an expression whose coefficient at every
    position is the difference of the two operands'. *)
Theorem handle_minus_handle h p q P Q :
  handle_at h p P -> handle_at h q Q -> _parent P = _parent Q ->
  exists e h' le,
    py_sub (VProcess p) (VProcess q) h = (Ok e, h')
    /\ exprs h' !! e = Some le
    /\ well_formed (procs h') le
    /\ (forall k, coef (procs h') le k = coef (procs h) [p] k - coef (procs h) [q] k)
    /\ (forall a X, handle_at h a X -> handle_at h' a X)
    /\ (forall x l, exprs h !! x = Some l -> exprs h' !! x = Some l).
Proof.
  intros Hp Hq Hpar.
  set (c1 := length (procs h)). set (e1 := length (exprs h)).
  set (P1 := mkProcess (_parent P) (index P) (multiplier P * 1)).
  set (Q1 := mkProcess (_parent Q) (index Q) (multiplier Q * -1)).
  set (h2 := mkHeap (procs h ++ [P1; Q1]) (exprs h ++ [[c1]; [S c1]]) (regs h)).
  assert (Erun : (let* a := Process_mul p 1 in
                  let* b := Process_mul q (-1) in
                  ret (a, b)) h = (Ok (e1, S e1), h2)).
  { rewrite (bind_ok _ _ _ _ _ (Process_mul_ok h p P 1 Hp)).
    set (h1 := mkHeap _ _ _).
    assert (Hq1 : handle_at h1 q Q) by (unfold handle_at; simpl; now apply lookup_app_l_Some).
    rewrite (bind_ok _ _ _ _ _ (Process_mul_ok h1 q Q (-1) Hq1)).
    unfold ret, h2. simpl. rewrite !length_app. simpl.
    rewrite <- !app_assoc. simpl. unfold e1, c1. now rewrite !Nat.add_1_r. }
  assert (Hc1 : procs h2 !! c1 = Some P1) by (simpl; now apply list_lookup_middle).
  assert (Hc2 : procs h2 !! S c1 = Some Q1).
  { simpl. rewrite lookup_app_r by (unfold c1; lia).
    replace (S c1 - length (procs h))%nat with 1%nat by (unfold c1; lia). reflexivity. }
  assert (He1 : exprs h2 !! e1 = Some [c1]) by (simpl; now apply list_lookup_middle).
  assert (He2 : exprs h2 !! S e1 = Some [S c1]).
  { simpl. rewrite lookup_app_r by (unfold e1; lia).
    replace (S e1 - length (exprs h))%nat with 1%nat by (unfold e1; lia). reflexivity. }
  destruct (ProcessExpr_add_expr_merges h2 e1 (S e1) [c1] [S c1] (_parent P) He1 He2)
    as (h' & le & Eadd & Hle & Hwf & _ & Hcoef & _ & Hlen & _ & Hframe & Hexprs).
  { apply well_formed_singleton. eauto. }
  { apply well_formed_singleton. eauto. }
  { unfold owner. cbn [terms_of]. now rewrite He1, Hc1. }
  { unfold owner. cbn [terms_of]. rewrite He2, Hc2. simpl. now rewrite Hpar. }
  exists (length (exprs h2)), h', le. split.
  { simpl. unfold Process_sub. unfold bind in Erun |- *.
    destruct (Process_mul p 1 h) as [[a| |] h1]; try discriminate.
    cbn [py_neg]. unfold Process_neg.
    destruct (Process_mul q (-1) h1) as [[b| |] h2']; try discriminate.
    unfold ret in Erun. injection Erun as -> -> ->. exact Eadd. }
  split; [exact Hle|]. split; [exact Hwf|]. split.
  { intros k. rewrite Hcoef. unfold coef. cbn [fold_right]. unfold term_coef. rewrite Hc1, Hc2.
    unfold handle_at in Hp, Hq. rewrite Hp, Hq.
    unfold position. cbn [_parent index multiplier P1 Q1].
    destruct (pos_eqb (_parent P, index P) k), (pos_eqb (_parent Q, index Q) k); lia. }
  split.
  { intros a X Ha. unfold handle_at. rewrite Hframe.
    - simpl. now apply lookup_app_l_Some.
    - intros [<-|[]]. apply lookup_lt_Some in Ha. unfold c1 in Ha. lia. }
  intros x l Hx. rewrite Hexprs.
  - simpl. now apply lookup_app_l_Some.
  - intros ->. apply lookup_lt_Some in Hx. unfold e1 in Hx. lia.
  - simpl. rewrite length_app. apply lookup_lt_Some in Hx. lia.
Qed.

Lemma handle_minus_handle_witness :
  exists e h' le,
    py_sub (VProcess 0%nat) (VProcess 1%nat) heap_two_exprs = (Ok e, h')
    /\ exprs h' !! e = Some le
    /\ handle_at h' 1%nat (mkProcess 0%nat 1 3).
Proof.
  destruct (handle_minus_handle heap_two_exprs 0%nat 1%nat (mkProcess 0%nat 0 2) (mkProcess 0%nat 1 3))
    as (e & h' & le & E & Hle & _ & _ & Hfr & _); [reflexivity|reflexivity|reflexivity|].
  exists e, h', le. split; [exact E|]. split; [exact Hle|]. now apply Hfr.
Defined.

(** * Handles as operands of an expression *)

(** [ProcessExpr.__add__] with a handle operand, from the code: the store
    after the copy and the merge of the copy. *)
Lemma ProcessExpr_add_process_ok h A q la Q r :
  exprs h !! A = Some la -> handle_at h q Q ->
  Forall (valid h) la ->
  owner h (VExpr A) = Some r -> _parent Q = r ->
  ProcessExpr_add A (VProcess q) h =
    let st := merge_step (procs h ++ [Q], la) (length (procs h)) in
    (Ok (length (exprs h)),
     mkHeap (fst st)
            (<[A := snd st]> (exprs h) ++ [List.filter (nonzero (fst st)) (snd st)])
            (regs h)).
Proof.
  intros HA Hq Hla HoA HQ.
  destruct (owner_expr _ _ _ HoA) as (la' & a & pa & HA' & Hha & Hpa & Hra).
  rewrite HA in HA'. injection HA' as <-.
  set (c := length (procs h)).
  set (h1 := set_procs (fun ps => ps ++ [Q]) h).
  assert (Hc : valid h1 c) by (exists Q; simpl; now apply list_lookup_middle).
  assert (Hla1 : Forall (valid h1) la).
  { eapply Forall_impl; [exact Hla|]. intros t [p Hp]. exists p. simpl.
    now apply lookup_app_l_Some. }
  cbv zeta. destruct (merge_step (procs h ++ [Q], la) c) as [ps' L'] eqn:Hstep.
  set (h2 := mkHeap ps' (<[A := L']> (exprs h)) (regs h)).
  unfold ProcessExpr_add. erewrite bind_ok; cycle 1.
  { rewrite (bind_ok _ _ _ _ _ (load_proc_ok _ _ _ Hq)).
    rewrite (bind_ok _ _ _ _ _ (load_expr_ok _ _ _ HA)).
    rewrite (bind_ok _ _ _ _ _ (first_parent_ok _ _ _ _ Hha Hpa)).
    rewrite Hra, HQ, Nat.eqb_refl. cbn [negb].
    rewrite (bind_ok _ _ _ _ _ (copy_ok _ _ _ Hq)).
    fold h1. fold c. rewrite (add_term_ok h1 A la c HA Hla1 Hc).
    cbn [procs h1 set_procs]. rewrite Hstep. reflexivity. }
  cbn [fst snd exprs regs h1 set_procs]. fold h2.
  assert (HA2 : exprs h2 !! A = Some L').
  { simpl. apply list_lookup_insert_eq. now apply lookup_lt_Some in HA. }
  assert (HL2 : Forall (valid h2) L').
  { apply Forall_forall. intros t Ht. apply list_elem_of_In in Ht.
    pose proof (merge_step_length (procs h ++ [Q]) la c) as Hlen.
    pose proof (merge_step_terms (procs h ++ [Q]) la c t) as Hterms.
    rewrite Hstep in Hlen, Hterms. simpl in Hlen, Hterms.
    apply (valid_length h1); [exact Hlen|].
    destruct (Hterms Ht) as [H| ->]; [|exact Hc].
    rewrite Forall_forall in Hla1. apply Hla1. now apply list_elem_of_In. }
  rewrite (add_finish_ok h2 A L' HA2 HL2). simpl. now rewrite length_insert.
Qed.

(** X17: [E + p] and the handle [p].  When [p] is not one of the term
    objects of [E], [p] is left as it was: the merge works on a copy.  When
    [p] is a term object of [E] (as [E[0]] is), the copy is merged into [p]
    itself, whose multiplier is doubled in place. *)
Theorem ProcessExpr_add_handle_operand h A q la Q r :
  exprs h !! A = Some la -> handle_at h q Q ->
  well_formed (procs h) la ->
  owner h (VExpr A) = Some r -> _parent Q = r ->
  exists e h',
    ProcessExpr_add A (VProcess q) h = (Ok e, h')
    /\ (~ In q la -> handle_at h' q Q)
    /\ (In q la ->
          handle_at h' q (mkProcess (_parent Q) (index Q) (2 * multiplier Q))
          /\ exprs h' !! A = Some la).
Proof.
  intros HA Hq Hwa HoA HQ.
  rewrite (ProcessExpr_add_process_ok h A q la Q r HA Hq (well_formed_valid _ _ Hwa) HoA HQ).
  cbv zeta. set (c := length (procs h)). set (ps1 := procs h ++ [Q]).
  assert (Hc : ps1 !! c = Some Q) by now apply list_lookup_middle.
  assert (Hq1 : ps1 !! q = Some Q) by now apply lookup_app_l_Some.
  assert (Hla1 : well_formed ps1 la) by now apply well_formed_app.
  assert (Hlb1 : well_formed ps1 [c]) by (apply well_formed_singleton; eauto).
  destruct (merge_step_grows ps1 la c) as (extra & Eex & Hex).
  destruct (merge_step (ps1, la) c) as [ps' L'] eqn:Hstep. simpl in Eex. subst L'.
  destruct (merge_all_spec ps1 la [c] ps' (la ++ extra) Hla1 Hlb1 Hstep)
    as (Hlen & Hpos & Hwf & Hframe & Hcoef).
  cbn [fst snd]. eexists _, _. split; [reflexivity|]. cbn [procs exprs]. split.
  - intros Hn. unfold handle_at. cbn [procs]. now rewrite Hframe.
  - intros Hi.
    assert (Hnil : extra = []).
    { destruct extra as [|t extra]; [reflexivity|]. exfalso.
      assert (t = c) by (apply Hex; now left). subst t.
      destruct Hwf as [_ Hnd]. rewrite map_app in Hnd.
      apply NoDup_app in Hnd as (_ & Hdis & _).
      apply (Hdis (pos_at ps' c)).
      - assert (Heq : pos_at ps' c = pos_at ps' q)
          by (rewrite !Hpos; unfold pos_at; now rewrite Hc, Hq1).
        rewrite Heq. apply list_elem_of_In. now apply in_map.
      - left. }
    subst extra. rewrite app_nil_r in *. split.
    + destruct (lookup_lt_is_Some_2 ps' q) as [Q' HQ'].
      { rewrite Hlen. now apply lookup_lt_Some in Hq1. }
      pose proof (Hpos q) as Hpq. unfold pos_at in Hpq. rewrite Hq1, HQ' in Hpq.
      simpl in Hpq. injection Hpq as Hpar Hidx.
      pose proof (coef_well_formed ps' la q Q' Hwf Hi HQ') as Hc'.
      pose proof (coef_well_formed ps1 la q Q Hla1 Hi Hq1) as Hc1.
      assert (Hposeq : position Q' = position Q) by (unfold position; congruence).
      rewrite Hcoef, Hposeq, Hc1 in Hc'.
      assert (Hcc : coef ps1 [c] (position Q) = multiplier Q).
      { simpl. unfold term_coef. rewrite Hc.
        assert (Er : pos_eqb (position Q) (position Q) = true) by now apply pos_eqb_eq.
        rewrite Er. lia. }
      rewrite Hcc in Hc'.
      unfold handle_at. cbn [procs]. rewrite HQ'. f_equal.
      destruct Q' as [pa ix mu]. simpl in *. subst. f_equal. lia.
    + rewrite lookup_app_l by (rewrite length_insert; now apply lookup_lt_Some in HA).
      apply list_lookup_insert_eq. now apply lookup_lt_Some in HA.
Qed.

Lemma ProcessExpr_add_handle_operand_witness :
  exists e h',
    ProcessExpr_add 0%nat (VProcess 0%nat) heap_two_exprs = (Ok e, h')
    /\ handle_at h' 0%nat (mkProcess 0%nat 0 4).
Proof.
  destruct (ProcessExpr_add_handle_operand heap_two_exprs 0%nat 0%nat [0%nat]
              (mkProcess 0%nat 0 2) 0%nat)
    as (e & h' & E & _ & Hin).
  - reflexivity.
  - reflexivity.
  - apply well_formed_singleton. simpl. eauto.
  - reflexivity.
  - reflexivity.
  - exists e, h'. split; [exact E|]. apply Hin. now left.
Defined.

(** The run of [A - B] on expressions that share no term object. *)
Lemma ProcessExpr_sub_disjoint h A B la lb r :
  exprs h !! A = Some la -> exprs h !! B = Some lb ->
  well_formed (procs h) la -> well_formed (procs h) lb ->
  owner h (VExpr A) = Some r -> owner h (VExpr B) = Some r ->
  (forall t, In t la -> ~ In t lb) ->
  exists h1 h' le,
    ProcessExpr_neg B h = (Ok B, h1)
    /\ ProcessExpr_add A (VExpr B) h1 = (Ok (length (exprs h)), h')
    /\ (forall t p, In t lb -> procs h !! t = Some p ->
          procs h' !! t = Some (mkProcess (_parent p) (index p) (- multiplier p)))
    /\ (forall t, ~ In t la -> ~ In t lb -> procs h' !! t = procs h !! t)
    /\ (forall x, x <> A -> (x < length (exprs h))%nat -> exprs h' !! x = exprs h !! x)
    /\ exprs h' !! length (exprs h) = Some le
    /\ well_formed (procs h') le
    /\ (forall k, coef (procs h') le k = coef (procs h) la k - coef (procs h) lb k).
Proof.
  intros HA HB Hwa Hwb HoA HoB Hdis.
  destruct (ProcessExpr_neg_ok h B lb HB (well_formed_NoDup _ _ Hwb) (well_formed_valid _ _ Hwb))
    as (h1 & Eneg & He1 & Hr1 & Hlen1 & Hin1 & Hout1).
  assert (Hpos1 : forall a, pos_at (procs h1) a = pos_at (procs h) a).
  { intros a. unfold pos_at. destruct (in_dec Nat.eq_dec a lb) as [Hi|Hn].
    - destruct Hwb as [Hvb _]. rewrite Forall_forall in Hvb.
      destruct (Hvb a) as [p Hp]; [now apply list_elem_of_In|].
      now rewrite (Hin1 a p Hi Hp), Hp.
    - now rewrite Hout1. }
  assert (Hwa1 : well_formed (procs h1) la) by now apply (well_formed_ext (procs h)).
  assert (Hwb1 : well_formed (procs h1) lb) by now apply (well_formed_ext (procs h)).
  assert (Hown : forall x, owner h1 x = owner h x).
  { intros x. unfold owner.
    assert (Ht : terms_of h1 x = terms_of h x) by (destruct x; simpl; congruence).
    rewrite Ht. destruct (terms_of h x) as [[|a l]|]; try reflexivity.
    specialize (Hpos1 a). unfold pos_at in Hpos1.
    destruct (procs h1 !! a), (procs h !! a); simpl in *; try congruence.
    unfold position in Hpos1. congruence. }
  assert (HA1 : exprs h1 !! A = Some la) by congruence.
  assert (HB1 : exprs h1 !! B = Some lb) by congruence.
  destruct (ProcessExpr_add_expr_merges h1 A B la lb r HA1 HB1 Hwa1 Hwb1)
    as (h' & le & Eadd & Hle & Hwf & Hnz & Hcoef & Hregs & Hlen & Hpos & Hframe & Hexprs);
    try (rewrite Hown; assumption).
  rewrite He1 in *.
  exists h1, h', le.
  split; [exact Eneg|]. split; [exact Eadd|]. split.
  { intros t p Ht Hp. rewrite Hframe by (intros Hta; now apply (Hdis t)). now apply Hin1. }
  split.
  { intros t Hta Htb. rewrite Hframe by exact Hta. now apply Hout1. }
  split; [exact Hexprs|]. split; [exact Hle|]. split; [exact Hwf|].
  intros k. rewrite Hcoef.
  rewrite (coef_ext (procs h1) (procs h) la k).
  - rewrite (coef_negated (procs h) (procs h1) lb k); [lia|].
    intros t Ht. destruct Hwb as [Hvb _]. rewrite Forall_forall in Hvb.
    destruct (Hvb t) as [p Hp]; [now apply list_elem_of_In|]. exists p. split; [exact Hp|].
    now apply Hin1.
  - intros a Ha. apply Hout1. now apply Hdis.
Qed.

(** X18: subtracting an expression from a handle negates the expression
    in place: after [p - B] every term of [B] has its multiplier
    sign-flipped, the list of [B] is as it was, no other handle of the
    store has changed, and the result holds the difference at every
    position. *)
Theorem handle_minus_expression h p P B lb :
  handle_at h p P -> exprs h !! B = Some lb ->
  well_formed (procs h) lb -> owner h (VExpr B) = Some (_parent P) ->
  exists e h' le,
    py_sub (VProcess p) (VExpr B) h = (Ok e, h')
    /\ (forall t X, In t lb -> procs h !! t = Some X ->
          procs h' !! t = Some (mkProcess (_parent X) (index X) (- multiplier X)))
    /\ (forall a X, ~ In a lb -> handle_at h a X -> handle_at h' a X)
    /\ exprs h' !! B = Some lb
    /\ exprs h' !! e = Some le
    /\ (forall k, coef (procs h') le k = coef (procs h) [p] k - coef (procs h) lb k).
Proof.
  intros Hp HB Hwb HoB.
  set (c1 := length (procs h)). set (e1 := length (exprs h)).
  set (P1 := mkProcess (_parent P) (index P) (multiplier P * 1)).
  set (h1 := mkHeap (procs h ++ [P1]) (exprs h ++ [[c1]]) (regs h)).
  assert (X1 : extends h h1).
  { split; [eexists; reflexivity|]. split; [eexists; reflexivity|reflexivity]. }
  assert (Hc1 : procs h1 !! c1 = Some P1) by (simpl; now apply list_lookup_middle).
  assert (He1 : exprs h1 !! e1 = Some [c1]) by (simpl; now apply list_lookup_middle).
  assert (Hnotin : forall t, In t lb -> (t < c1)%nat).
  { intros t Ht. destruct Hwb as [Hv _]. rewrite Forall_forall in Hv.
    apply lookup_lt_is_Some. apply Hv. now apply list_elem_of_In. }
  destruct (ProcessExpr_sub_disjoint h1 e1 B [c1] lb (_parent P))
    as (h2 & h' & le & Eneg & Eadd & Hneg & Hkeep & Hexprs & Hle & Hwf & Hcoef).
  { exact He1. }
  { now apply (extends_expr h h1). }
  { apply well_formed_singleton. eauto. }
  { now apply (extends_well_formed h h1). }
  { unfold owner. cbn [terms_of]. now rewrite He1, Hc1. }
  { now apply (extends_owner h h1). }
  { intros t [<-|[]] Ht. specialize (Hnotin _ Ht). lia. }
  exists (length (exprs h1)), h', le. split.
  { simpl. unfold Process_sub.
    rewrite (bind_ok _ _ _ _ _ (Process_mul_ok h p P 1 Hp)). fold c1 P1 h1.
    cbn [py_neg]. now rewrite (bind_ok _ _ _ _ _ Eneg). }
  split.
  { intros t X Ht HX. apply Hneg; [exact Ht|]. simpl. now apply lookup_app_l_Some. }
  split.
  { intros a X Hn Ha. unfold handle_at. rewrite Hkeep; [|
      intros [<-|[]]; apply lookup_lt_Some in Ha; unfold c1 in Ha; lia | exact Hn].
    simpl. now apply lookup_app_l_Some. }
  split.
  { rewrite Hexprs.
    - now apply (extends_expr h h1).
    - intros ->. apply lookup_lt_Some in HB. unfold e1 in HB. lia.
    - simpl. rewrite length_app. apply lookup_lt_Some in HB. lia. }
  split; [exact Hle|].
  intros k. rewrite Hcoef. rewrite (extends_coef h h1 lb k X1 Hwb). f_equal.
  unfold coef. cbn [fold_right]. unfold term_coef. rewrite Hc1.
  unfold handle_at in Hp. rewrite Hp. unfold position. cbn [_parent index multiplier P1].
  destruct (pos_eqb (_parent P, index P) k); lia.
Qed.

Lemma handle_minus_expression_witness :
  exists e h',
    py_sub (VProcess 0%nat) (VExpr 1%nat) heap_two_exprs = (Ok e, h')
    /\ procs h' !! 1%nat = Some (mkProcess 0%nat 1 (-3)).
Proof.
  destruct (handle_minus_expression heap_two_exprs 0%nat (mkProcess 0%nat 0 2) 1%nat [1%nat])
    as (e & h' & le & E & Hneg & _).
  - reflexivity.
  - reflexivity.
  - apply well_formed_singleton. simpl. eauto.
  - reflexivity.
  - exists e, h'. split; [exact E|].
    apply (Hneg 1%nat (mkProcess 0%nat 1 3)); [now left|reflexivity].
Defined.

Lemma NoDup_map_inj_in {A B} (f : A -> B) l x y :
  NoDup (map f l) -> In x l -> In y l -> f x = f y -> x = y.
Proof.
  induction l as [|a l IH]; simpl; [intros _ []|].
  intros Hnd Hx Hy E. apply NoDup_cons in Hnd as [Ha Hnd].
  destruct Hx as [->|Hx], Hy as [->|Hy]; [reflexivity| | |now apply IH].
  - exfalso. apply Ha. rewrite E. now apply list_elem_of_In, in_map.
  - exfalso. apply Ha. rewrite <- E. now apply list_elem_of_In, in_map.
Qed.

(** X19: [p + E] mutates nothing of the store, but its result is not
    independent of [E]: every term of the result other than the fresh copy
    of [p] is a term object of [E] itself, and every non-zero term of [E]
    at a position other than [p]'s is a term of the result, so a later
    in-place operation on the result reaches the terms of [E]. *)
Theorem handle_plus_expression_shares_terms h p P B lb :
  handle_at h p P -> exprs h !! B = Some lb ->
  well_formed (procs h) lb -> owner h (VExpr B) = Some (_parent P) ->
  exists e h' le,
    py_add (VProcess p) (VExpr B) h = (Ok e, h')
    /\ exprs h' !! e = Some le
    /\ (forall t, In t le -> t = length (procs h) \/ In t lb)
    /\ (forall t X, In t lb -> procs h !! t = Some X ->
          position X <> position P -> multiplier X <> 0 -> In t le)
    /\ (forall a X, handle_at h a X -> handle_at h' a X)
    /\ exprs h' !! B = Some lb.
Proof.
  intros Hp HB Hwb HoB.
  set (c1 := length (procs h)). set (e1 := length (exprs h)).
  set (P1 := mkProcess (_parent P) (index P) (multiplier P * 1)).
  set (h1 := mkHeap (procs h ++ [P1]) (exprs h ++ [[c1]]) (regs h)).
  assert (X1 : extends h h1).
  { split; [eexists; reflexivity|]. split; [eexists; reflexivity|reflexivity]. }
  assert (Hc1 : procs h1 !! c1 = Some P1) by (simpl; now apply list_lookup_middle).
  assert (He1 : exprs h1 !! e1 = Some [c1]) by (simpl; now apply list_lookup_middle).
  assert (HB1 : exprs h1 !! B = Some lb) by now apply (extends_expr h h1).
  assert (Hwa1 : well_formed (procs h1) [c1]) by (apply well_formed_singleton; eauto).
  assert (Hwb1 : well_formed (procs h1) lb) by now apply (extends_well_formed h h1).
  assert (Ho1 : owner h1 (VExpr e1) = Some (_parent P)).
  { unfold owner. cbn [terms_of]. now rewrite He1, Hc1. }
  assert (HoB1 : owner h1 (VExpr B) = Some (_parent P)) by now apply (extends_owner h h1).
  pose proof (ProcessExpr_add_expr_ok h1 e1 B [c1] lb (_parent P) He1 HB1
                (well_formed_valid _ _ Hwa1) (well_formed_valid _ _ Hwb1) Ho1 HoB1) as Eadd.
  cbv zeta in Eadd. destruct (merge_all_grows lb (procs h1) [c1]) as (extra & Eex & Hex).
  destruct (fold_left merge_step lb (procs h1, [c1])) as [ps' L'] eqn:Hfold.
  simpl in Eex. subst L'. cbn [fst snd] in Eadd.
  destruct (merge_all_spec _ _ _ _ _ Hwa1 Hwb1 Hfold) as (Hlen & Hpos & Hwf & Hframe & Hcoef).
  assert (Hold : forall a X, procs h !! a = Some X -> ps' !! a = Some X).
  { intros a X Ha. rewrite Hframe.
    - simpl. now apply lookup_app_l_Some.
    - intros [<-|[]]. apply lookup_lt_Some in Ha. unfold c1 in Ha. lia. }
  eexists _, _, _. split.
  { simpl. unfold Process_add.
    rewrite (bind_ok _ _ _ _ _ (Process_mul_ok h p P 1 Hp)). fold c1 P1 h1.
    rewrite (bind_ok _ _ _ _ _ (eq_refl : py_mul (VExpr B) 1 h1 = (Ok B, h1))).
    exact Eadd. }
  cbn [procs exprs]. split.
  { rewrite lookup_app_r by (rewrite length_insert; lia).
    rewrite length_insert, Nat.sub_diag. reflexivity. }
  split.
  { intros t Ht. apply filter_In in Ht as [Ht _].
    destruct Ht as [<-|Ht]; [now left|right; now apply Hex]. }
  split.
  { intros t X Ht HX Hne Hnz.
    assert (Hc : coef ps' ([c1] ++ extra) (position X) <> 0).
    { rewrite Hcoef, (extends_coef h h1 lb _ X1 Hwb), (coef_well_formed _ lb t X Hwb Ht HX).
      unfold coef. cbn [fold_right]. unfold term_coef. rewrite Hc1.
      unfold position at 1. cbn [_parent index P1]. fold (position P).
      destruct (pos_eqb (position P) (position X)) eqn:E; [|lia].
      apply pos_eqb_eq in E. congruence. }
    destruct (coef_present _ _ _ Hc) as (a & Y & Ha & HY & HposY).
    assert (Hat : a = t).
    { destruct Ha as [<-|Ha].
      - exfalso. pose proof (Hpos c1) as Hpc. unfold pos_at in Hpc. rewrite HY, Hc1 in Hpc.
        simpl in Hpc. injection Hpc as Hpc. apply Hne. rewrite <- HposY.
        unfold position in Hpc |- *. cbn [_parent index P1] in Hpc. congruence.
      - destruct Hwb as [Hvb Hndb].
        apply (NoDup_map_inj_in (pos_at (procs h)) lb); [exact Hndb|now apply Hex|exact Ht|].
        rewrite Forall_forall in Hvb.
        destruct (Hvb a) as [Ya HYa]; [apply list_elem_of_In; now apply Hex|].
        rewrite (Hold a Ya HYa) in HY. injection HY as ->.
        unfold pos_at. rewrite HYa, HX. simpl. now rewrite HposY. }
    subst a. apply filter_In. split; [exact Ha|].
    apply nonzero_true. exists X. split; [now apply Hold|exact Hnz]. }
  split; [intros a X Ha; now apply Hold|].
  rewrite lookup_app_l by (rewrite length_insert; apply lookup_lt_Some in HB1; exact HB1).
  rewrite list_lookup_insert_ne; [exact HB1|].
  intros <-. apply lookup_lt_Some in HB. unfold e1 in HB. lia.
Qed.

Lemma handle_plus_expression_shares_terms_witness :
  exists e h' le,
    py_add (VProcess 0%nat) (VExpr 1%nat) heap_two_exprs = (Ok e, h')
    /\ exprs h' !! e = Some le
    /\ In 1%nat le.
Proof.
  destruct (handle_plus_expression_shares_terms heap_two_exprs 0%nat (mkProcess 0%nat 0 2)
              1%nat [1%nat])
    as (e & h' & le & E & Hle & _ & Hshare & _).
  - reflexivity.
  - reflexivity.
  - apply well_formed_singleton. simpl. eauto.
  - reflexivity.
  - exists e, h', le. split; [exact E|]. split; [exact Hle|].
    apply (Hshare 1%nat (mkProcess 0%nat 1 3)); [now left|reflexivity| |]; simpl.
    + unfold position. simpl. intros [=].
    + lia.
Defined.

(** * Multipliers that are not integers

    The statements above are about integer multipliers.  In binary64 the
    identities they rest on fail: for an infinite [m], [m * 1 + m * -1] is
    not a number and so not [0], and the product is not associative. *)
Lemma float_multiplier_special_values :
  (infinity * 1 + infinity * (-1) =? 0)%float = false
  /\ ((0x1.999999999999ap-4 * 3) * 10 =? 0x1.999999999999ap-4 * (3 * 10))%float = false.
Proof. vm_compute. split; reflexivity. Qed.
